(** * CorrAI quantlab: the bar-by-bar backtest engine, embedded in Rocq

    A shallow embedding of [src/backtest.cpp] (with the declarations of
    [include/backtest.h]) and the properties of its simulation loop.

    Modelling conventions.
    - [double] is IEEE-754 binary64: Rocq's primitive [float], whose
      operations are the hardware ones.  Each C++ expression is translated
      with the association the C++ grammar gives it and is evaluated
      operation by operation (no fused multiply-add, no extended
      precision).
    - [int] is a 32-bit two's-complement integer and [size_t] a 64-bit
      unsigned one; both are carried as [Z] and every conversion between
      them is written out ([to_int], [to_size_t]).
    - [std::vector<T>] is [list T].  [operator[]] is unchecked in C++; a
      read or write outside the vector is undefined behaviour, which the
      embedding surfaces as the failure [OutOfBounds].
    - [std::vector<std::unique_ptr<Trade>>] is [list Trade]: every open
      position has one owner, so there is no aliasing to track.
    - [std::map<std::string, V>] is [gmap string V].
    - A thrown [std::invalid_argument] is the failure [InvalidArgument].
    - [DateTime] is an opaque time stamp, carried as [Z]. *)

From Stdlib Require Import ZArith Ascii String PrimFloat.
From stdpp Require Import base option list strings gmap sorting.

Set Warnings "-inexact-float".

#[local] Open Scope Z_scope.

(** ** Machine integers *)

Module Cpp.

Definition to_size_t (z : Z) : Z := z mod 2 ^ 64.

Definition to_int (z : Z) : Z := (z + 2 ^ 31) mod 2 ^ 32 - 2 ^ 31.

Definition INT_MAX : Z := 2 ^ 31 - 1.

End Cpp.

(** ** Failures and the result monad *)

Inductive Failure : Type :=
  | InvalidArgument (what : string)
  | OutOfBounds.

Inductive Res (A : Type) : Type :=
  | Ok (a : A)
  | Err (e : Failure).
Arguments Ok {A} a.
Arguments Err {A} e.

#[global] Instance Res_ret : MRet Res := λ A a, Ok a.

#[global] Instance Res_bind : MBind Res := λ A B k m,
  match m with
  | Ok a => k a
  | Err e => Err e
  end.

Definition is_Ok {A : Type} (m : Res A) : Prop :=
  match m with Ok _ => True | Err _ => False end.

(** [v[i]] on a [std::vector], read and write. *)
Definition vec_get {A : Type} (v : list A) (i : Z) : Res A :=
  if decide (0 ≤ i < Z.of_nat (length v)) then
    match v !! Z.to_nat i with
    | Some x => Ok x
    | None => Err OutOfBounds
    end
  else Err OutOfBounds.

Definition vec_set {A : Type} (v : list A) (i : Z) (x : A) : Res (list A) :=
  if decide (0 ≤ i < Z.of_nat (length v)) then Ok (<[Z.to_nat i := x]> v)
  else Err OutOfBounds.

(** ** Data model ([include/backtest.h]) *)

Definition DateTime : Type := Z.

Inductive TradeType : Type := LONG | SHORT | LONG_SHORT.

Inductive SignalPriorityMode : Type := EXIT_FIRST | ENTRY_FIRST | SAME_BAR_TRADE.

Inductive ExitReason : Type :=
  | TAKE_PROFIT
  | STOP_LOSS
  | EXIT_SIGNAL
  | MAX_HOLDING_PERIOD
  | FORCE_EXIT
  | NONE.

#[global] Instance TradeType_eq_dec : EqDecision TradeType.
Proof. solve_decision. Defined.
#[global] Instance SignalPriorityMode_eq_dec : EqDecision SignalPriorityMode.
Proof. solve_decision. Defined.
#[global] Instance ExitReason_eq_dec : EqDecision ExitReason.
Proof. solve_decision. Defined.

Record Trade : Type := mkTrade {
  entryTime : DateTime;
  exitTime : DateTime;
  entryPrice : float;
  exitPrice : float;
  quantity : float;
  profit : float;
  profitPct : float;
  direction : string;
  exitReason : string;
  entryIndex : Z;
  exitIndex : Z;
  entryFee : float;
  exitFee : float;
  entryInvestment : float;
  currentValue : float;
  exitValue : float;
  tradeReturn : float;
  positionType : string;
  position : float;
  signal : Z
}.

(** The default member initialisers of [struct Trade]. *)
Definition Trade_init : Trade := {|
  entryTime := 0; exitTime := 0;
  entryPrice := 0%float; exitPrice := 0%float; quantity := 0%float;
  profit := 0%float; profitPct := 0%float;
  direction := ""; exitReason := "";
  entryIndex := 0; exitIndex := 0;
  entryFee := 0%float; exitFee := 0%float; entryInvestment := 0%float;
  currentValue := 0%float; exitValue := 0%float; tradeReturn := 0%float;
  positionType := ""; position := 0%float; signal := 0
|}.

Record TimeSeriesData : Type := mkSeries {
  dates : list DateTime;
  prices : list float;
  entries : list Z;
  exits : list Z;
  availableCapital : list float;
  positionValue : list float;
  totalCapital : list float;
  dailyReturn : list float;
  cumulativeReturn : list float
}.

Record BacktestMetrics : Type := mkMetrics {
  startValue : float;
  endValue : float;
  totalReturn : float;
  annualizedReturn : float;
  maxDrawdown : float;
  totalTrades : Z;
  winningTrades : Z;
  winRate : float;
  profitFactor : float;
  sharpeRatio : float;
  sortinoRatio : float;
  calmarRatio : float;
  equityCurve : list (DateTime * float)
}.

(** The default member initialisers of [struct BacktestMetrics]. *)
Definition BacktestMetrics_init : BacktestMetrics := {|
  startValue := 0%float; endValue := 0%float; totalReturn := 0%float;
  annualizedReturn := 0%float; maxDrawdown := 0%float;
  totalTrades := 0; winningTrades := 0;
  winRate := 0%float; profitFactor := 0%float;
  sharpeRatio := 0%float; sortinoRatio := 0%float; calmarRatio := 0%float;
  equityCurve := []
|}.

(** The data members of [class Backtest]. *)
Record Backtest : Type := mkBacktest {
  data : TimeSeriesData;
  interval : string;
  tradeType : TradeType;
  startFund : float;
  eachTrade : float;
  tradeFees : float;
  tpStop : float;
  slStop : float;
  minHolding : Z;
  maxHolding : Z;
  slippagePct : float;
  maxPositions : Z;
  forceCloseAtEnd : bool;
  signalPriority : SignalPriorityMode;
  isMulti : bool;
  entriesMap : gmap string (list Z);
  exitsMap : gmap string (list Z);
  params : list string;
  result : BacktestMetrics;
  results : gmap string BacktestMetrics;
  m_trades : list Trade
}.

(** The scalar arguments of both constructors, with the default arguments
    that [include/backtest.h] declares for them. *)
Record Args : Type := mkArgs {
  timeframe : string;
  tradeTypeName : string;
  initialCapital : float;
  positionSizePct : float;
  commissionPct : float;
  takeProfitPct : float;
  stopLossPct : float;
  minHoldingPeriod : Z;
  maxHoldingPeriod : Z;
  slippage : float;
  maxPositionsParam : Z;
  forceClose : bool;
  signalPriorityMode : string
}.

Definition Args_default : Args := {|
  timeframe := "1d";
  tradeTypeName := "long_only";
  initialCapital := 10000%float;
  positionSizePct := 1%float;
  commissionPct := 0.001%float;
  takeProfitPct := 0%float;
  stopLossPct := 0%float;
  minHoldingPeriod := 1;
  maxHoldingPeriod := 0;
  slippage := 0%float;
  maxPositionsParam := 10;
  forceClose := true;
  signalPriorityMode := "exit_first"
|}.

(** ** Enum strings *)

Definition exitReasonToString (reason : ExitReason) : string :=
  match reason with
  | TAKE_PROFIT => "Take Profit"
  | STOP_LOSS => "Stop Loss"
  | EXIT_SIGNAL => "Exit Signal"
  | MAX_HOLDING_PERIOD => "Max Holding Period Reached"
  | FORCE_EXIT => "Force Exit due to Negative Capital"
  | NONE => "Unknown"
  end.

Definition getExitReasonString (reason : ExitReason) : string :=
  exitReasonToString reason.

(** [::tolower] in the "C" locale, and [std::transform] of a string with it. *)
Definition tolower (c : ascii) : ascii :=
  let n := N_of_ascii c in
  if ((65 <=? n) && (n <=? 90))%N then ascii_of_N (n + 32) else c.

Fixpoint transform_tolower (s : string) : string :=
  match s with
  | EmptyString => EmptyString
  | String c rest => String (tolower c) (transform_tolower rest)
  end.

Definition parseTradeType (type : string) : TradeType :=
  let lowerType := transform_tolower type in
  if decide (lowerType = "long") then LONG
  else if decide (lowerType = "short") then SHORT
  else if decide (lowerType = "long_short") then LONG_SHORT
  else LONG.

Definition parseSignalPriorityMode (mode : string) : SignalPriorityMode :=
  if decide (mode = "entry_first") then ENTRY_FIRST
  else if decide (mode = "same_bar_trade") then SAME_BAR_TRADE
  else EXIT_FIRST.

Definition intervalMappings : list (string * Z) :=
  [ ("1d", 365); ("1h", 365 * 24); ("4h", 365 * 6); ("30m", 365 * 48);
    ("15m", 365 * 96); ("5m", 365 * 288); ("1m", 365 * 1440) ].

Fixpoint find_interval (k : string) (m : list (string * Z)) : option Z :=
  match m with
  | [] => None
  | (k', v) :: rest => if decide (k = k') then Some v else find_interval k rest
  end.

Definition getPeriodsPerYear (bt : Backtest) : Z :=
  match find_interval (interval bt) intervalMappings with
  | Some v => v
  | None => 365
  end.

(** ** Construction *)

(** [v.resize(n, x)] on an empty vector. *)
Definition resize_from_empty {A : Type} (n : nat) (x : A) : list A := replicate n x.

(** The member-initialiser list shared by both constructors, followed by
    the allocation of the result vectors. *)
Definition init_members (a : Args) (multi : bool)
    (prices_ : list float) (entries_ exits_ : list Z) (dates_ : list DateTime)
    (entriesMap_ exitsMap_ : gmap string (list Z)) (params_ : list string)
    : Backtest :=
  let dataSize := length prices_ in
  {| data := {| dates := dates_;
                prices := prices_;
                entries := entries_;
                exits := exits_;
                availableCapital := resize_from_empty dataSize (initialCapital a);
                positionValue := resize_from_empty dataSize 0%float;
                totalCapital := resize_from_empty dataSize (initialCapital a);
                dailyReturn := resize_from_empty dataSize 0%float;
                cumulativeReturn := resize_from_empty dataSize 0%float |};
     interval := timeframe a;
     tradeType := parseTradeType (tradeTypeName a);
     startFund := initialCapital a;
     eachTrade := positionSizePct a;
     tradeFees := commissionPct a;
     tpStop := takeProfitPct a;
     slStop := stopLossPct a;
     minHolding := minHoldingPeriod a;
     maxHolding := maxHoldingPeriod a;
     slippagePct := slippage a;
     maxPositions := maxPositionsParam a;
     forceCloseAtEnd := forceClose a;
     signalPriority := parseSignalPriorityMode (signalPriorityMode a);
     isMulti := multi;
     entriesMap := entriesMap_;
     exitsMap := exitsMap_;
     params := params_;
     result := BacktestMetrics_init;
     results := ∅;
     m_trades := [] |}.

(** The single-strategy constructor. *)
Definition Backtest_single (prices_ : list float) (entrySignals exitSignals : list Z)
    (dates_ : list DateTime) (a : Args) : Res Backtest :=
  if decide (length prices_ ≠ length entrySignals
             ∨ length prices_ ≠ length exitSignals
             ∨ length prices_ ≠ length dates_)
  then Err (InvalidArgument "Price, entries, exits, and dates must have the same size")
  else Ok (init_members a false prices_ entrySignals exitSignals dates_ ∅ ∅ []).

(** Iteration over a [std::map<std::string, V>] visits the keys in
    increasing order of [std::string::operator<], the byte-wise
    lexicographic order. *)
Definition string_le (a b : string) : Prop := String.leb a b = true.

#[global] Instance string_le_dec (a b : string) : Decision (string_le a b).
Proof. unfold string_le. apply _. Defined.

Definition map_keys_in_order {V : Type} (m : gmap string V) : list string :=
  merge_sort string_le (map_to_list m).*1.

(** The body of the [for (const auto& entry : entriesMap)] loop of the
    multi-strategy constructor, from the keys still to visit; it returns
    the parameter names pushed to [params]. *)
Fixpoint check_params (prices_ : list float) (dates_ : list DateTime)
    (entriesMap_ exitsMap_ : gmap string (list Z))
    (keys : list string) (params_ : list string) : Res (list string) :=
  match keys with
  | [] => Ok params_
  | param :: rest =>
      match entriesMap_ !! param, exitsMap_ !! param with
      | Some entries_, Some exits_ =>
          if decide (length entries_ ≠ length prices_
                     ∨ length exits_ ≠ length prices_
                     ∨ length prices_ ≠ length dates_)
          then Err (InvalidArgument
                 ("Price, entries, exits, and dates must have the same size for parameter: "
                  +:+ param))
          else check_params prices_ dates_ entriesMap_ exitsMap_ rest (params_ ++ [param])
      | _, _ => Err (InvalidArgument ("Exit signals not found for parameter: " +:+ param))
      end
  end.

(** The multi-strategy constructor. *)
Definition Backtest_multi (prices_ : list float)
    (entrySignals exitSignals : gmap string (list Z))
    (dates_ : list DateTime) (a : Args) : Res Backtest :=
  params_ ← check_params prices_ dates_ entrySignals exitSignals
              (map_keys_in_order entrySignals) [];
  Ok (init_members a true prices_ [] [] dates_ entrySignals exitSignals params_).

(** ** The two signal processors *)

Section Engine.

(** The [Backtest] object the member functions run on. *)
Variable this : Backtest.

Definition isLongDirection (t : Trade) : bool := bool_decide (direction t = "long").

(** [int holdingPeriod = i - currentTrade->entryIndex;] with [i] a [size_t]:
    the [int] is converted to [size_t], the difference is taken modulo
    [2^64] and narrowed back to [int]. *)
Definition holdingPeriodAt (i : Z) (t : Trade) : Z :=
  Cpp.to_int (Cpp.to_size_t (i - Cpp.to_size_t (entryIndex t))).

Definition pricePctAt (price : float) (t : Trade) : float :=
  if isLongDirection t
  then ((price - entryPrice t) / entryPrice t)%float
  else ((entryPrice t - price) / entryPrice t)%float.

(** The [if / else if] cascade that sets [shouldExit] and [exitReason]. *)
Definition checkExit (i : Z) (price : float) (exitSignal : Z) (t : Trade)
    : bool * ExitReason :=
  let isLong := isLongDirection t in
  let holdingPeriod := holdingPeriodAt i t in
  let pricePct := pricePctAt price t in
  if (0 <? tpStop this)%float && (tpStop this <=? pricePct)%float then
    (true, TAKE_PROFIT)
  else if (0 <? slStop this)%float && (pricePct <=? - slStop this)%float then
    (true, STOP_LOSS)
  else if (0 <? maxHolding this) && (maxHolding this <=? holdingPeriod) then
    (true, MAX_HOLDING_PERIOD)
  else if ((isLong && (exitSignal =? -1)) || (negb isLong && (exitSignal =? 1)))
          && (minHolding this <=? holdingPeriod) then
    (true, EXIT_SIGNAL)
  else
    (false, NONE).

(** Fill price of an exit at market price [price]. *)
Definition exitPriceFor (isLong : bool) (price : float) : float :=
  if (0 <? slippagePct this)%float then
    if isLong then (price * (1 - slippagePct this))%float
    else (price * (1 + slippagePct this))%float
  else price.

(** [(profit, exitValue)] of closing [t] at fill price [exitPrice_]. *)
Definition settle (isLong : bool) (t : Trade) (exitPrice_ : float) : float * float :=
  if isLong then
    let exitValue_ := (quantity t * exitPrice_ * (1 - tradeFees this))%float in
    let profit_ := (exitValue_ - entryInvestment t)%float in
    (profit_, exitValue_)
  else
    let buybackCost := (quantity t * exitPrice_)%float in
    let exitFee_ := (buybackCost * tradeFees this)%float in
    let totalExitCost := (buybackCost + exitFee_)%float in
    let profit_ := (entryInvestment t - totalExitCost)%float in
    let exitValue_ := (entryInvestment t + profit_)%float in
    (profit_, exitValue_).

(** The block that both [processExitSignals] and the end-of-run flush of
    [runSingleBacktest] execute on a position they close: exit price with
    slippage, settlement, and the update of the trade object.  The two
    sites differ in the bar index, its date and the reason string. *)
Definition closeTrade (t : Trade) (price : float) (exitTime_ : DateTime)
    (index : Z) (reason : string) : Trade :=
  let isLong := isLongDirection t in
  let exitPrice_ := exitPriceFor isLong price in
  let '(profit_, exitValue_) := settle isLong t exitPrice_ in
  let profitPct_ := (profit_ / entryInvestment t * 100)%float in
  {| entryTime := entryTime t;
     exitTime := exitTime_;
     entryPrice := entryPrice t;
     exitPrice := exitPrice_;
     quantity := quantity t;
     profit := profit_;
     profitPct := profitPct_;
     direction := direction t;
     exitReason := reason;
     entryIndex := entryIndex t;
     exitIndex := Cpp.to_int index;
     entryFee := entryFee t;
     exitFee := (if isLong then quantity t * exitPrice_ * tradeFees this
                 else quantity t * exitPrice_ * tradeFees this)%float;
     entryInvestment := entryInvestment t;
     currentValue := currentValue t;
     exitValue := exitValue_;
     tradeReturn := tradeReturn t;
     positionType := positionType t;
     position := position t;
     signal := signal t |}.

(** The iterator loop of [processExitSignals] from the position [it]
    points at: [currentTrades] are the positions not yet visited; the
    result lists the positions kept, the ledger, the capital and
    [hasExited]. *)
Fixpoint exitLoop (seriesData : TimeSeriesData) (i : Z) (price : float)
    (exitSignal : Z) (currentTrades trades : list Trade)
    (currentCapital : float) (hasExited : bool)
    : Res (list Trade * list Trade * float * bool) :=
  match currentTrades with
  | [] => Ok ([], trades, currentCapital, hasExited)
  | currentTrade :: rest =>
      let '(shouldExit, exitReason_) := checkExit i price exitSignal currentTrade in
      if shouldExit then
        exitTime_ ← vec_get (dates seriesData) i;
        let closed := closeTrade currentTrade price exitTime_ i
                        (getExitReasonString exitReason_) in
        exitLoop seriesData i price exitSignal rest (trades ++ [closed])
          (currentCapital + exitValue closed)%float true
      else
        '(kept, trades', capital', hasExited') ←
          exitLoop seriesData i price exitSignal rest trades currentCapital hasExited;
        Ok (currentTrade :: kept, trades', capital', hasExited')
  end.

(** Result: [(hasExited, currentTrades, trades, currentCapital)]. *)
Definition processExitSignals (currentTrades trades : list Trade)
    (seriesData : TimeSeriesData) (i : Z) (price : float) (exitSignal : Z)
    (currentCapital : float) : Res (bool * list Trade * list Trade * float) :=
  '(kept, trades', capital', hasExited) ←
    exitLoop seriesData i price exitSignal currentTrades trades currentCapital false;
  Ok (hasExited, kept, trades', capital').

(** Result: [(hasEntered, currentTrades, currentCapital)]. *)
Definition processEntrySignals (currentTrades : list Trade)
    (seriesData : TimeSeriesData) (i : Z) (price : float) (entrySignal : Z)
    (currentCapital : float) : Res (bool * list Trade * float) :=
  if (bool_decide (maxPositions this = 0)
      || (Z.of_nat (length currentTrades) <? Cpp.to_size_t (maxPositions this)))
     && (bool_decide (entrySignal = 1) || bool_decide (entrySignal = -1)) then
    let isLong := bool_decide (entrySignal = 1) in
    let shouldTrade :=
      if bool_decide (tradeType this = LONG) && isLong then true
      else if bool_decide (tradeType this = SHORT) && negb isLong then true
      else if bool_decide (tradeType this = LONG_SHORT) then true
      else false in
    if shouldTrade then
      let tradeAmount := (currentCapital * eachTrade this)%float in
      if (0 <? tradeAmount)%float then
        let entryPrice_ :=
          if (0 <? slippagePct this)%float then
            if isLong then (price * (1 + slippagePct this))%float
            else (price * (1 - slippagePct this))%float
          else price in
        let entryFee_ := (tradeAmount * tradeFees this)%float in
        let actualInvestment := (tradeAmount - entryFee_)%float in
        let quantity_ := (actualInvestment / entryPrice_)%float in
        entryTime_ ← vec_get (dates seriesData) i;
        let newTrade :=
          {| entryTime := entryTime_;
             exitTime := exitTime Trade_init;
             entryPrice := entryPrice_;
             exitPrice := exitPrice Trade_init;
             quantity := quantity_;
             profit := profit Trade_init;
             profitPct := profitPct Trade_init;
             direction := if isLong then "long" else "short";
             exitReason := exitReason Trade_init;
             entryIndex := Cpp.to_int i;
             exitIndex := exitIndex Trade_init;
             entryFee := entryFee_;
             exitFee := exitFee Trade_init;
             entryInvestment := tradeAmount;
             currentValue := actualInvestment;
             exitValue := exitValue Trade_init;
             tradeReturn := tradeReturn Trade_init;
             positionType := positionType Trade_init;
             position := position Trade_init;
             signal := signal Trade_init |} in
        Ok (true, currentTrades ++ [newTrade], (currentCapital - tradeAmount)%float)
      else Ok (true, currentTrades, currentCapital)
    else Ok (false, currentTrades, currentCapital)
  else Ok (false, currentTrades, currentCapital).

End Engine.

(** ** Metrics *)

(** [static_cast<double>(n)] for an integer [n]; exact for [|n| ≤ 2^53],
    which covers every vector size and trade count that fits in memory. *)
Fixpoint double_of_pos (p : positive) : float :=
  match p with
  | xH => 1%float
  | xO q => (2 * double_of_pos q)%float
  | xI q => (2 * double_of_pos q + 1)%float
  end.

Definition double_of_Z (z : Z) : float :=
  match z with
  | Z0 => 0%float
  | Zpos p => double_of_pos p
  | Zneg p => (- double_of_pos p)%float
  end.

(** [std::max(a, b)] is [(a < b) ? b : a]. *)
Definition std_max (a b : float) : float := if (a <? b)%float then b else a.

(** [std::numeric_limits<double>::epsilon()]. *)
Definition DBL_EPSILON : float := 0x1p-52%float.

(** [std::accumulate(v.begin(), v.end(), 0.0)]. *)
Definition accumulate (v : list float) : float :=
  fold_left (λ acc x, (acc + x)%float) v 0%float.

Section Metrics.

(** [std::pow] of [<cmath>]: the language leaves its rounding to the C
    library, so the embedding takes it as given. *)
Variable pow : float → float → float.

Variable this : Backtest.

(** The loop of [calculateMaxDrawdown] from index 1 on. *)
Fixpoint drawdownLoop (rest : list float) (peak maxDrawdown_ : float) : float :=
  match rest with
  | [] => maxDrawdown_
  | v :: rest' =>
      if (peak <? v)%float then drawdownLoop rest' v maxDrawdown_
      else
        let drawdown := ((peak - v) / peak * 100)%float in
        drawdownLoop rest' peak (std_max maxDrawdown_ drawdown)
  end.

Definition calculateMaxDrawdown (equityCurve_ : list float) : Res float :=
  peak ← vec_get equityCurve_ 0;
  Ok (drawdownLoop (tail equityCurve_) peak 0%float).

(** The excess returns both ratio functions build: the returns that are
    not NaN, less the per-period risk-free rate. *)
Definition excessReturnsOf (returns : list float) (periodRiskFreeRate : float)
    : list float :=
  (λ r, (r - periodRiskFreeRate)%float) <$> filter (λ r, is_nan r = false) returns.

Definition calculateAnnualizedSharpeRatio (returns : list float)
    (riskFreeRate : float) (periodsPerYear : Z) : float :=
  if bool_decide (returns = []) then 0%float else
  let periodRiskFreeRate :=
    (pow (1 + riskFreeRate) (1 / double_of_Z periodsPerYear) - 1)%float in
  let excessReturns := excessReturnsOf returns periodRiskFreeRate in
  if bool_decide (excessReturns = []) then 0%float else
  let n := double_of_Z (Z.of_nat (length excessReturns)) in
  let meanExcessReturn := (accumulate excessReturns / n)%float in
  let variance :=
    (fold_left (λ acc r, acc + pow (r - meanExcessReturn) 2)%float
       excessReturns 0 / n)%float in
  let stdDev := sqrt variance in
  if (stdDev <=? DBL_EPSILON)%float then 0%float else
  let sharpeRatio_ := (meanExcessReturn / stdDev)%float in
  (sharpeRatio_ * sqrt (double_of_Z periodsPerYear))%float.

(** The downside loop of [calculateSortinoRatio]:
    [(sumSquaredDownside, downsideCount)]. *)
Definition downsideOf (excessReturns : list float) : float * Z :=
  fold_left (λ '(sumSquaredDownside, downsideCount) r,
               if (r <? 0)%float
               then ((sumSquaredDownside + pow r 2)%float, Cpp.to_int (downsideCount + 1))
               else (sumSquaredDownside, downsideCount))
    excessReturns (0%float, 0).

Definition calculateSortinoRatio (returns : list float)
    (riskFreeRate : float) (periodsPerYear : Z) : float :=
  if bool_decide (returns = []) then 0%float else
  let periodRiskFreeRate :=
    (pow (1 + riskFreeRate) (1 / double_of_Z periodsPerYear) - 1)%float in
  let excessReturns := excessReturnsOf returns periodRiskFreeRate in
  if bool_decide (excessReturns = []) then 0%float else
  let n := double_of_Z (Z.of_nat (length excessReturns)) in
  let meanExcessReturn := (accumulate excessReturns / n)%float in
  let '(sumSquaredDownside, downsideCount) := downsideOf excessReturns in
  if bool_decide (downsideCount = 0) || (sumSquaredDownside <=? DBL_EPSILON)%float then
    (if (0 <? meanExcessReturn)%float then 100 else 0)%float
  else
  let downsideDeviation :=
    sqrt (sumSquaredDownside / double_of_Z downsideCount)%float in
  let sortinoRatio_ := (meanExcessReturn / downsideDeviation)%float in
  (sortinoRatio_ * sqrt (double_of_Z periodsPerYear))%float.

Definition calculateCalmarRatio (annualizedReturn_ maxDrawdown_ : float) : float :=
  if (maxDrawdown_ <? 0.01)%float then
    (if (0 <? annualizedReturn_)%float then 100 else 0)%float
  else (annualizedReturn_ / maxDrawdown_)%float.

(** The win/loss loop of [calculateMetrics]:
    [(winningTrades, totalProfit, totalLoss)]. *)
Definition tallyTrades (trades : list Trade) : Z * float * float :=
  fold_left (λ '(winningTrades_, totalProfit, totalLoss) trade,
               if (0 <? profit trade)%float
               then (Cpp.to_int (winningTrades_ + 1),
                     (totalProfit + profit trade)%float, totalLoss)
               else (winningTrades_, totalProfit, (totalLoss - profit trade)%float))
    trades (0, 0%float, 0%float).

(** The down-sampling loop that fills [equityCurve], from index [i];
    [fuel] bounds the number of iterations (the stride is at least 1, so
    the vector size is enough). *)
Fixpoint equityCurveLoop (fuel : nat) (data_ : TimeSeriesData) (i stride : Z)
    (acc : list (DateTime * float)) : Res (list (DateTime * float)) :=
  match fuel with
  | O => Ok acc
  | S fuel' =>
      if i <? Z.of_nat (length (totalCapital data_)) then
        d ← vec_get (dates data_) i;
        v ← vec_get (totalCapital data_) i;
        equityCurveLoop fuel' data_ (Cpp.to_size_t (i + stride)) stride (acc ++ [(d, v)])
      else Ok acc
  end.

Definition calculateMetrics (data_ : TimeSeriesData) (trades : list Trade)
    (riskFreeRate : float) : Res BacktestMetrics :=
  if bool_decide (totalCapital data_ = []) then Ok BacktestMetrics_init else
  let size := Z.of_nat (length (totalCapital data_)) in
  let startValue_ := startFund this in
  endValue_ ← vec_get (totalCapital data_) (size - 1);
  let totalReturn_ := ((endValue_ / startValue_ - 1) * 100)%float in
  let totalTrades_ := Cpp.to_int (Z.of_nat (length trades)) in
  let '(winningTrades_, totalProfit, totalLoss) := tallyTrades trades in
  let winRate_ :=
    if 0 <? totalTrades_
    then (double_of_Z winningTrades_ / double_of_Z totalTrades_ * 100)%float
    else 0%float in
  let profitFactor_ :=
    if (0 <? totalLoss)%float then (totalProfit / totalLoss)%float else 0%float in
  maxDrawdown_ ← calculateMaxDrawdown (totalCapital data_);
  let periodsPerYear := getPeriodsPerYear this in
  let years := (double_of_Z size / double_of_Z periodsPerYear)%float in
  let annualizedReturn_ :=
    if (0 <? years)%float && negb (totalReturn_ =? 0)%float
    then ((pow (1 + totalReturn_ / 100) (1 / years) - 1) * 100)%float
    else annualizedReturn BacktestMetrics_init in
  equityCurve_ ←
    equityCurveLoop (length (totalCapital data_)) data_ 0
      (Z.max 1 (size / 1000)) [];
  Ok {| startValue := startValue_;
        endValue := endValue_;
        totalReturn := totalReturn_;
        annualizedReturn := annualizedReturn_;
        maxDrawdown := maxDrawdown_;
        totalTrades := totalTrades_;
        winningTrades := winningTrades_;
        winRate := winRate_;
        profitFactor := profitFactor_;
        sharpeRatio :=
          calculateAnnualizedSharpeRatio (dailyReturn data_) riskFreeRate periodsPerYear;
        sortinoRatio :=
          calculateSortinoRatio (dailyReturn data_) riskFreeRate periodsPerYear;
        calmarRatio := calculateCalmarRatio annualizedReturn_ maxDrawdown_;
        equityCurve := equityCurve_ |}.

End Metrics.

(** ** The simulator *)

Definition withCurrentValue (t : Trade) (v : float) : Trade :=
  {| entryTime := entryTime t; exitTime := exitTime t;
     entryPrice := entryPrice t; exitPrice := exitPrice t;
     quantity := quantity t; profit := profit t; profitPct := profitPct t;
     direction := direction t; exitReason := exitReason t;
     entryIndex := entryIndex t; exitIndex := exitIndex t;
     entryFee := entryFee t; exitFee := exitFee t;
     entryInvestment := entryInvestment t;
     currentValue := v;
     exitValue := exitValue t; tradeReturn := tradeReturn t;
     positionType := positionType t; position := position t;
     signal := signal t |}.

(** [trade->currentValue = trade->quantity * price;] *)
Definition revalue (price : float) (trade : Trade) : Trade :=
  withCurrentValue trade (quantity trade * price)%float.

(** [for (trade : currentTrades) totalPositionValue += trade->currentValue;]
    starting from [0.0]. *)
Definition sumCurrentValue (currentTrades : list Trade) : float :=
  fold_left (λ total trade, (total + currentValue trade)%float) currentTrades 0%float.

(** The first loop of a bar: every open position is revalued and the
    values are summed. *)
Definition markToMarket (price : float) (currentTrades : list Trade)
    : list Trade * float :=
  let revalued := revalue price <$> currentTrades in
  (revalued, sumCurrentValue revalued).

(** The local variables of [runSingleBacktest] that live across bars. *)
Record Sim : Type := mkSim {
  currentTrades : list Trade;
  trades : list Trade;
  seriesData : TimeSeriesData;
  currentCapital : float;
  totalPositionValue : float
}.

Definition withSeries (d : TimeSeriesData)
    (availableCapital_ positionValue_ totalCapital_ dailyReturn_ cumulativeReturn_ : list float)
    : TimeSeriesData :=
  {| dates := dates d; prices := prices d; entries := entries d; exits := exits d;
     availableCapital := availableCapital_;
     positionValue := positionValue_;
     totalCapital := totalCapital_;
     dailyReturn := dailyReturn_;
     cumulativeReturn := cumulativeReturn_ |}.

Section Simulation.

Variable pow : float → float → float.

Variable this : Backtest.

(** The branch on [signalPriority] inside the bar loop.
    Result: [(hasProcessedEntry, currentTrades, trades, currentCapital)]. *)
Definition applySignals (currentTrades_ trades_ : list Trade)
    (seriesData_ : TimeSeriesData) (i : Z) (price : float)
    (entrySignal exitSignal : Z) (currentCapital_ : float)
    : Res (bool * list Trade * list Trade * float) :=
  if bool_decide (signalPriority this = EXIT_FIRST)
     || bool_decide (signalPriority this = SAME_BAR_TRADE) then
    '(hasProcessedExit, cur1, trades1, cap1) ←
      processExitSignals this currentTrades_ trades_ seriesData_ i price exitSignal
        currentCapital_;
    '(hasProcessedEntry, cur2, cap2) ←
      processEntrySignals this cur1 seriesData_ i price entrySignal cap1;
    if bool_decide (signalPriority this = SAME_BAR_TRADE) && hasProcessedEntry
       && negb (exitSignal =? 0) then
      '(_, cur3, trades3, cap3) ←
        processExitSignals this cur2 trades1 seriesData_ i price exitSignal cap2;
      Ok (hasProcessedEntry, cur3, trades3, cap3)
    else Ok (hasProcessedEntry, cur2, trades1, cap2)
  else
    '(hasProcessedEntry, cur1, cap1) ←
      processEntrySignals this currentTrades_ seriesData_ i price entrySignal
        currentCapital_;
    '(_, cur2, trades2, cap2) ←
      processExitSignals this cur1 trades_ seriesData_ i price exitSignal cap1;
    Ok (hasProcessedEntry, cur2, trades2, cap2).

(** The [if (i > 0)] block that records the return of bar [i]. *)
Definition recordDailyReturn (totalCapital_ dailyReturn_ : list float) (i : Z)
    : Res (list float) :=
  if 0 <? i then
    prevTotal ← vec_get totalCapital_ (i - 1);
    if (0 <? prevTotal)%float then
      total ← vec_get totalCapital_ i;
      vec_set dailyReturn_ i (total / prevTotal - 1)%float
    else Ok dailyReturn_
  else Ok dailyReturn_.

(** One iteration of the bar loop. *)
Definition barStep (entries_ exits_ : list Z) (i : Z) (s : Sim) : Res Sim :=
  let sd := seriesData s in
  price ← vec_get (prices sd) i;
  entrySignal ← vec_get entries_ i;
  exitSignal ← vec_get exits_ i;
  let '(revalued, _) := markToMarket price (currentTrades s) in
  '(_, cur, trades_, capital) ←
    applySignals revalued (trades s) sd i price entrySignal exitSignal
      (currentCapital s);
  let totalPositionValue_ := sumCurrentValue cur in
  availableCapital_ ← vec_set (availableCapital sd) i capital;
  positionValue_ ← vec_set (positionValue sd) i totalPositionValue_;
  totalCapital_ ← vec_set (totalCapital sd) i (capital + totalPositionValue_)%float;
  dailyReturn_ ← recordDailyReturn totalCapital_ (dailyReturn sd) i;
  Ok {| currentTrades := cur;
        trades := trades_;
        seriesData := withSeries sd availableCapital_ positionValue_ totalCapital_
                        dailyReturn_ (cumulativeReturn sd);
        currentCapital := capital;
        totalPositionValue := totalPositionValue_ |}.

(** [for (size_t i = ...; i < dataSize; ++i)] with [n] iterations left. *)
Fixpoint barLoop (entries_ exits_ : list Z) (n : nat) (i : Z) (s : Sim) : Res Sim :=
  match n with
  | O => Ok s
  | S n' =>
      s' ← barStep entries_ exits_ i s;
      barLoop entries_ exits_ n' (i + 1) s'
  end.

(** The end-of-run loop over [currentTrades] (taken when
    [forceCloseAtEnd]): the positions are updated in place and stay in
    [currentTrades]; copies go to the ledger.
    Result: [(currentTrades, trades, currentCapital)]. *)
Fixpoint flushLoop (seriesData_ : TimeSeriesData) (lastIndex : Z) (lastPrice : float)
    (currentTrades_ trades_ : list Trade) (currentCapital_ : float)
    : Res (list Trade * list Trade * float) :=
  match currentTrades_ with
  | [] => Ok ([], trades_, currentCapital_)
  | currentTrade :: rest =>
      exitTime_ ← vec_get (dates seriesData_) lastIndex;
      let closed := closeTrade this currentTrade lastPrice exitTime_ lastIndex
                      "End of Backtest" in
      '(rest', trades', capital') ←
        flushLoop seriesData_ lastIndex lastPrice rest (trades_ ++ [closed])
          (currentCapital_ + exitValue closed)%float;
      Ok (closed :: rest', trades', capital')
  end.

(** The block under [if (!currentTrades.empty())] after the flush. *)
Definition finalizeSeries (s : Sim) (lastIndex : Z) : Res TimeSeriesData :=
  let sd := seriesData s in
  if bool_decide (currentTrades s ≠ []) then
    let finalPositionValue :=
      if negb (forceCloseAtEnd this) then sumCurrentValue (currentTrades s)
      else 0%float in
    availableCapital_ ← vec_set (availableCapital sd) lastIndex (currentCapital s);
    positionValue_ ← vec_set (positionValue sd) lastIndex finalPositionValue;
    totalCapital_ ← vec_set (totalCapital sd) lastIndex
                      (currentCapital s + finalPositionValue)%float;
    Ok (withSeries sd availableCapital_ positionValue_ totalCapital_
          (dailyReturn sd) (cumulativeReturn sd))
  else Ok sd.

(** The loop that fills [cumulativeReturn], with [n] iterations left. *)
Fixpoint cumulativeLoop (n : nat) (i : Z) (cumulativeReturn_ : float)
    (dailyReturn_ out : list float) : Res (list float) :=
  match n with
  | O => Ok out
  | S n' =>
      r ← vec_get dailyReturn_ i;
      let cumulativeReturn' := (cumulativeReturn_ * (1 + r))%float in
      out' ← vec_set out i ((cumulativeReturn' - 1) * 100)%float;
      cumulativeLoop n' (i + 1) cumulativeReturn' dailyReturn_ out'
  end.

(** [runSingleBacktest] up to, and without, the assignment to [m_trades]
    and the call of [calculateMetrics]: the final values of the locals
    [seriesData] and [trades]. *)
Definition simulate (entries_ exits_ : list Z) : Res (TimeSeriesData * list Trade) :=
  let seriesData0 := data this in
  let dataSize := length (prices seriesData0) in
  s ← barLoop entries_ exits_ dataSize 0
        {| currentTrades := []; trades := []; seriesData := seriesData0;
           currentCapital := startFund this; totalPositionValue := 0%float |};
  let lastIndex := Cpp.to_size_t (Z.of_nat dataSize - 1) in
  lastPrice ← vec_get (prices (seriesData s)) lastIndex;
  s1 ← (if forceCloseAtEnd this then
          '(cur, trades_, capital) ←
            flushLoop (seriesData s) lastIndex lastPrice (currentTrades s) (trades s)
              (currentCapital s);
          Ok {| currentTrades := cur; trades := trades_; seriesData := seriesData s;
                currentCapital := capital;
                totalPositionValue := totalPositionValue s |}
        else Ok s);
  sd ← finalizeSeries s1 lastIndex;
  cumulativeReturn_ ←
    cumulativeLoop dataSize 0 1%float (dailyReturn sd) (cumulativeReturn sd);
  Ok (withSeries sd (availableCapital sd) (positionValue sd) (totalCapital sd)
        (dailyReturn sd) cumulativeReturn_,
      trades s1).

(** Result: the returned metrics and the ledger stored in [m_trades]. *)
Definition runSingleBacktest (entries_ exits_ : list Z)
    : Res (BacktestMetrics * list Trade) :=
  '(seriesData_, trades_) ← simulate entries_ exits_;
  metrics ← calculateMetrics pow this seriesData_ trades_ 0%float;
  Ok (metrics, trades_).

End Simulation.

Definition with_result (b : Backtest) (r : BacktestMetrics) (trades_ : list Trade)
    : Backtest :=
  {| data := data b; interval := interval b; tradeType := tradeType b;
     startFund := startFund b; eachTrade := eachTrade b; tradeFees := tradeFees b;
     tpStop := tpStop b; slStop := slStop b; minHolding := minHolding b;
     maxHolding := maxHolding b; slippagePct := slippagePct b;
     maxPositions := maxPositions b; forceCloseAtEnd := forceCloseAtEnd b;
     signalPriority := signalPriority b; isMulti := isMulti b;
     entriesMap := entriesMap b; exitsMap := exitsMap b; params := params b;
     result := r; results := results b;
     m_trades := trades_ |}.

Definition with_results (b : Backtest) (param : string) (r : BacktestMetrics)
    (trades_ : list Trade) : Backtest :=
  {| data := data b; interval := interval b; tradeType := tradeType b;
     startFund := startFund b; eachTrade := eachTrade b; tradeFees := tradeFees b;
     tpStop := tpStop b; slStop := slStop b; minHolding := minHolding b;
     maxHolding := maxHolding b; slippagePct := slippagePct b;
     maxPositions := maxPositions b; forceCloseAtEnd := forceCloseAtEnd b;
     signalPriority := signalPriority b; isMulti := isMulti b;
     entriesMap := entriesMap b; exitsMap := exitsMap b; params := params b;
     result := result b; results := <[param := r]> (results b);
     m_trades := trades_ |}.

(** The loop of [runBacktest] over [params]; [entriesMap[param]] on a
    [std::map] yields an empty vector for a missing key. *)
Fixpoint runParams (pow : float → float → float) (todo : list string) (b : Backtest)
    : Res Backtest :=
  match todo with
  | [] => Ok b
  | param :: rest =>
      let paramEntries := default [] (entriesMap b !! param) in
      let paramExits := default [] (exitsMap b !! param) in
      '(metrics, trades_) ← runSingleBacktest pow b paramEntries paramExits;
      runParams pow rest (with_results b param metrics trades_)
  end.

Definition runBacktest (pow : float → float → float) (b : Backtest) : Res Backtest :=
  if isMulti b then runParams pow (params b) b
  else
    '(metrics, trades_) ← runSingleBacktest pow b (entries (data b)) (exits (data b));
    Ok (with_result b metrics trades_).

Definition run (pow : float → float → float) (b : Backtest) : Res Backtest :=
  runBacktest pow b.

Definition getResult (b : Backtest) : BacktestMetrics := result b.

Definition getTrades (b : Backtest) : list Trade := m_trades b.

(** ** The exit rules as the specification words them

    These definitions follow the specification text, not the code; the
    theorems below compare the two. *)

Section ExitRules.

Variable this : Backtest.
Variables (i : Z) (price : float) (exitSignal : Z).

(** [price_return] relative to the entry price, in the direction of the trade. *)
Definition price_return (t : Trade) : float :=
  if decide (direction t = "long")
  then ((price - entryPrice t) / entryPrice t)%float
  else ((entryPrice t - price) / entryPrice t)%float.

(** [holding_period = i − entry_index]. *)
Definition holding_period (t : Trade) : Z := i - entryIndex t.

Definition take_profit_rule (t : Trade) : bool :=
  (0 <? tpStop this)%float && (tpStop this <=? price_return t)%float.

Definition stop_loss_rule (t : Trade) : bool :=
  (0 <? slStop this)%float && (price_return t <=? - slStop this)%float.

Definition max_holding_rule (t : Trade) : bool :=
  bool_decide (0 < maxHolding this ∧ maxHolding this ≤ holding_period t).

Definition exit_signal_rule (t : Trade) : bool :=
  bool_decide ((direction t = "long" ∧ exitSignal = -1
                ∨ direction t = "short" ∧ exitSignal = 1)
               ∧ minHolding this ≤ holding_period t).

(** The four conditions in their fixed order. *)
Definition exit_rules : list (ExitReason * (Trade → bool)) :=
  [ (TAKE_PROFIT, take_profit_rule);
    (STOP_LOSS, stop_loss_rule);
    (MAX_HOLDING_PERIOD, max_holding_rule);
    (EXIT_SIGNAL, exit_signal_rule) ].

(** "The first match wins." *)
Fixpoint first_match_in (rules : list (ExitReason * (Trade → bool))) (t : Trade)
    : option ExitReason :=
  match rules with
  | [] => None
  | (reason, rule) :: rest => if rule t then Some reason else first_match_in rest t
  end.

Definition first_match (t : Trade) : option ExitReason := first_match_in exit_rules t.

(** A position as the data model describes it at bar [i]: its direction is
    [long] or [short], and it was opened at a bar not after [i]. *)
Definition open_position_at (t : Trade) : Prop :=
  (direction t = "long" ∨ direction t = "short") ∧ 0 ≤ entryIndex t ≤ i.

End ExitRules.

(** ** What a pass of the exit processor does, position by position *)

Section ExitPass.

Variable this : Backtest.
Variables (i : Z) (price : float) (exitSignal : Z).

Definition exits_now (t : Trade) : bool := (checkExit this i price exitSignal t).1.

(** The closed copy that the processor appends for a position it exits. *)
Definition closedCopy (exitTime_ : DateTime) (t : Trade) : Trade :=
  closeTrade this t price exitTime_ i
    (getExitReasonString (checkExit this i price exitSignal t).2).

Definition closedCopies (exitTime_ : DateTime) (cur : list Trade) : list Trade :=
  closedCopy exitTime_ <$> filter (λ t, exits_now t = true) cur.

Definition addExitValues (capital : float) (closed : list Trade) : float :=
  fold_left (λ c t, (c + exitValue t)%float) closed capital.

(** The failure rule as the specification states it, for an open set with
    the single position [t]: if closing [t] would leave the capital
    negative, the position is closed as a forced exit and the capital
    continues at zero. *)
Definition force_exit_on_negative_capital (seriesData_ : TimeSeriesData)
    (t : Trade) (capital : float) : Prop :=
  ∀ reason exitTime_,
    checkExit this i price exitSignal t = (true, reason) →
    vec_get (dates seriesData_) i = Ok exitTime_ →
    (capital + exitValue (closedCopy exitTime_ t) <? 0)%float = true →
    ∃ c, processExitSignals this [t] [] seriesData_ i price exitSignal capital
           = Ok (true, [], [c], 0%float)
         ∧ (exitReason c = "force_exit"
            ∨ exitReason c = exitReasonToString FORCE_EXIT).

(** The reasons the cascade of [checkExit] can produce. *)
Definition ordinary_reasons : list ExitReason :=
  [TAKE_PROFIT; STOP_LOSS; MAX_HOLDING_PERIOD; EXIT_SIGNAL].

End ExitPass.

(** ** Construction failures as the specification words them *)

Definition fails_with_invalid_input {A : Type} (r : Res A) : Prop :=
  ∃ what, r = Err (InvalidArgument what).

Definition known_trade_types : list string := ["long"; "short"; "long_short"].

Definition known_signal_priorities : list string :=
  ["exit_first"; "entry_first"; "same_bar_trade"].

Definition known_timeframes : list string :=
  ["1m"; "5m"; "15m"; "30m"; "1h"; "4h"; "1d"].

Definition unknown_enum_string (a : Args) : Prop :=
  tradeTypeName a ∉ known_trade_types
  ∨ signalPriorityMode a ∉ known_signal_priorities
  ∨ timeframe a ∉ known_timeframes.

Definition unequal_lengths (prices_ : list float) (entries_ exits_ : list Z)
    (dates_ : list DateTime) : Prop :=
  length prices_ ≠ length entries_
  ∨ length prices_ ≠ length exits_
  ∨ length prices_ ≠ length dates_.

(** "length mismatch, ..., negative capital at construction, or unknown
    enum strings", for the single-strategy constructor. *)
Definition invalid_input_as_specified (prices_ : list float) (entries_ exits_ : list Z)
    (dates_ : list DateTime) (a : Args) : Prop :=
  unequal_lengths prices_ entries_ exits_ dates_
  ∨ (initialCapital a <? 0)%float = true
  ∨ unknown_enum_string a.

(** A named entry series with its exit series, both as long as the prices
    and the dates. *)
Definition pair_matches (prices_ : list float) (dates_ : list DateTime)
    (entriesMap_ exitsMap_ : gmap string (list Z)) (param : string) : Prop :=
  match entriesMap_ !! param, exitsMap_ !! param with
  | Some entries_, Some exits_ =>
      ¬ (length entries_ ≠ length prices_
         ∨ length exits_ ≠ length prices_
         ∨ length prices_ ≠ length dates_)
  | _, _ => False
  end.

#[global] Instance pair_matches_dec prices_ dates_ entriesMap_ exitsMap_ param :
  Decision (pair_matches prices_ dates_ entriesMap_ exitsMap_ param).
Proof.
  unfold pair_matches.
  destruct (entriesMap_ !! param), (exitsMap_ !! param); apply _.
Defined.

(** ** The signal-priority rule as the specification words it *)

Section PriorityRules.

Variable this : Backtest.
Variables (currentTrades_ trades_ : list Trade) (seriesData_ : TimeSeriesData).
Variables (i : Z) (price : float) (entrySignal exitSignal : Z) (currentCapital_ : float).

(** "run Exit processor, then Entry processor". *)
Definition exit_then_entry : Res (bool * list Trade * list Trade * float) :=
  '(_, cur1, trades1, cap1) ←
    processExitSignals this currentTrades_ trades_ seriesData_ i price exitSignal
      currentCapital_;
  '(hasEntered, cur2, cap2) ←
    processEntrySignals this cur1 seriesData_ i price entrySignal cap1;
  Ok (hasEntered, cur2, trades1, cap2).

(** "run Exit, then Entry, then Exit again". *)
Definition exit_entry_exit : Res (bool * list Trade * list Trade * float) :=
  '(hasEntered, cur2, trades1, cap2) ← exit_then_entry;
  '(_, cur3, trades3, cap3) ←
    processExitSignals this cur2 trades1 seriesData_ i price exitSignal cap2;
  Ok (hasEntered, cur3, trades3, cap3).

(** Exit, then Entry, then a second Exit pass taken only on the entry
    processor's report and a nonzero exit signal. *)
Definition exit_entry_exit_on_report : Res (bool * list Trade * list Trade * float) :=
  '(hasEntered, cur2, trades1, cap2) ← exit_then_entry;
  if hasEntered && negb (exitSignal =? 0) then
    '(_, cur3, trades3, cap3) ←
      processExitSignals this cur2 trades1 seriesData_ i price exitSignal cap2;
    Ok (hasEntered, cur3, trades3, cap3)
  else Ok (hasEntered, cur2, trades1, cap2).

(** "the direction is permitted by [trade_type]". *)
Definition permitted : Prop :=
  match tradeType this with
  | LONG => entrySignal = 1
  | SHORT => entrySignal = -1
  | LONG_SHORT => entrySignal = 1 ∨ entrySignal = -1
  end.

(** "open-set size < [max_positions] (or unlimited)". *)
Definition below_cap : Prop :=
  maxPositions this = 0 ∨ Z.of_nat (length currentTrades_) < maxPositions this.

End PriorityRules.

(** ** Shapes and the trade surface *)

(** The vectors of [this->data] and the two signal vectors all have the
    length of the price vector, as both constructors arrange. *)
Definition well_sized (d : TimeSeriesData) (entries_ exits_ : list Z) : Prop :=
  let n := length (prices d) in
  length (dates d) = n ∧ length entries_ = n ∧ length exits_ = n
  ∧ length (availableCapital d) = n ∧ length (positionValue d) = n
  ∧ length (totalCapital d) = n ∧ length (dailyReturn d) = n
  ∧ length (cumulativeReturn d) = n.

(** A valid input of a run: an object one of the two constructors has
    accepted, with the signal vectors the run is started on (those given
    to the single-strategy constructor, or a named pair of the
    multi-strategy one). *)
Definition valid_input (this : Backtest) (entries_ exits_ : list Z) : Prop :=
  (∃ prices_ dates_ a,
     Backtest_single prices_ entries_ exits_ dates_ a = Ok this)
  ∨ (∃ prices_ dates_ a entriesMap_ exitsMap_ param,
       Backtest_multi prices_ entriesMap_ exitsMap_ dates_ a = Ok this
       ∧ entriesMap_ !! param = Some entries_
       ∧ exitsMap_ !! param = Some exits_).

(** The series of a running simulation keep the inputs and the sizes of
    the series they started from. *)
Definition same_shape (d0 d : TimeSeriesData) : Prop :=
  dates d = dates d0 ∧ prices d = prices d0
  ∧ length (availableCapital d) = length (availableCapital d0)
  ∧ length (positionValue d) = length (positionValue d0)
  ∧ length (totalCapital d) = length (totalCapital d0)
  ∧ length (dailyReturn d) = length (dailyReturn d0)
  ∧ length (cumulativeReturn d) = length (cumulativeReturn d0).

(** [total_capital[j] = free_capital[j] + position_value[j]] at bar [j]. *)
Definition equity_identity_at (d : TimeSeriesData) (j : nat) : Prop :=
  ∃ free value : float,
    availableCapital d !! j = Some free
    ∧ positionValue d !! j = Some value
    ∧ totalCapital d !! j = Some (free + value)%float.

Definition direction_strings : list string := ["long"; "short"].

(** The reason strings a ledger entry can carry: the images of
    [exitReasonToString] on the five reasons, and the literal of the
    end-of-run flush. *)
Definition reason_strings : list string :=
  [ "Take Profit"; "Stop Loss"; "Exit Signal"; "Max Holding Period Reached";
    "End of Backtest"; "Force Exit due to Negative Capital" ].

(** The identifiers the specification lists for the same surface. *)
Definition reason_strings_as_specified : list string :=
  [ "take_profit"; "stop_loss"; "exit_signal"; "max_holding_period";
    "end_of_backtest"; "force_exit" ].

Definition on_surface (reasons : list string) (c : Trade) : Prop :=
  direction c ∈ direction_strings ∧ exitReason c ∈ reasons.

(** The value the specification assigns to an open short at [price]. *)
Definition short_value_as_specified (t : Trade) (price : float) : float :=
  (entryInvestment t + (entryPrice t - price) * quantity t)%float.

(** ** Concrete runs used below *)

Module Scenario.

(** A long position bought at 100 on bar 0, looked at on bar 1 at price
    120 with a 10% take-profit, a pending exit signal and a minimum
    holding period of 5 bars. *)
Definition tp_args : Args :=
  {| timeframe := "1d"; tradeTypeName := "long";
     initialCapital := 10000%float; positionSizePct := 1%float;
     commissionPct := 0%float; takeProfitPct := 0.1%float; stopLossPct := 0%float;
     minHoldingPeriod := 5; maxHoldingPeriod := 0; slippage := 0%float;
     maxPositionsParam := 10; forceClose := true;
     signalPriorityMode := "exit_first" |}.

Definition tp_object : Backtest :=
  init_members tp_args false [100; 120]%float [1; 0] [0; -1] [10; 11] ∅ ∅ [].

Definition tp_position : Trade :=
  {| entryTime := 10; exitTime := 0;
     entryPrice := 100%float; exitPrice := 0%float; quantity := 100%float;
     profit := 0%float; profitPct := 0%float;
     direction := "long"; exitReason := "";
     entryIndex := 0; exitIndex := 0;
     entryFee := 0%float; exitFee := 0%float; entryInvestment := 10000%float;
     currentValue := 12000%float; exitValue := 0%float; tradeReturn := 0%float;
     positionType := ""; position := 0%float; signal := 0 |}.

(** A short sold at 100 on bar 0 with the whole capital of 1000 and
    bought back on an exit signal at 250 on bar 1. *)
Definition squeeze_args : Args :=
  {| timeframe := "1d"; tradeTypeName := "short";
     initialCapital := 1000%float; positionSizePct := 1%float;
     commissionPct := 0%float; takeProfitPct := 0%float; stopLossPct := 0%float;
     minHoldingPeriod := 1; maxHoldingPeriod := 0; slippage := 0%float;
     maxPositionsParam := 10; forceClose := true;
     signalPriorityMode := "exit_first" |}.

Definition squeeze_object : Backtest :=
  init_members squeeze_args false [100; 250]%float [-1; 0] [0; 1] [0; 1] ∅ ∅ [].

Definition squeeze_position : Trade :=
  {| entryTime := 0; exitTime := 0;
     entryPrice := 100%float; exitPrice := 0%float; quantity := 10%float;
     profit := 0%float; profitPct := 0%float;
     direction := "short"; exitReason := "";
     entryIndex := 0; exitIndex := 0;
     entryFee := 0%float; exitFee := 0%float; entryInvestment := 1000%float;
     currentValue := 2500%float; exitValue := 0%float; tradeReturn := 0%float;
     positionType := ""; position := 0%float; signal := 0 |}.

(** One bar at price 100 with a long entry signal and no exit signal,
    under [same_bar_trade], 10% slippage and a 5% stop-loss. *)
Definition slip_args : Args :=
  {| timeframe := "1d"; tradeTypeName := "long";
     initialCapital := 1000%float; positionSizePct := 1%float;
     commissionPct := 0%float; takeProfitPct := 0%float; stopLossPct := 0.05%float;
     minHoldingPeriod := 1; maxHoldingPeriod := 0; slippage := 0.1%float;
     maxPositionsParam := 10; forceClose := false;
     signalPriorityMode := "same_bar_trade" |}.

Definition slip_object : Backtest :=
  init_members slip_args false [100]%float [1] [0] [0] ∅ ∅ [].

(** The same bar with a pending exit signal and no capital left. *)
Definition broke_object : Backtest :=
  init_members slip_args false [100]%float [1] [-1] [0] ∅ ∅ [].

(** Arguments the specification calls invalid: a negative capital and
    three strings that name no trade type, priority or time frame. *)
Definition odd_args : Args :=
  {| timeframe := "3d"; tradeTypeName := "sideways";
     initialCapital := (-1)%float; positionSizePct := 1%float;
     commissionPct := 0.001%float; takeProfitPct := 0%float; stopLossPct := 0%float;
     minHoldingPeriod := 1; maxHoldingPeriod := 0; slippage := 0%float;
     maxPositionsParam := 10; forceClose := true;
     signalPriorityMode := "whenever" |}.

(** S1 of the specification: a long bought at 100 and sold on its exit
    signal at 110, without costs. *)
Definition long_args : Args :=
  {| timeframe := "1d"; tradeTypeName := "long";
     initialCapital := 1000%float; positionSizePct := 1%float;
     commissionPct := 0%float; takeProfitPct := 0%float; stopLossPct := 0%float;
     minHoldingPeriod := 1; maxHoldingPeriod := 0; slippage := 0%float;
     maxPositionsParam := 10; forceClose := true;
     signalPriorityMode := "exit_first" |}.

Definition long_object : Backtest :=
  init_members long_args false [100; 110]%float [1; 0] [0; -1] [0; 1] ∅ ∅ [].

(** S4 of the specification: a short sold at 100 and bought back on its
    exit signal at 90, with a commission of 0.1%. *)
Definition short_args : Args :=
  {| timeframe := "1d"; tradeTypeName := "short";
     initialCapital := 1000%float; positionSizePct := 1%float;
     commissionPct := 0.001%float; takeProfitPct := 0%float; stopLossPct := 0%float;
     minHoldingPeriod := 1; maxHoldingPeriod := 0; slippage := 0%float;
     maxPositionsParam := 10; forceClose := true;
     signalPriorityMode := "exit_first" |}.

(** A short sold at 100 with the whole capital, no costs, still open on
    the second bar at price 90; nothing is closed at the end of the run. *)
Definition open_short_args : Args :=
  {| timeframe := "1d"; tradeTypeName := "short";
     initialCapital := 1000%float; positionSizePct := 1%float;
     commissionPct := 0%float; takeProfitPct := 0%float; stopLossPct := 0%float;
     minHoldingPeriod := 1; maxHoldingPeriod := 0; slippage := 0%float;
     maxPositionsParam := 10; forceClose := false;
     signalPriorityMode := "exit_first" |}.

Definition open_short_object : Backtest :=
  init_members open_short_args false [100; 90]%float [-1; 0] [0; 0] [0; 1] ∅ ∅ [].

(** A stand-in for [std::pow] where a run has to be evaluated; none of the
    numbers looked at depends on it. *)
Definition any_pow : float → float → float := λ x _, x.

End Scenario.

(** ** Notions for the properties of whole runs *)

(** The values of the locals of [runSingleBacktest] before the first bar. *)
Definition initialSim (this : Backtest) : Sim :=
  {| currentTrades := []; trades := []; seriesData := data this;
     currentCapital := startFund this; totalPositionValue := 0%float |}.

(** The equations between the fields of a closed trade. *)
Definition settled (this : Backtest) (t : Trade) : Prop :=
  (if isLongDirection t then
     exitValue t = (quantity t * exitPrice t * (1 - tradeFees this))%float
     ∧ profit t = (exitValue t - entryInvestment t)%float
   else
     profit t =
       (entryInvestment t
        - (quantity t * exitPrice t + quantity t * exitPrice t * tradeFees this))%float
     ∧ exitValue t = (entryInvestment t + profit t)%float)
  ∧ profitPct t = (profit t / entryInvestment t * 100)%float
  ∧ exitFee t = (quantity t * exitPrice t * tradeFees this)%float.

(** A ledger entry of a run over [n] bars: entered at a bar, closed at the
    same or a later bar. *)
Definition indexed_within (n : Z) (t : Trade) : Prop :=
  0 ≤ entryIndex t ≤ exitIndex t ∧ exitIndex t < n.

Definition by_exit_index (a b : Trade) : Prop := exitIndex a ≤ exitIndex b.

(** The direction a trade type lets through. *)
Definition direction_allowed (tt : TradeType) (t : Trade) : Prop :=
  match tt with
  | LONG => direction t = "long"
  | SHORT => direction t = "short"
  | LONG_SHORT => direction t = "long" ∨ direction t = "short"
  end.

(** Fill price of an entry at market price [price]: a long buys above it,
    a short sells below it, by the slippage. *)
Definition entryPriceFor (this : Backtest) (isLong : bool) (price : float) : float :=
  if (0 <? slippagePct this)%float then
    if isLong then (price * (1 + slippagePct this))%float
    else (price * (1 - slippagePct this))%float
  else price.

(** The entry side of a position: the fee is taken from the amount
    invested, and the rest buys the quantity at the fill price. *)
Definition sized (this : Backtest) (t : Trade) : Prop :=
  (0 <? entryInvestment t)%float = true
  ∧ entryFee t = (entryInvestment t * tradeFees this)%float
  ∧ quantity t = ((entryInvestment t - entryFee t) / entryPrice t)%float.

(** What the entry processor records in a position it opens at bar [i],
    at the market price [price], on the signal [entrySignal]. *)
Definition opened_by (this : Backtest) (i : Z) (price : float) (entrySignal : Z)
    (t : Trade) : Prop :=
  (entrySignal = 1 ∧ direction t = "long" ∧ tradeType this ≠ SHORT
   ∨ entrySignal = -1 ∧ direction t = "short" ∧ tradeType this ≠ LONG)
  ∧ entryIndex t = Cpp.to_int i
  ∧ entryPrice t = entryPriceFor this (isLongDirection t) price
  ∧ sized this t.

(** A ledger entry appended at bar [i]: the closed copy of a position
    [t], tagged with one of the four ordinary reasons. *)
Definition closed_from (this : Backtest) (i : Z) (price : float) (t c : Trade) : Prop :=
  ∃ exitTime_ reason,
    reason ∈ ordinary_reasons
    ∧ c = closeTrade this t price exitTime_ i (exitReasonToString reason).

Module Example.

(** Three bars at 100 with a long entry signal on each, a quarter of the
    capital per position and at most two positions. *)
Definition stack_args : Args :=
  {| timeframe := "1d"; tradeTypeName := "long";
     initialCapital := 1000%float; positionSizePct := 0.25%float;
     commissionPct := 0%float; takeProfitPct := 0%float; stopLossPct := 0%float;
     minHoldingPeriod := 1; maxHoldingPeriod := 0; slippage := 0%float;
     maxPositionsParam := 2; forceClose := true;
     signalPriorityMode := "exit_first" |}.

Definition stack_object : Backtest :=
  init_members stack_args false [100; 100; 100]%float [1; 1; 1] [0; 0; 0] [0; 1; 2]
    ∅ ∅ [].

(** One long entry on the first of three bars, to be closed by the
    holding limit of one bar. *)
Definition hold_args : Args :=
  {| timeframe := "1d"; tradeTypeName := "long";
     initialCapital := 1000%float; positionSizePct := 0.25%float;
     commissionPct := 0%float; takeProfitPct := 0%float; stopLossPct := 0%float;
     minHoldingPeriod := 1; maxHoldingPeriod := 1; slippage := 0%float;
     maxPositionsParam := 2; forceClose := true;
     signalPriorityMode := "exit_first" |}.

Definition hold_object : Backtest :=
  init_members hold_args false [100; 100; 100]%float [1; 0; 0] [0; 0; 0] [0; 1; 2]
    ∅ ∅ [].

(** Two named signal pairs on the same three bars. *)
Definition pair_entries : gmap string (list Z) :=
  {[ "a" := [1; 0; 0]; "b" := [0; 1; 0] ]}.

Definition pair_exits : gmap string (list Z) :=
  {[ "a" := [0; -1; 0]; "b" := [0; 0; -1] ]}.

Definition pair_object : Backtest :=
  init_members stack_args true [100; 100; 100]%float [] [] [0; 1; 2]
    pair_entries pair_exits ["a"; "b"].

End Example.

(** The return of bar [j] read off a series of total capitals: [0] for the
    first bar and after a total that is not positive, the simple return
    otherwise. *)
Definition bar_return_of (total : list float) (j : nat) : option float :=
  match j with
  | O => Some 0%float
  | S j' =>
      match total !! j', total !! j with
      | Some prev, Some cur =>
          Some (if (0 <? prev)%float then (cur / prev - 1)%float else 0%float)
      | _, _ => None
      end
  end.

(** A ledger entry closed by one of the exit rules of the bar loop, and one
    closed by the end-of-run loop of a series of [n] bars. *)
Definition closed_by_rule (c : Trade) : Prop :=
  ∃ reason, reason ∈ ordinary_reasons ∧ exitReason c = exitReasonToString reason.

Definition closed_at_end (n : Z) (c : Trade) : Prop :=
  exitReason c = "End of Backtest" ∧ exitIndex c = n - 1.

(** The growth factor of a sequence of returns, multiplied up from [1.0]
    from the left as the loop over [dailyReturn] does. *)
Definition compound (returns : list float) : float :=
  fold_left (λ acc r, (acc * (1 + r))%float) returns 1%float.

(** The two values of an entry signal the entry processor acts on, and the
    number of bars among the first [n] that carry one. *)
Definition is_entry_signal (e : Z) : Prop := e = 1 ∨ e = -1.

#[global] Instance is_entry_signal_dec e : Decision (is_entry_signal e).
Proof. unfold is_entry_signal. apply _. Defined.

Definition entry_signals (n : nat) (entries_ : list Z) : nat :=
  length (filter is_entry_signal (take n entries_)).

(** The trades of a ledger that count as won: those with a profit above
    [0.0]. *)
Definition winners (trades_ : list Trade) : list Trade :=
  filter (λ t, (0 <? profit t)%float = true) trades_.

(** The point of the equity curve taken at bar [j]. *)
Definition equity_point (data_ : TimeSeriesData) (j : Z) : option (DateTime * float) :=
  d ← dates data_ !! Z.to_nat j;
  v ← totalCapital data_ !! Z.to_nat j;
  Some (d, v).

(** [std::max<size_t>(1, size / 1000)], the distance between two bars
    sampled for the equity curve. *)
Definition equity_stride (data_ : TimeSeriesData) : Z :=
  Z.max 1 (Z.of_nat (length (totalCapital data_)) / 1000).

Definition getResults (b : Backtest) : gmap string BacktestMetrics := results b.

(** A position entered at the price of its entry bar, and a ledger entry
    that was also closed at the price of its exit bar, each price moved
    against the trade by the slippage. *)
Definition entered_at_bar_price (this : Backtest) (prices_ : list float) (t : Trade)
    : Prop :=
  (∃ p, prices_ !! Z.to_nat (entryIndex t) = Some p
        ∧ entryPrice t = entryPriceFor this (isLongDirection t) p)
  ∧ sized this t.

Definition filled_at_bar_prices (this : Backtest) (prices_ : list float) (c : Trade)
    : Prop :=
  entered_at_bar_price this prices_ c
  ∧ ∃ p, prices_ !! Z.to_nat (exitIndex c) = Some p
         ∧ exitPrice c = exitPriceFor this (isLongDirection c) p.

(** The [hold_bars] entry that [convert_trade_to_dict] of the Python
    wrapper computes for a trade: an [int] difference. *)
Definition hold_bars (t : Trade) : Z := Cpp.to_int (exitIndex t - entryIndex t).

(** What the holding limits promise about a ledger entry: it is never held
    longer than a positive [maxHolding], and an exit on a signal comes no
    earlier than [minHolding] bars after the entry. *)
Definition holding_respected (this : Backtest) (c : Trade) : Prop :=
  0 ≤ hold_bars c
  ∧ (0 < maxHolding this → hold_bars c ≤ maxHolding this)
  ∧ (exitReason c = "Exit Signal" → minHolding this ≤ hold_bars c).

(** A ledger entry whose exit reason is none of a switched-off rule: take
    profit and stop loss are off when their threshold is not above [0.0],
    the holding limit when [maxHolding] is not above [0]. *)
Definition disabled_rules_silent (this : Backtest) (c : Trade) : Prop :=
  ((0 <? tpStop this)%float = false → exitReason c ≠ "Take Profit")
  ∧ ((0 <? slStop this)%float = false → exitReason c ≠ "Stop Loss")
  ∧ (maxHolding this ≤ 0 → exitReason c ≠ "Max Holding Period Reached").

(** A trade whose direction is the one its entry bar asked for. *)
Definition follows_entry_signal (entries_ : list Z) (t : Trade) : Prop :=
  entries_ !! Z.to_nat (entryIndex t) = Some 1 ∧ direction t = "long"
  ∨ entries_ !! Z.to_nat (entryIndex t) = Some (-1) ∧ direction t = "short".

(** A position stamped with the date of its entry bar, and a ledger entry
    stamped with the dates of both its bars. *)
Definition entry_dated (dates_ : list DateTime) (t : Trade) : Prop :=
  dates_ !! Z.to_nat (entryIndex t) = Some (entryTime t).

Definition dated_by_bars (dates_ : list DateTime) (c : Trade) : Prop :=
  entry_dated dates_ c ∧ dates_ !! Z.to_nat (exitIndex c) = Some (exitTime c).

(** A series in which every value is above the one before it, as [<] on
    [double] has it. *)
Fixpoint rising_from (previous : float) (values : list float) : Prop :=
  match values with
  | [] => True
  | v :: rest => (previous <? v)%float = true ∧ rising_from v rest
  end.

Definition rising (values : list float) : Prop :=
  match values with
  | [] => True
  | v :: rest => rising_from v rest
  end.

(** The returns that are not NaN. *)
Definition without_nan (returns : list float) : list float :=
  filter (λ r, is_nan r = false) returns.

(** * Properties *)

(** ** Machine integers, results and vectors *)

Module CppFacts.
Import Cpp.

Lemma to_size_t_small z : 0 ≤ z < 2 ^ 64 → to_size_t z = z.
Proof. intros H. unfold to_size_t. by apply Z.mod_small. Qed.

Lemma to_int_small z : - 2 ^ 31 ≤ z < 2 ^ 31 → to_int z = z.
Proof. intros H. unfold to_int. rewrite Z.mod_small; lia. Qed.

(** An [int] difference of two bar indices that both fit an [int]. *)
Lemma index_difference i e :
  0 ≤ e ≤ i → i ≤ INT_MAX → to_int (to_size_t (i - to_size_t e)) = i - e.
Proof.
  unfold INT_MAX. intros He Hi.
  rewrite (to_size_t_small e) by lia.
  rewrite to_size_t_small by lia.
  apply to_int_small. lia.
Qed.

End CppFacts.

Lemma bind_Ok {A B : Type} (m : Res A) (k : A → Res B) (b : B) :
  m ≫= k = Ok b → ∃ a, m = Ok a ∧ k a = Ok b.
Proof. destruct m as [a|e]; simpl; [eauto | discriminate]. Qed.

Lemma vec_get_Ok {A : Type} (v : list A) (i : Z) (x : A) :
  vec_get v i = Ok x ↔ 0 ≤ i ∧ v !! Z.to_nat i = Some x.
Proof.
  unfold vec_get. case_decide as Hi.
  - destruct (v !! Z.to_nat i) eqn:E; split; intros H.
    + inversion H; subst. split; [lia | done].
    + destruct H as [_ H]. by inversion H.
    + discriminate.
    + by destruct H.
  - split; [discriminate |]. intros [? Hx].
    apply lookup_lt_Some in Hx. lia.
Qed.

Lemma vec_get_in_range {A : Type} (v : list A) (i : Z) :
  0 ≤ i < Z.of_nat (length v) → ∃ x, vec_get v i = Ok x.
Proof.
  intros Hi. destruct (lookup_lt_is_Some_2 v (Z.to_nat i)) as [x Hx]; [lia|].
  exists x. apply vec_get_Ok. split; [lia | done].
Qed.

Lemma vec_get_out_of_range {A : Type} (v : list A) (i : Z) :
  Z.of_nat (length v) ≤ i → vec_get v i = Err OutOfBounds.
Proof. intros Hi. unfold vec_get. case_decide; [lia | done]. Qed.

Lemma vec_set_in_range {A : Type} (v : list A) (i : Z) (x : A) :
  0 ≤ i < Z.of_nat (length v) → vec_set v i x = Ok (<[Z.to_nat i := x]> v).
Proof. intros Hi. unfold vec_set. by case_decide. Qed.

Lemma vec_set_Ok {A : Type} (v v' : list A) (i : Z) (x : A) :
  vec_set v i x = Ok v' →
  0 ≤ i < Z.of_nat (length v) ∧ v' = <[Z.to_nat i := x]> v.
Proof. unfold vec_set. case_decide; [|discriminate]. intros [= <-]. done. Qed.

(** ** The exit processor *)

Section ExitFacts.

Variable this : Backtest.
Variables (seriesData_ : TimeSeriesData) (i : Z) (price : float) (exitSignal : Z).

#[local] Abbreviation exits_now := (exits_now this i price exitSignal).
#[local] Abbreviation closedCopy := (closedCopy this i price exitSignal).
#[local] Abbreviation closedCopies := (closedCopies this i price exitSignal).

(** The loop with its in-place erase is a partition of the open set: the
    positions that exit are closed in order, the others are kept in order. *)
Lemma exitLoop_partition (exitTime_ : DateTime) cur trades_ capital hasExited :
  vec_get (dates seriesData_) i = Ok exitTime_ →
  exitLoop this seriesData_ i price exitSignal cur trades_ capital hasExited =
  Ok (filter (λ t, exits_now t = false) cur,
      trades_ ++ closedCopies exitTime_ cur,
      addExitValues capital (closedCopies exitTime_ cur),
      hasExited || bool_decide (closedCopies exitTime_ cur ≠ [])).
Proof.
  intros Hd. revert trades_ capital hasExited.
  induction cur as [|t rest IH]; intros trades_ capital hasExited; simpl.
  - rewrite app_nil_r, orb_false_r. done.
  - unfold closedCopies, exits_now in *.
    destruct (checkExit this i price exitSignal t) as [shouldExit reason] eqn:E.
    rewrite !filter_cons. simpl. rewrite E. simpl.
    destruct shouldExit; simpl.
    + rewrite Hd. simpl. rewrite IH.
      replace (closedCopy exitTime_ t)
        with (closeTrade this t price exitTime_ i (getExitReasonString reason))
        by (unfold closedCopy; by rewrite E).
      rewrite <- app_assoc, orb_true_r. done.
    + rewrite IH. done.
Qed.

(** When no position exits, the date of the bar is not even read. *)
Lemma exitLoop_no_exit cur trades_ capital hasExited :
  Forall (λ t, exits_now t = false) cur →
  exitLoop this seriesData_ i price exitSignal cur trades_ capital hasExited =
  Ok (cur, trades_, capital, hasExited).
Proof.
  intros H. induction H as [|t rest Ht _ IH]; simpl; [done|].
  unfold exits_now in Ht.
  destruct (checkExit this i price exitSignal t) as [shouldExit reason].
  simpl in Ht. subst shouldExit. rewrite IH. done.
Qed.

(** The positions a pass keeps are positions that do not exit at this bar. *)
Lemma exitLoop_kept cur trades_ capital hasExited kept trades' capital' hasExited' :
  exitLoop this seriesData_ i price exitSignal cur trades_ capital hasExited =
    Ok (kept, trades', capital', hasExited') →
  Forall (λ t, exits_now t = false) kept.
Proof.
  revert trades_ capital hasExited kept trades' capital' hasExited'.
  induction cur as [|t rest IH]; intros trades_ capital hasExited kept trades'
    capital' hasExited'; simpl.
  - intros [= <- _ _ _]. constructor.
  - destruct (checkExit this i price exitSignal t) as [shouldExit reason] eqn:E.
    destruct shouldExit.
    + intros H. apply bind_Ok in H as (d & _ & H). by eapply IH.
    + intros H. apply bind_Ok in H as ([[[k tr] c] h] & H1 & H2).
      simpl in H2. injection H2 as <- _ _ _.
      constructor; [by unfold exits_now; rewrite E | by eapply IH].
Qed.

End ExitFacts.

(** ** The cascade of [checkExit] against the ordered rules *)

Section CascadeFacts.

Variable this : Backtest.
Variables (i : Z) (price : float) (exitSignal : Z).

Lemma isLongDirection_long t : direction t = "long" → isLongDirection t = true.
Proof. intros H. unfold isLongDirection. by rewrite bool_decide_eq_true. Qed.

Lemma isLongDirection_short t : direction t = "short" → isLongDirection t = false.
Proof.
  intros H. unfold isLongDirection. rewrite bool_decide_eq_false, H. discriminate.
Qed.

Lemma pricePctAt_price_return t : pricePctAt price t = price_return price t.
Proof.
  unfold pricePctAt, price_return, isLongDirection.
  by destruct (decide (direction t = "long")) as [H|H];
    [rewrite bool_decide_true | rewrite bool_decide_false].
Qed.

Lemma holdingPeriodAt_holding_period t :
  i ≤ Cpp.INT_MAX → 0 ≤ entryIndex t ≤ i →
  holdingPeriodAt i t = holding_period i t.
Proof. intros Hi He. by apply CppFacts.index_difference. Qed.

(** On a well-formed open position the cascade returns the first rule of
    the ordered list that matches. *)
Lemma checkExit_first_match t :
  i ≤ Cpp.INT_MAX → open_position_at i t →
  checkExit this i price exitSignal t =
  match first_match this i price exitSignal t with
  | Some reason => (true, reason)
  | None => (false, NONE)
  end.
Proof.
  intros Hi [Hdir Hidx].
  unfold checkExit, first_match, exit_rules, first_match_in.
  rewrite pricePctAt_price_return, holdingPeriodAt_holding_period by done.
  unfold take_profit_rule, stop_loss_rule.
  destruct ((0 <? tpStop this)%float && (tpStop this <=? price_return price t)%float);
    [done|].
  destruct ((0 <? slStop this)%float && (price_return price t <=? - slStop this)%float);
    [done|].
  unfold max_holding_rule. case_bool_decide as Hmax.
  { destruct Hmax as [H1 H2].
    apply Z.ltb_lt in H1. apply Z.leb_le in H2. by rewrite H1, H2. }
  replace ((0 <? maxHolding this) && (maxHolding this <=? holding_period i t))
    with false.
  2:{ symmetry. apply andb_false_iff.
      destruct (decide (0 < maxHolding this)) as [H1|H1].
      - right. apply Z.leb_gt. lia.
      - left. apply Z.ltb_ge. lia. }
  unfold exit_signal_rule. case_bool_decide as Hsig.
  - destruct Hsig as [[[Hd He]|[Hd He]] Hmin]; subst exitSignal;
      apply Z.leb_le in Hmin; rewrite Hmin.
    + by rewrite isLongDirection_long.
    + by rewrite isLongDirection_short.
  - match goal with |- (if ?b then _ else _) = _ => destruct b eqn:E end; [|done].
    exfalso. apply Hsig.
    apply andb_true_iff in E as [E Hmin]. apply Z.leb_le in Hmin.
    split; [|done].
    apply orb_true_iff in E as [E|E]; apply andb_true_iff in E as [E1 E2];
      apply Z.eqb_eq in E2.
    + left. split; [|done]. unfold isLongDirection in E1.
      by apply bool_decide_eq_true in E1.
    + right. split; [|done]. apply negb_true_iff in E1.
      unfold isLongDirection in E1. apply bool_decide_eq_false in E1.
      by destruct Hdir.
Qed.

Lemma first_match_cases t :
  first_match this i price exitSignal t =
  if take_profit_rule this price t then Some TAKE_PROFIT
  else if stop_loss_rule this price t then Some STOP_LOSS
  else if max_holding_rule this i t then Some MAX_HOLDING_PERIOD
  else if exit_signal_rule this i exitSignal t then Some EXIT_SIGNAL
  else None.
Proof. reflexivity. Qed.

Lemma first_match_exit_signal t :
  first_match this i price exitSignal t = Some EXIT_SIGNAL →
  minHolding this ≤ holding_period i t.
Proof.
  rewrite first_match_cases.
  destruct (take_profit_rule this price t); [discriminate|].
  destruct (stop_loss_rule this price t); [discriminate|].
  destruct (max_holding_rule this i t); [discriminate|].
  destruct (exit_signal_rule this i exitSignal t) eqn:E; [|discriminate].
  intros _. unfold exit_signal_rule in E. apply bool_decide_eq_true in E. tauto.
Qed.

Lemma exits_now_first_match t :
  i ≤ Cpp.INT_MAX → open_position_at i t →
  exits_now this i price exitSignal t =
  bool_decide (is_Some (first_match this i price exitSignal t)).
Proof.
  intros Hi Ht. unfold exits_now. rewrite checkExit_first_match by done.
  by destruct (first_match this i price exitSignal t).
Qed.

End CascadeFacts.

(** ** Closing a position *)

Section CloseFacts.

Variable this : Backtest.

Lemma closeTrade_exitReason t price d idx reason :
  exitReason (closeTrade this t price d idx reason) = reason.
Proof. unfold closeTrade. by destruct (settle _ _ _ _). Qed.

Lemma closeTrade_direction t price d idx reason :
  direction (closeTrade this t price d idx reason) = direction t.
Proof. unfold closeTrade. by destruct (settle _ _ _ _). Qed.

Lemma closeTrade_entryIndex t price d idx reason :
  entryIndex (closeTrade this t price d idx reason) = entryIndex t.
Proof. unfold closeTrade. by destruct (settle _ _ _ _). Qed.

Lemma closeTrade_exitIndex t price d idx reason :
  exitIndex (closeTrade this t price d idx reason) = Cpp.to_int idx.
Proof. unfold closeTrade. by destruct (settle _ _ _ _). Qed.

Lemma closeTrade_exitValue t price d idx reason :
  exitValue (closeTrade this t price d idx reason) =
  (settle this (isLongDirection t) t (exitPriceFor this (isLongDirection t) price)).2.
Proof. unfold closeTrade. by destruct (settle _ _ _ _). Qed.

End CloseFacts.

Lemma exitReasonToString_inj r1 r2 :
  exitReasonToString r1 = exitReasonToString r2 → r1 = r2.
Proof. by destruct r1, r2. Qed.

Lemma filter_ext_Forall {A : Type} (P Q : A → Prop)
    `{!∀ x, Decision (P x)} `{!∀ x, Decision (Q x)} (l : list A) :
  Forall (λ x, P x ↔ Q x) l → filter P l = filter Q l.
Proof.
  induction 1 as [|x l Hx _ IH]; [done|].
  rewrite !filter_cons, IH.
  destruct (decide (P x)), (decide (Q x)); tauto.
Qed.

Lemma Forall_filter_impl {A : Type} (P : A → Prop) `{!∀ x, Decision (P x)}
    (Q R : A → Prop) (l : list A) :
  Forall Q l → (∀ x, Q x → P x → R x) → Forall R (filter P l).
Proof.
  rewrite !Forall_forall. intros HQ HR x [HP Hx]%list_elem_of_filter. eauto.
Qed.

(** The exit pass, stated with the rules of the specification. *)
Lemma processExitSignals_by_rules this seriesData_ i price exitSignal
    cur trades_ capital exitTime_ :
  i ≤ Cpp.INT_MAX →
  Forall (open_position_at i) cur →
  vec_get (dates seriesData_) i = Ok exitTime_ →
  let first := first_match this i price exitSignal in
  let exiting := filter (λ t, is_Some (first t)) cur in
  let closed :=
    (λ t, closeTrade this t price exitTime_ i
            (exitReasonToString (default NONE (first t)))) <$> exiting in
  processExitSignals this cur trades_ seriesData_ i price exitSignal capital =
  Ok (bool_decide (exiting ≠ []),
      filter (λ t, first t = None) cur,
      trades_ ++ closed,
      addExitValues capital closed).
Proof.
  intros Hi Hcur Hd first exiting closed.
  unfold processExitSignals.
  rewrite (exitLoop_partition _ _ _ _ _ exitTime_) by done. simpl.
  assert (filter (λ t, exits_now this i price exitSignal t = true) cur = exiting) as Hex.
  { apply filter_ext_Forall. eapply Forall_impl; [exact Hcur|].
    intros t Ht. simpl. rewrite exits_now_first_match by done.
    by rewrite bool_decide_eq_true. }
  assert (closedCopies this i price exitSignal exitTime_ cur = closed) as Hcl.
  { unfold closedCopies, closed. rewrite Hex.
    apply Forall_fmap_ext. unfold exiting.
    apply (Forall_filter_impl _ _ _ _ Hcur).
    intros t Ht _. unfold closedCopy. rewrite checkExit_first_match by done.
    unfold first. by destruct (first_match this i price exitSignal t). }
  rewrite Hcl. repeat f_equal.
  - apply bool_decide_ext. unfold closed.
    split; intros H E; apply H; [by rewrite E | by apply fmap_nil_inv in E].
  - apply filter_ext_Forall. eapply Forall_impl; [exact Hcur|].
    intros t Ht. simpl. rewrite exits_now_first_match by done.
    rewrite bool_decide_eq_false. unfold first.
    destruct (first_match this i price exitSignal t); split; try done.
    intros H. destruct H. eauto.
Qed.

(** C6.  At every bar the exit processor closes exactly the open positions
    that match one of the four conditions, each with the reason of the
    first condition that matches in the order take-profit, stop-loss,
    max-holding, exit-signal, and keeps the others; a trade it records as
    signal-driven has been held for at least [min_holding_period] bars,
    while a position matching take-profit, stop-loss or max-holding is
    closed for that reason whatever its holding period. *)
Theorem exit_conditions_in_fixed_order this seriesData_ i price exitSignal
    cur trades_ capital exitTime_ :
  i ≤ Cpp.INT_MAX →
  Forall (open_position_at i) cur →
  vec_get (dates seriesData_) i = Ok exitTime_ →
  let first := first_match this i price exitSignal in
  let exiting := filter (λ t, is_Some (first t)) cur in
  let closed :=
    (λ t, closeTrade this t price exitTime_ i
            (exitReasonToString (default NONE (first t)))) <$> exiting in
  processExitSignals this cur trades_ seriesData_ i price exitSignal capital =
    Ok (bool_decide (exiting ≠ []),
        filter (λ t, first t = None) cur,
        trades_ ++ closed,
        addExitValues capital closed)
  ∧ (∀ t, first t =
            if take_profit_rule this price t then Some TAKE_PROFIT
            else if stop_loss_rule this price t then Some STOP_LOSS
            else if max_holding_rule this i t then Some MAX_HOLDING_PERIOD
            else if exit_signal_rule this i exitSignal t then Some EXIT_SIGNAL
            else None)
  ∧ Forall (λ c, exitReason c = exitReasonToString EXIT_SIGNAL →
                 minHolding this ≤ exitIndex c - entryIndex c) closed
  ∧ Forall (λ t, take_profit_rule this price t
                 || stop_loss_rule this price t
                 || max_holding_rule this i t = true →
                 t ∈ exiting ∧ first t ≠ Some EXIT_SIGNAL) cur.
Proof.
  intros Hi Hcur Hd first exiting closed.
  split; [by apply processExitSignals_by_rules|].
  split; [intros t; apply first_match_cases|].
  split.
  - unfold closed. apply Forall_fmap, (Forall_filter_impl _ _ _ _ Hcur).
    intros t [_ Hidx] [r Hr]. simpl.
    rewrite closeTrade_exitReason, closeTrade_exitIndex, closeTrade_entryIndex.
    intros E. apply (exitReasonToString_inj _ EXIT_SIGNAL) in E.
    rewrite CppFacts.to_int_small by (unfold Cpp.INT_MAX in Hi; lia).
    apply first_match_exit_signal with (price := price) (exitSignal := exitSignal).
    fold first. rewrite Hr in E |- *. simpl in E. by subst r.
  - apply Forall_forall. intros t Ht Hrule.
    assert (∃ r, first t = Some r ∧ r ≠ EXIT_SIGNAL) as (r & Hr & Hne).
    { unfold first. rewrite first_match_cases.
      destruct (take_profit_rule this price t); [by eexists|].
      destruct (stop_loss_rule this price t); [by eexists|].
      destruct (max_holding_rule this i t); [by eexists|].
      discriminate. }
    split.
    + unfold exiting. apply list_elem_of_filter. split; [|done]. rewrite Hr. eauto.
    + rewrite Hr. by intros [= ->].
Qed.

Lemma exit_conditions_witness :
  let this := Scenario.tp_object in
  let t := Scenario.tp_position in
  holding_period 1 t < minHolding this
  ∧ processExitSignals this [t] [] (data this) 1 120%float (-1) 0%float =
    Ok (true, [], [closeTrade this t 120%float 11 1 "Take Profit"], 12000%float).
Proof.
  split; [done|].
  refine (proj1 (exit_conditions_in_fixed_order Scenario.tp_object
            (data Scenario.tp_object) 1 120%float (-1) [Scenario.tp_position] []
            0%float 11 _ _ _)).
  - unfold Cpp.INT_MAX. lia.
  - repeat constructor; simpl; lia.
  - reflexivity.
Defined.

(** ** No guard on the capital in the exit processor *)

Section NoGuardFacts.

Variable this : Backtest.
Variables (seriesData_ : TimeSeriesData) (i : Z) (price : float) (exitSignal : Z).

Lemma checkExit_reason t :
  match checkExit this i price exitSignal t with
  | (true, reason) => reason ∈ ordinary_reasons
  | (false, reason) => reason = NONE
  end.
Proof.
  unfold checkExit, ordinary_reasons.
  repeat match goal with
         | |- context [if ?b then _ else _] => destruct b
         end; try done; repeat constructor.
Qed.

(** Every successful run of the loop appends closed copies of positions
    it was given, each tagged by the cascade, and adds their exit values
    to the capital in the order of closing. *)
Lemma exitLoop_Ok_inv cur trades_ capital hasExited kept trades' capital' hasExited' :
  exitLoop this seriesData_ i price exitSignal cur trades_ capital hasExited =
    Ok (kept, trades', capital', hasExited') →
  ∃ closed,
    trades' = trades_ ++ closed
    ∧ capital' = addExitValues capital closed
    ∧ hasExited' = hasExited || bool_decide (closed ≠ [])
    ∧ (length kept + length closed = length cur)%nat
    ∧ Forall (λ t, t ∈ cur) kept
    ∧ Forall (λ c, ∃ t exitTime_ reason,
                t ∈ cur
                ∧ checkExit this i price exitSignal t = (true, reason)
                ∧ c = closeTrade this t price exitTime_ i (getExitReasonString reason))
        closed.
Proof.
  revert trades_ capital hasExited kept trades' capital' hasExited'.
  induction cur as [|t rest IH]; intros trades_ capital hasExited kept trades'
    capital' hasExited'; simpl.
  - intros [= <- <- <- <-]. exists []. rewrite app_nil_r, orb_false_r. done.
  - destruct (checkExit this i price exitSignal t) as [shouldExit reason] eqn:E.
    destruct shouldExit.
    + intros H. apply bind_Ok in H as (d & Hd & H).
      apply IH in H as (closed & -> & -> & -> & Hlen & Hkept & Hall).
      exists (closeTrade this t price d i (getExitReasonString reason) :: closed).
      rewrite <- app_assoc. simpl. rewrite orb_true_r.
      repeat split; [lia | |].
      { eapply Forall_impl; [exact Hkept|]. intros t' ?.
        by apply list_elem_of_further. }
      constructor.
      * exists t, d, reason. split; [apply list_elem_of_here | done].
      * eapply Forall_impl; [exact Hall|]. intros c (t' & d' & r' & ? & ? & ?).
        exists t', d', r'. split; [by apply list_elem_of_further | done].
    + intros H. apply bind_Ok in H as ([[[k tr] c] h] & H1 & H2).
      simpl in H2. injection H2 as <- <- <- <-.
      apply IH in H1 as (closed & -> & -> & -> & Hlen & Hkept & Hall).
      exists closed. repeat split; [simpl; lia | |].
      { constructor; [apply list_elem_of_here|].
        eapply Forall_impl; [exact Hkept|]. intros t' ?.
        by apply list_elem_of_further. }
      eapply Forall_impl; [exact Hall|]. intros c (t' & d' & r' & ? & ? & ?).
      exists t', d', r'. split; [by apply list_elem_of_further | done].
Qed.

(** When a position exits and the date of the bar cannot be read, the
    pass has no result: the read is outside [dates]. *)
Lemma exitLoop_unreadable e cur trades_ capital hasExited :
  vec_get (dates seriesData_) i = Err e →
  filter (λ t, exits_now this i price exitSignal t = true) cur ≠ [] →
  exitLoop this seriesData_ i price exitSignal cur trades_ capital hasExited = Err e.
Proof.
  intros Hd. revert trades_ capital hasExited.
  induction cur as [|t rest IH]; intros trades_ capital hasExited Hexits; [done|].
  rewrite filter_cons in Hexits. unfold exits_now in Hexits. simpl.
  destruct (checkExit this i price exitSignal t) as [shouldExit reason].
  simpl in Hexits. destruct shouldExit.
  - by rewrite Hd.
  - rewrite decide_False in Hexits by done. by rewrite IH.
Qed.

Lemma no_exit_Forall cur :
  filter (λ t, exits_now this i price exitSignal t = true) cur = [] →
  Forall (λ t, exits_now this i price exitSignal t = false) cur.
Proof.
  induction cur as [|t rest IH]; intros H; [constructor|].
  rewrite filter_cons in H.
  destruct (exits_now this i price exitSignal t) eqn:E.
  - by rewrite decide_True in H.
  - rewrite decide_False in H by done. constructor; [done | by apply IH].
Qed.

End NoGuardFacts.

(** C2 (as the code has it).  The exit processor has no guard on the sign
    of the capital.  Whatever the capital is, and whatever it becomes, a
    pass closes exactly the positions that the cascade of exit conditions
    sends out, in their order, and keeps the others: each one is closed
    at the price of the bar, with the reason the cascade gave, which is
    one of the four ordinary reasons and never the forced-exit tag; its
    closed copy goes to the ledger; and the capital handed back is the
    capital given plus the exit values of the closed copies, added in
    order, not clamped at zero.  (When nothing exits the pass changes
    nothing; when something exits the date of the bar is read first.) *)
Theorem exit_never_forced this currentTrades_ trades_ seriesData_ i price exitSignal
    capital :
  let exiting :=
    filter (λ t, exits_now this i price exitSignal t = true) currentTrades_ in
  let staying :=
    filter (λ t, exits_now this i price exitSignal t = false) currentTrades_ in
  processExitSignals this currentTrades_ trades_ seriesData_ i price exitSignal capital
  = (if bool_decide (exiting = []) then Ok (false, currentTrades_, trades_, capital)
     else
       exitTime_ ← vec_get (dates seriesData_) i;
       let closed := closedCopy this i price exitSignal exitTime_ <$> exiting in
       Ok (true, staying, trades_ ++ closed, addExitValues capital closed))
  ∧ ∀ exitTime_ t,
      t ∈ exiting →
      ∃ reason,
        reason ∈ ordinary_reasons
        ∧ closedCopy this i price exitSignal exitTime_ t
          = closeTrade this t price exitTime_ i (exitReasonToString reason)
        ∧ exitReason (closedCopy this i price exitSignal exitTime_ t)
          ≠ exitReasonToString FORCE_EXIT.
Proof.
  intros exiting staying. split.
  - unfold processExitSignals. case_bool_decide as Hnone.
    + rewrite exitLoop_no_exit by (by apply no_exit_Forall). done.
    + destruct (vec_get (dates seriesData_) i) as [exitTime_|e] eqn:Hd.
      * rewrite (exitLoop_partition _ _ _ _ _ exitTime_) by done. simpl.
        unfold closedCopies. fold exiting. fold staying.
        rewrite bool_decide_true; [done|].
        intros Hnil. apply fmap_nil_inv in Hnil. done.
      * by rewrite (exitLoop_unreadable _ _ _ _ _ e).
  - intros exitTime_ t Hin. apply list_elem_of_filter in Hin as [Hexits _].
    unfold exits_now in Hexits. unfold closedCopy.
    pose proof (checkExit_reason this i price exitSignal t) as Hreason.
    destruct (checkExit this i price exitSignal t) as [shouldExit reason].
    simpl in Hexits. subst shouldExit. simpl.
    exists reason. split; [done|]. split; [done|].
    rewrite closeTrade_exitReason. unfold getExitReasonString.
    change "Force Exit due to Negative Capital" with (exitReasonToString FORCE_EXIT).
    intros E%exitReasonToString_inj. subst reason.
    unfold ordinary_reasons in Hreason.
    repeat (apply elem_of_cons in Hreason as [Hreason|Hreason]; [discriminate|]).
    by apply elem_of_nil in Hreason.
Qed.

(** The squeezed short: given the capital [0.0], the pass closes it on
    its exit signal at 250 and hands back the capital [-500.0]. *)
Lemma exit_never_forced_witness :
  let this := Scenario.squeeze_object in
  let t := Scenario.squeeze_position in
  processExitSignals this [t] [] (data this) 1 250%float 1 0%float
  = Ok (true, [], [closeTrade this t 250%float 1 1 "Exit Signal"], (-500)%float)
  ∧ ((-500) <? 0)%float = true.
Proof.
  intros this t.
  destruct (exit_never_forced this [t] [] (data this) 1 250%float 1 0%float)
    as [Hrun _].
  split; [|reflexivity]. rewrite Hrun. reflexivity.
Defined.

(** C2 as stated fails: the short squeezed from 100 to 250 is closed on
    its exit signal, tagged as a signal exit, and leaves the capital at
    -500. *)
Lemma force_exit_counterexample :
  ¬ force_exit_on_negative_capital Scenario.squeeze_object 1 250%float 1
      (data Scenario.squeeze_object) Scenario.squeeze_position 0%float.
Proof.
  intros H.
  destruct (H EXIT_SIGNAL 1 eq_refl eq_refl eq_refl) as (c & Hrun & _).
  vm_compute in Hrun. discriminate Hrun.
Qed.

(** ** The entry processor and the signal priority *)

Section EntryFacts.

Variable this : Backtest.
Variables (seriesData_ : TimeSeriesData) (i : Z) (price : float).

(** An entry that is not reported changes nothing. *)
Lemma processEntrySignals_not_reported cur entrySignal capital cur' capital' :
  processEntrySignals this cur seriesData_ i price entrySignal capital =
    Ok (false, cur', capital') →
  cur' = cur ∧ capital' = capital.
Proof.
  unfold processEntrySignals.
  repeat match goal with
         | |- context [if ?b then _ else _] => destruct b
         end;
    try (intros [= <- <-]; done); try discriminate.
  all: destruct (vec_get (dates seriesData_) i); simpl; discriminate.
Qed.

(** The guard of the entry processor under the preconditions of the
    specification. *)
Lemma entry_guard cur entrySignal :
  maxPositions this ≤ Cpp.INT_MAX →
  (entrySignal = 1 ∨ entrySignal = -1) →
  below_cap this cur →
  (bool_decide (maxPositions this = 0)
   || (Z.of_nat (length cur) <? Cpp.to_size_t (maxPositions this)))
  && (bool_decide (entrySignal = 1) || bool_decide (entrySignal = -1)) = true.
Proof.
  unfold Cpp.INT_MAX. intros Hint Hsig Hcap.
  apply andb_true_iff. split.
  - apply orb_true_iff. destruct Hcap as [H0|Hlt].
    + left. by apply bool_decide_eq_true.
    + right. apply Z.ltb_lt. rewrite CppFacts.to_size_t_small; lia.
  - apply orb_true_iff.
    destruct Hsig; [left | right]; by apply bool_decide_eq_true.
Qed.

Lemma entry_direction_allowed entrySignal :
  (entrySignal = 1 ∨ entrySignal = -1) →
  permitted this entrySignal →
  (if bool_decide (tradeType this = LONG) && bool_decide (entrySignal = 1) then true
   else if bool_decide (tradeType this = SHORT) && negb (bool_decide (entrySignal = 1))
        then true
   else if bool_decide (tradeType this = LONG_SHORT) then true
   else false) = true.
Proof.
  unfold permitted. intros Hsig Hperm.
  destruct (tradeType this); simpl.
  - subst entrySignal. done.
  - subst entrySignal. done.
  - done.
Qed.

End EntryFacts.

Section PriorityFacts.

Variable this : Backtest.
Variables (seriesData_ : TimeSeriesData) (i : Z) (price : float).

(** A second pass right after a first one, with nothing opened in
    between, finds nothing to close. *)
Lemma processExitSignals_again cur trades_ exitSignal capital h kept trades' capital'
    capital2 :
  processExitSignals this cur trades_ seriesData_ i price exitSignal capital =
    Ok (h, kept, trades', capital') →
  processExitSignals this kept trades' seriesData_ i price exitSignal capital2 =
    Ok (false, kept, trades', capital2).
Proof.
  unfold processExitSignals. intros H.
  apply bind_Ok in H as ([[[k tr] c] h0] & H1 & H2).
  simpl in H2. injection H2 as <- <- <- <-.
  apply exitLoop_kept in H1. by rewrite exitLoop_no_exit.
Qed.

Lemma applySignals_same_bar cur trades_ entrySignal exitSignal capital :
  signalPriority this = SAME_BAR_TRADE →
  applySignals this cur trades_ seriesData_ i price entrySignal exitSignal capital =
  exit_entry_exit_on_report this cur trades_ seriesData_ i price entrySignal
    exitSignal capital.
Proof.
  intros Hmode. unfold applySignals, exit_entry_exit_on_report, exit_then_entry.
  rewrite Hmode. simpl.
  destruct (processExitSignals this cur trades_ seriesData_ i price exitSignal capital)
    as [[[[h1 cur1] trades1] cap1]|e]; simpl; [|done].
  destruct (processEntrySignals this cur1 seriesData_ i price entrySignal cap1)
    as [[[h2 cur2] cap2]|e]; simpl; [|done].
  done.
Qed.

End PriorityFacts.

(** C5 (as the code has it).  Under [same_bar_trade] a bar whose exit
    signal is nonzero runs Exit, then Entry, then Exit again, the second
    pass being the full exit processor (all four rules in order, only the
    exit-signal rule gated by the minimum holding period); a bar whose exit
    signal is zero runs Exit and then Entry only, with no second pass. *)
Theorem same_bar_second_pass_needs_exit_signal this cur trades_ seriesData_ i price
    entrySignal exitSignal capital :
  signalPriority this = SAME_BAR_TRADE →
  applySignals this cur trades_ seriesData_ i price entrySignal exitSignal capital =
  if bool_decide (exitSignal = 0)
  then exit_then_entry this cur trades_ seriesData_ i price entrySignal exitSignal capital
  else exit_entry_exit this cur trades_ seriesData_ i price entrySignal exitSignal capital.
Proof.
  intros Hmode. rewrite applySignals_same_bar by done.
  unfold exit_entry_exit_on_report, exit_entry_exit, exit_then_entry.
  destruct (processExitSignals this cur trades_ seriesData_ i price exitSignal capital)
    as [[[[h1 cur1] trades1] cap1]|e] eqn:E1; simpl; [|by case_bool_decide].
  destruct (processEntrySignals this cur1 seriesData_ i price entrySignal cap1)
    as [[[h2 cur2] cap2]|e] eqn:E2; simpl; [|by case_bool_decide].
  destruct (decide (exitSignal = 0)) as [->|Hsig].
  - rewrite bool_decide_true by done. simpl. by rewrite andb_false_r.
  - rewrite bool_decide_false by done.
    replace (exitSignal =? 0) with false by (symmetry; by apply Z.eqb_neq).
    simpl. rewrite andb_true_r. destruct h2; [done|].
    apply processEntrySignals_not_reported in E2 as [-> ->].
    by rewrite (processExitSignals_again _ _ _ _ _ _ _ _ _ _ _ _ cap1 E1).
Qed.

Lemma same_bar_second_pass_witness :
  let this := Scenario.slip_object in
  signalPriority this = SAME_BAR_TRADE
  ∧ applySignals this [] [] (data this) 0 100%float 1 0 1000%float =
    exit_then_entry this [] [] (data this) 0 100%float 1 0 1000%float.
Proof.
  split; [reflexivity|].
  apply (same_bar_second_pass_needs_exit_signal Scenario.slip_object [] []
           (data Scenario.slip_object) 0 100%float 1 0 1000%float).
  reflexivity.
Defined.

(** C5 as stated fails: with 10% slippage and a 5% stop-loss, the position
    opened on a bar without exit signal is already below its stop, and an
    unconditional second pass would close it on that bar; the code keeps it
    open. *)
Lemma same_bar_counterexample :
  let this := Scenario.slip_object in
  signalPriority this = SAME_BAR_TRADE
  ∧ applySignals this [] [] (data this) 0 100%float 1 0 1000%float
    ≠ exit_entry_exit this [] [] (data this) 0 100%float 1 0 1000%float.
Proof.
  split; [reflexivity|].
  vm_compute. discriminate.
Qed.

(** C10.  When the entry signal is +1 or -1, its direction is permitted by
    the trade type and the open set is below the cap, the entry processor
    reports an entry whenever it returns; when the amount to trade is not
    positive it returns that report with the open set and the capital
    untouched.  Under [same_bar_trade] the second exit pass is taken
    exactly on that report together with a nonzero exit signal, so it is
    taken in this case too. *)
Theorem entry_reported_without_position this cur0 trades_ seriesData_ i price
    entrySignal exitSignal capital0 cur capital :
  maxPositions this ≤ Cpp.INT_MAX →
  (entrySignal = 1 ∨ entrySignal = -1) →
  permitted this entrySignal →
  below_cap this cur →
  (∀ reported cur' capital',
     processEntrySignals this cur seriesData_ i price entrySignal capital =
       Ok (reported, cur', capital') →
     reported = true)
  ∧ ((0 <? capital * eachTrade this)%float = false →
     processEntrySignals this cur seriesData_ i price entrySignal capital =
       Ok (true, cur, capital))
  ∧ (signalPriority this = SAME_BAR_TRADE →
     applySignals this cur0 trades_ seriesData_ i price entrySignal exitSignal capital0 =
     exit_entry_exit_on_report this cur0 trades_ seriesData_ i price entrySignal
       exitSignal capital0)
  ∧ (signalPriority this = SAME_BAR_TRADE →
     (0 <? capital * eachTrade this)%float = false →
     ∀ hasExited trades1,
       processExitSignals this cur0 trades_ seriesData_ i price exitSignal capital0 =
         Ok (hasExited, cur, trades1, capital) →
       applySignals this cur0 trades_ seriesData_ i price entrySignal exitSignal capital0 =
       if bool_decide (exitSignal = 0) then Ok (true, cur, trades1, capital)
       else
         '(_, cur3, trades3, cap3) ←
           processExitSignals this cur trades1 seriesData_ i price exitSignal capital;
         Ok (true, cur3, trades3, cap3)).
Proof.
  intros Hint Hsig Hperm Hcap.
  pose proof (entry_guard this cur entrySignal Hint Hsig Hcap) as Hguard.
  pose proof (entry_direction_allowed this entrySignal Hsig Hperm) as Hdir.
  assert ((0 <? capital * eachTrade this)%float = false →
          processEntrySignals this cur seriesData_ i price entrySignal capital =
            Ok (true, cur, capital)) as Hnone.
  { intros Hamount. unfold processEntrySignals.
    rewrite Hguard, Hdir, Hamount. done. }
  split; [|split; [done|split]].
  - intros reported cur' capital'. unfold processEntrySignals.
    rewrite Hguard, Hdir.
    destruct (0 <? capital * eachTrade this)%float.
    + destruct (vec_get (dates seriesData_) i); simpl; [|discriminate].
      by intros [= <- _ _].
    + by intros [= <- _ _].
  - intros Hmode. by apply applySignals_same_bar.
  - intros Hmode Hamount hasExited trades1 Hexit.
    rewrite applySignals_same_bar by done.
    unfold exit_entry_exit_on_report, exit_then_entry.
    rewrite Hexit. simpl. rewrite (Hnone Hamount). simpl.
    destruct (decide (exitSignal = 0)) as [->|Hz].
    + by rewrite bool_decide_true.
    + rewrite bool_decide_false by done.
      replace (exitSignal =? 0) with false by (symmetry; by apply Z.eqb_neq). done.
Qed.

Lemma entry_reported_witness :
  let this := Scenario.broke_object in
  processEntrySignals this [] (data this) 0 100%float 1 0%float = Ok (true, [], 0%float)
  ∧ applySignals this [] [] (data this) 0 100%float 1 (-1) 0%float =
    ('(_, cur3, trades3, cap3) ←
       processExitSignals this [] [] (data this) 0 100%float (-1) 0%float;
     Ok (true, cur3, trades3, cap3)).
Proof.
  pose proof (entry_reported_without_position Scenario.broke_object [] []
                (data Scenario.broke_object) 0 100%float 1 (-1) 0%float [] 0%float)
    as H.
  destruct H as (_ & Hnone & _ & Hsecond).
  - vm_compute. discriminate.
  - by left.
  - reflexivity.
  - right. simpl. lia.
  - split.
    + apply Hnone. reflexivity.
    + apply (Hsecond eq_refl eq_refl false []). reflexivity.
Defined.

(** ** Construction *)

Lemma map_keys_in_order_elem {V : Type} (m : gmap string V) (k : string) :
  k ∈ map_keys_in_order m ↔ is_Some (m !! k).
Proof.
  unfold map_keys_in_order. rewrite merge_sort_Permutation.
  rewrite list_elem_of_fmap. split.
  - intros [[k' v] [-> Hin]]. apply elem_of_map_to_list in Hin. eauto.
  - intros [v Hv]. exists (k, v). split; [done|]. by apply elem_of_map_to_list.
Qed.

Section CheckParams.

Variables (prices_ : list float) (dates_ : list DateTime).
Variables (entriesMap_ exitsMap_ : gmap string (list Z)).

#[local] Abbreviation ok := (pair_matches prices_ dates_ entriesMap_ exitsMap_).
#[local] Abbreviation check := (check_params prices_ dates_ entriesMap_ exitsMap_).

Lemma check_params_all keys acc :
  Forall ok keys → check keys acc = Ok (acc ++ keys).
Proof.
  intros H. revert acc. induction H as [|k keys Hk _ IH]; intros acc; simpl.
  - by rewrite app_nil_r.
  - unfold pair_matches in Hk.
    destruct (entriesMap_ !! k), (exitsMap_ !! k); try done.
    rewrite decide_False by done. rewrite IH, <- app_assoc. done.
Qed.

Lemma check_params_some keys acc :
  Exists (λ k, ¬ ok k) keys → fails_with_invalid_input (check keys acc).
Proof.
  intros H. revert acc. induction keys as [|k keys IH]; intros acc; simpl.
  - by apply Exists_nil in H.
  - destruct (decide (ok k)) as [Hk|Hk].
    + apply Exists_cons in H as [H|H]; [done|].
      unfold pair_matches in Hk.
      destruct (entriesMap_ !! k), (exitsMap_ !! k); try done.
      rewrite decide_False by done. by apply IH.
    + unfold pair_matches in Hk.
      destruct (entriesMap_ !! k), (exitsMap_ !! k); try by eexists.
      rewrite decide_True; [by eexists|]. by apply dec_stable.
Qed.

End CheckParams.

Lemma Backtest_multi_Ok prices_ entriesMap_ exitsMap_ dates_ a this :
  Backtest_multi prices_ entriesMap_ exitsMap_ dates_ a = Ok this →
  this = init_members a true prices_ [] [] dates_ entriesMap_ exitsMap_
           (map_keys_in_order entriesMap_)
  ∧ ∀ param, is_Some (entriesMap_ !! param) →
             pair_matches prices_ dates_ entriesMap_ exitsMap_ param.
Proof.
  unfold Backtest_multi. intros H.
  destruct (decide (Forall (pair_matches prices_ dates_ entriesMap_ exitsMap_)
                      (map_keys_in_order entriesMap_))) as [Hall|Hnot].
  - rewrite check_params_all in H by done. simpl in H. injection H as <-.
    split; [done|]. intros param Hin.
    rewrite Forall_forall in Hall. by apply Hall, map_keys_in_order_elem.
  - apply not_Forall_Exists in Hnot; [|apply _].
    destruct (check_params_some prices_ dates_ entriesMap_ exitsMap_ _ [] Hnot)
      as [what Hfail].
    rewrite Hfail in H. discriminate H.
Qed.

Lemma parseTradeType_cases s :
  parseTradeType s =
  if decide (transform_tolower s = "short") then SHORT
  else if decide (transform_tolower s = "long_short") then LONG_SHORT
  else LONG.
Proof. unfold parseTradeType. repeat case_decide; congruence. Qed.

(** C3 (as the code has it).  Construction fails, with
    [std::invalid_argument] and without producing an object, exactly when
    the lengths disagree (single-strategy constructor) or when some named
    entry series has no exit series of its name or the lengths of the
    pair, the prices and the dates disagree (multi-strategy constructor).
    A negative capital is stored as given, and a string that names no
    trade type, priority or time frame selects [long], [exit_first] and
    365 periods per year. *)
Theorem construction_fails_on_shape_only prices_ dates_ (a : Args) :
  (∀ entries_ exits_,
     (fails_with_invalid_input (Backtest_single prices_ entries_ exits_ dates_ a)
      ↔ unequal_lengths prices_ entries_ exits_ dates_)
     ∧ (¬ unequal_lengths prices_ entries_ exits_ dates_ →
        Backtest_single prices_ entries_ exits_ dates_ a =
        Ok (init_members a false prices_ entries_ exits_ dates_ ∅ ∅ [])))
  ∧ (∀ entriesMap_ exitsMap_,
       (fails_with_invalid_input (Backtest_multi prices_ entriesMap_ exitsMap_ dates_ a)
        ↔ ∃ param, is_Some (entriesMap_ !! param)
                   ∧ ¬ pair_matches prices_ dates_ entriesMap_ exitsMap_ param)
       ∧ ((∀ param, is_Some (entriesMap_ !! param) →
                    pair_matches prices_ dates_ entriesMap_ exitsMap_ param) →
          Backtest_multi prices_ entriesMap_ exitsMap_ dates_ a =
          Ok (init_members a true prices_ [] [] dates_ entriesMap_ exitsMap_
                (map_keys_in_order entriesMap_))))
  ∧ (∀ multi entries_ exits_ entriesMap_ exitsMap_ params_,
       let b := init_members a multi prices_ entries_ exits_ dates_
                  entriesMap_ exitsMap_ params_ in
       startFund b = initialCapital a
       ∧ (transform_tolower (tradeTypeName a) ∉ known_trade_types → tradeType b = LONG)
       ∧ (signalPriorityMode a ∉ known_signal_priorities → signalPriority b = EXIT_FIRST)
       ∧ (timeframe a ∉ known_timeframes → getPeriodsPerYear b = 365)).
Proof.
  split; [|split].
  - intros entries_ exits_. unfold Backtest_single, unequal_lengths.
    case_decide as H; split.
    + split; [done | by eexists].
    + done.
    + split; [by intros [? ?] | done].
    + done.
  - intros entriesMap_ exitsMap_. unfold Backtest_multi.
    set (keys := map_keys_in_order entriesMap_).
    destruct (decide (Forall (pair_matches prices_ dates_ entriesMap_ exitsMap_) keys))
      as [Hall|Hnot].
    + rewrite check_params_all by done. simpl. split.
      * split; [by intros [? ?]|].
        intros (param & Hin & Hbad). exfalso. apply Hbad.
        rewrite Forall_forall in Hall. apply Hall.
        by apply map_keys_in_order_elem.
      * done.
    + apply not_Forall_Exists in Hnot; [|apply _].
      pose proof (check_params_some prices_ dates_ entriesMap_ exitsMap_ keys [] Hnot)
        as [what Hfail].
      rewrite Hfail. simpl. split.
      * split; [|by eexists]. intros _.
        apply Exists_exists in Hnot as (param & Hin & Hbad).
        exists param. split; [by apply map_keys_in_order_elem | done].
      * intros Hall. exfalso.
        apply Exists_exists in Hnot as (param & Hin & Hbad).
        apply Hbad, Hall. by apply map_keys_in_order_elem.
  - intros multi entries_ exits_ entriesMap_ exitsMap_ params_ b.
    split; [done|]. split; [|split].
    + intros Hun. unfold b. simpl. rewrite parseTradeType_cases.
      unfold known_trade_types in Hun.
      rewrite !not_elem_of_cons in Hun. destruct Hun as (_ & H2 & H3 & _).
      by rewrite !decide_False.
    + intros Hun. unfold b. simpl. unfold parseSignalPriorityMode.
      unfold known_signal_priorities in Hun.
      rewrite !not_elem_of_cons in Hun. destruct Hun as (_ & H2 & H3 & _).
      by rewrite !decide_False.
    + intros Hun. unfold b, getPeriodsPerYear. simpl.
      unfold known_timeframes in Hun.
      rewrite !not_elem_of_cons in Hun.
      destruct Hun as (H1 & H2 & H3 & H4 & H5 & H6 & H7 & _).
      unfold intervalMappings, find_interval.
      by rewrite !decide_False.
Qed.

(** C3 as stated fails: a negative capital and unknown strings for the
    trade type, the priority and the time frame are all accepted. *)
Lemma construction_counterexample :
  ¬ (fails_with_invalid_input (Backtest_single [] [] [] [] Scenario.odd_args)
     ↔ invalid_input_as_specified [] [] [] [] Scenario.odd_args).
Proof.
  intros [_ H].
  destruct H as [what Hfail]; [|discriminate Hfail].
  right. left. reflexivity.
Qed.

(** ** One bar of the simulation *)

Section ProcessorFacts.

Variable this : Backtest.
Variables (seriesData_ : TimeSeriesData) (i : Z) (price : float).

Lemma processExitSignals_total cur trades_ exitSignal capital :
  is_Ok (vec_get (dates seriesData_) i) →
  is_Ok (processExitSignals this cur trades_ seriesData_ i price exitSignal capital).
Proof.
  destruct (vec_get (dates seriesData_) i) as [d|] eqn:Hd; [intros _|done].
  unfold processExitSignals. by rewrite (exitLoop_partition _ _ _ _ _ d).
Qed.

Lemma processEntrySignals_total cur entrySignal capital :
  is_Ok (vec_get (dates seriesData_) i) →
  is_Ok (processEntrySignals this cur seriesData_ i price entrySignal capital).
Proof.
  destruct (vec_get (dates seriesData_) i) as [d|] eqn:Hd; [intros _|done].
  unfold processEntrySignals. rewrite Hd.
  repeat match goal with
         | |- context [if ?b then _ else _] => destruct b
         end; done.
Qed.

Lemma applySignals_total cur trades_ entrySignal exitSignal capital :
  is_Ok (vec_get (dates seriesData_) i) →
  is_Ok (applySignals this cur trades_ seriesData_ i price entrySignal exitSignal capital).
Proof.
  intros Hd. unfold applySignals.
  destruct (bool_decide (signalPriority this = EXIT_FIRST)
            || bool_decide (signalPriority this = SAME_BAR_TRADE)).
  - pose proof (processExitSignals_total cur trades_ exitSignal capital Hd) as H1.
    destruct (processExitSignals this cur trades_ seriesData_ i price exitSignal capital)
      as [[[[h1 cur1] trades1] cap1]|]; [simpl|done].
    pose proof (processEntrySignals_total cur1 entrySignal cap1 Hd) as H2.
    destruct (processEntrySignals this cur1 seriesData_ i price entrySignal cap1)
      as [[[h2 cur2] cap2]|]; [simpl|done].
    destruct (bool_decide (signalPriority this = SAME_BAR_TRADE) && h2
              && negb (exitSignal =? 0)); [|done].
    pose proof (processExitSignals_total cur2 trades1 exitSignal cap2 Hd) as H3.
    by destruct (processExitSignals this cur2 trades1 seriesData_ i price exitSignal cap2)
      as [[[[h3 cur3] trades3] cap3]|].
  - pose proof (processEntrySignals_total cur entrySignal capital Hd) as H1.
    destruct (processEntrySignals this cur seriesData_ i price entrySignal capital)
      as [[[h1 cur1] cap1]|]; [simpl|done].
    pose proof (processExitSignals_total cur1 trades_ exitSignal cap1 Hd) as H2.
    by destruct (processExitSignals this cur1 trades_ seriesData_ i price exitSignal cap1)
      as [[[[h2 cur2] trades2] cap2]|].
Qed.

End ProcessorFacts.

Lemma is_Ok_exists {A : Type} (m : Res A) : is_Ok m → ∃ a, m = Ok a.
Proof. destruct m; [eauto | done]. Qed.

Lemma recordDailyReturn_Ok totalCapital_ dailyReturn_ i :
  0 ≤ i < Z.of_nat (length totalCapital_) →
  length dailyReturn_ = length totalCapital_ →
  ∃ dailyReturn', recordDailyReturn totalCapital_ dailyReturn_ i = Ok dailyReturn'
                  ∧ length dailyReturn' = length dailyReturn_.
Proof.
  intros Hi Hlen. unfold recordDailyReturn.
  destruct (0 <? i) eqn:Hpos; [|by eexists].
  apply Z.ltb_lt in Hpos.
  destruct (vec_get_in_range totalCapital_ (i - 1)) as [prev ->]; [lia|]. simpl.
  destruct (0 <? prev)%float; [|by eexists].
  destruct (vec_get_in_range totalCapital_ i) as [cur ->]; [lia|]. simpl.
  rewrite vec_set_in_range by lia. eexists. split; [done|]. by rewrite length_insert.
Qed.

Section BarStepFacts.

Variable this : Backtest.
Variables (entries_ exits_ : list Z).

(** What a bar writes to the series. *)
Lemma barStep_Ok_inv i s s' :
  barStep this entries_ exits_ i s = Ok s' →
  let d := seriesData s in
  let d' := seriesData s' in
  0 ≤ i < Z.of_nat (length (availableCapital d))
  ∧ 0 ≤ i < Z.of_nat (length (positionValue d))
  ∧ 0 ≤ i < Z.of_nat (length (totalCapital d))
  ∧ dates d' = dates d ∧ prices d' = prices d
  ∧ availableCapital d' = <[Z.to_nat i := currentCapital s']> (availableCapital d)
  ∧ positionValue d' =
      <[Z.to_nat i := sumCurrentValue (currentTrades s')]> (positionValue d)
  ∧ totalCapital d' =
      <[Z.to_nat i := (currentCapital s' + sumCurrentValue (currentTrades s'))%float]>
        (totalCapital d)
  ∧ length (dailyReturn d') = length (dailyReturn d)
  ∧ cumulativeReturn d' = cumulativeReturn d.
Proof.
  unfold barStep. intros H.
  apply bind_Ok in H as (price & _ & H).
  apply bind_Ok in H as (entrySignal & _ & H).
  apply bind_Ok in H as (exitSignal & _ & H).
  simpl in H.
  apply bind_Ok in H as ([[[h cur] tr] cap] & _ & H). simpl in H.
  apply bind_Ok in H as (av & Hav & H). apply vec_set_Ok in Hav as [Hi1 ->].
  apply bind_Ok in H as (pv & Hpv & H). apply vec_set_Ok in Hpv as [Hi2 ->].
  apply bind_Ok in H as (tc & Htc & H). apply vec_set_Ok in Htc as [Hi3 ->].
  apply bind_Ok in H as (dr & Hdr & H).
  injection H as <-. simpl.
  repeat split; try done; try lia.
  revert Hdr. unfold recordDailyReturn.
  destruct (0 <? i); [|by intros [= <-]].
  intros Hdr. apply bind_Ok in Hdr as (prev & _ & Hdr).
  destruct (0 <? prev)%float; [|by injection Hdr as <-].
  apply bind_Ok in Hdr as (total & _ & Hdr).
  apply vec_set_Ok in Hdr as [_ ->]. by rewrite length_insert.
Qed.

Lemma barStep_total i s :
  well_sized (seriesData s) entries_ exits_ →
  0 ≤ i < Z.of_nat (length (prices (seriesData s))) →
  is_Ok (barStep this entries_ exits_ i s).
Proof.
  intros (Hd & He & Hx & Hav & Hpv & Htc & Hdr & Hcr) Hi. unfold barStep.
  destruct (vec_get_in_range (prices (seriesData s)) i) as [price ->]; [lia|].
  destruct (vec_get_in_range entries_ i) as [entrySignal ->]; [lia|].
  destruct (vec_get_in_range exits_ i) as [exitSignal ->]; [lia|].
  simpl.
  destruct (is_Ok_exists _
              (applySignals_total this (seriesData s) i price
                 (revalue price <$> currentTrades s) (trades s)
                 entrySignal exitSignal (currentCapital s)
                 ltac:(destruct (vec_get_in_range (dates (seriesData s)) i) as [? ->];
                       [lia | done])))
    as [[[[h cur] tr] cap] ->].
  simpl. rewrite !vec_set_in_range by lia. simpl.
  destruct (recordDailyReturn_Ok
              (<[Z.to_nat i := (cap + sumCurrentValue cur)%float]>
                 (totalCapital (seriesData s)))
              (dailyReturn (seriesData s)) i) as (dr & -> & _).
  - rewrite length_insert. lia.
  - rewrite length_insert. lia.
  - done.
Qed.

Lemma barStep_same_shape d0 i s s' :
  barStep this entries_ exits_ i s = Ok s' →
  same_shape d0 (seriesData s) → same_shape d0 (seriesData s').
Proof.
  intros H (H1 & H2 & H3 & H4 & H5 & H6 & H7).
  apply barStep_Ok_inv in H as (_ & _ & _ & E1 & E2 & E3 & E4 & E5 & E6 & E7).
  unfold same_shape.
  rewrite E1, E2, E3, E4, E5, E6, E7, !length_insert. done.
Qed.

Lemma barStep_identity i s s' (k : nat) :
  barStep this entries_ exits_ i s = Ok s' →
  i = Z.of_nat k →
  (∀ j, (j < k)%nat → equity_identity_at (seriesData s) j) →
  ∀ j, (j < S k)%nat → equity_identity_at (seriesData s') j.
Proof.
  intros H -> Hprev j Hj.
  apply barStep_Ok_inv in H
    as (Hi1 & Hi2 & Hi3 & _ & _ & E3 & E4 & E5 & _ & _).
  unfold equity_identity_at. rewrite E3, E4, E5, Nat2Z.id.
  destruct (decide (j = k)) as [->|Hne].
  - exists (currentCapital s'), (sumCurrentValue (currentTrades s')).
    rewrite !list_lookup_insert_eq by lia. done.
  - rewrite !list_lookup_insert_ne by done. apply Hprev. lia.
Qed.

End BarStepFacts.

(** ** The bar loop and the end of the run *)

Lemma well_sized_same_shape d0 d entries_ exits_ :
  well_sized d0 entries_ exits_ → same_shape d0 d → well_sized d entries_ exits_.
Proof.
  intros (Hd & He & Hx & Hav & Hpv & Htc & Hdr & Hcr) (H1 & H2 & H3 & H4 & H5 & H6 & H7).
  unfold well_sized. rewrite H1, H2, H3, H4, H5, H6, H7. done.
Qed.

Lemma same_shape_refl d : same_shape d d.
Proof. by unfold same_shape. Qed.

Section LoopFacts.

Variable this : Backtest.
Variables (entries_ exits_ : list Z).

Lemma barLoop_invariant (P : Sim → Prop) n i s s' :
  (∀ i s s', P s → barStep this entries_ exits_ i s = Ok s' → P s') →
  P s → barLoop this entries_ exits_ n i s = Ok s' → P s'.
Proof.
  intros Hstep. revert i s. induction n as [|n IH]; intros i s Hs; simpl.
  - by intros [= <-].
  - intros H. apply bind_Ok in H as (s1 & H1 & H2). eauto.
Qed.

(** From a well-sized start the loop runs through every bar, keeps the
    shape and leaves the equity identity at every bar it has written. *)
Lemma barLoop_runs d0 n (k : nat) s :
  well_sized d0 entries_ exits_ →
  same_shape d0 (seriesData s) →
  (k + n)%nat = length (prices d0) →
  (∀ j, (j < k)%nat → equity_identity_at (seriesData s) j) →
  ∃ s', barLoop this entries_ exits_ n (Z.of_nat k) s = Ok s'
        ∧ same_shape d0 (seriesData s')
        ∧ ∀ j, (j < k + n)%nat → equity_identity_at (seriesData s') j.
Proof.
  intros Hwf. revert k s. induction n as [|n IH]; intros k s Hshape Hlen Hid; simpl.
  - exists s. rewrite Nat.add_0_r. done.
  - destruct (is_Ok_exists _ (barStep_total this entries_ exits_ (Z.of_nat k) s
                (well_sized_same_shape _ _ _ _ Hwf Hshape)
                ltac:(destruct Hshape as (_ & -> & _); lia))) as [s1 Hs1].
    rewrite Hs1. simpl.
    replace (Z.of_nat k + 1) with (Z.of_nat (S k)) by lia.
    destruct (IH (S k) s1) as (s' & Hrun & Hshape' & Hid').
    + by eapply barStep_same_shape.
    + lia.
    + by eapply barStep_identity.
    + exists s'. split; [done|]. split; [done|].
      intros j Hj. apply Hid'. lia.
Qed.

Lemma flushLoop_Ok seriesData_ lastIndex lastPrice cur trades_ capital exitTime_ :
  vec_get (dates seriesData_) lastIndex = Ok exitTime_ →
  ∃ capital',
    flushLoop this seriesData_ lastIndex lastPrice cur trades_ capital =
    Ok ((λ t, closeTrade this t lastPrice exitTime_ lastIndex "End of Backtest") <$> cur,
        trades_ ++
        ((λ t, closeTrade this t lastPrice exitTime_ lastIndex "End of Backtest") <$> cur),
        capital').
Proof.
  intros Hd. revert trades_ capital.
  induction cur as [|t rest IH]; intros trades_ capital; simpl.
  - exists capital. by rewrite app_nil_r.
  - rewrite Hd. simpl.
    destruct (IH (trades_ ++ [closeTrade this t lastPrice exitTime_ lastIndex
                                "End of Backtest"])
                 (capital + exitValue (closeTrade this t lastPrice exitTime_ lastIndex
                                         "End of Backtest"))%float)
      as (capital' & ->).
    simpl. exists capital'. by rewrite <- app_assoc.
Qed.

(** The overwrite of the last bar keeps the equity identity. *)
Lemma finalizeSeries_Ok s lastIndex (n : nat) :
  0 ≤ lastIndex < Z.of_nat n →
  length (availableCapital (seriesData s)) = n →
  length (positionValue (seriesData s)) = n →
  length (totalCapital (seriesData s)) = n →
  (∀ j, (j < n)%nat → equity_identity_at (seriesData s) j) →
  ∃ sd, finalizeSeries this s lastIndex = Ok sd
        ∧ dailyReturn sd = dailyReturn (seriesData s)
        ∧ cumulativeReturn sd = cumulativeReturn (seriesData s)
        ∧ (length (availableCapital sd) = n
           ∧ length (positionValue sd) = n
           ∧ length (totalCapital sd) = n)
        ∧ ∀ j, (j < n)%nat → equity_identity_at sd j.
Proof.
  intros Hi Hav Hpv Htc Hid. unfold finalizeSeries.
  destruct (bool_decide (currentTrades s ≠ [])); [|by eexists].
  rewrite !vec_set_in_range by lia. simpl.
  eexists. split; [done|]. simpl. split; [done|]. split; [done|].
  split; [by rewrite !length_insert|].
  intros j Hj. unfold equity_identity_at. simpl.
  destruct (decide (j = Z.to_nat lastIndex)) as [->|Hne].
  - rewrite !list_lookup_insert_eq by lia. eauto.
  - rewrite !list_lookup_insert_ne by done. by apply Hid.
Qed.

End LoopFacts.

Lemma cumulativeLoop_Ok n (k : nat) c dailyReturn_ out :
  (k + n)%nat = length dailyReturn_ →
  length out = length dailyReturn_ →
  is_Ok (cumulativeLoop n (Z.of_nat k) c dailyReturn_ out).
Proof.
  revert k c out. induction n as [|n IH]; intros k c out Hlen Hout; simpl; [done|].
  destruct (vec_get_in_range dailyReturn_ (Z.of_nat k)) as [r ->]; [lia|]. simpl.
  rewrite vec_set_in_range by lia. simpl.
  replace (Z.of_nat k + 1) with (Z.of_nat (S k)) by lia.
  apply IH; [lia | by rewrite length_insert].
Qed.

(** A run on a non-empty, well-sized series completes, and its series
    satisfy the equity identity at every bar. *)
Lemma simulate_runs this entries_ exits_ :
  well_sized (data this) entries_ exits_ →
  prices (data this) ≠ [] →
  Z.of_nat (length (prices (data this))) ≤ 2 ^ 64 →
  ∃ sd trades_,
    simulate this entries_ exits_ = Ok (sd, trades_)
    ∧ (length (availableCapital sd) = length (prices (data this))
       ∧ length (positionValue sd) = length (prices (data this))
       ∧ length (totalCapital sd) = length (prices (data this)))
    ∧ ∀ j, (j < length (prices (data this)))%nat → equity_identity_at sd j.
Proof.
  intros Hwf Hne Hmax. unfold simulate.
  set (n := length (prices (data this))).
  assert (0 < n)%nat as Hn.
  { unfold n. destruct (prices (data this)); [done | simpl; lia]. }
  destruct (barLoop_runs this entries_ exits_ (data this) n 0
              {| currentTrades := []; trades := []; seriesData := data this;
                 currentCapital := startFund this; totalPositionValue := 0%float |}
              Hwf (same_shape_refl _) eq_refl ltac:(intros j Hj; lia))
    as (s & Hrun & Hshape & Hid).
  change (Z.of_nat 0%nat) with 0 in Hrun. rewrite Hrun. simpl.
  rewrite CppFacts.to_size_t_small by (fold n in Hmax; lia).
  pose proof (well_sized_same_shape _ _ _ _ Hwf Hshape)
    as (Hd & He & Hx & Hav & Hpv & Htc & Hdr & Hcr).
  destruct Hshape as (Sd & Sp & _).
  rewrite Sp in Hd, Hav, Hpv, Htc, Hdr, Hcr. fold n in Hd, Hav, Hpv, Htc, Hdr, Hcr.
  destruct (vec_get_in_range (prices (seriesData s)) (Z.of_nat n - 1)) as [lastPrice ->];
    [rewrite Sp; fold n; lia|].
  simpl.
  destruct (vec_get_in_range (dates (seriesData s)) (Z.of_nat n - 1)) as [d Hdate];
    [lia|].
  assert (∃ s1, (if forceCloseAtEnd this then
                   '(cur, trades_, capital) ←
                     flushLoop this (seriesData s) (Z.of_nat n - 1) lastPrice
                       (currentTrades s) (trades s) (currentCapital s);
                   Ok {| currentTrades := cur; trades := trades_;
                         seriesData := seriesData s; currentCapital := capital;
                         totalPositionValue := totalPositionValue s |}
                 else Ok s) = Ok s1
                ∧ seriesData s1 = seriesData s) as (s1 & -> & Hs1).
  { destruct (forceCloseAtEnd this); [|by eexists].
    destruct (flushLoop_Ok this (seriesData s) (Z.of_nat n - 1) lastPrice
                (currentTrades s) (trades s) (currentCapital s) d Hdate)
      as (capital' & ->).
    simpl. by eexists. }
  simpl.
  destruct (finalizeSeries_Ok this s1 (Z.of_nat n - 1) n
              ltac:(lia) ltac:(by rewrite Hs1) ltac:(by rewrite Hs1)
              ltac:(by rewrite Hs1) ltac:(rewrite Hs1; exact Hid))
    as (sd & -> & Edr & Ecr & Hlen & Hfin).
  simpl.
  destruct (is_Ok_exists _ (cumulativeLoop_Ok n 0 1%float (dailyReturn sd)
                              (cumulativeReturn sd)
                              ltac:(rewrite Edr, Hs1; lia)
                              ltac:(rewrite Edr, Ecr, Hs1; lia)))
    as [cum Hcum].
  change (Z.of_nat 0%nat) with 0 in Hcum. rewrite Hcum. simpl.
  eexists _, _. split; [done|]. simpl. split; [done|].
  intros j Hj. destruct (Hfin j Hj) as (f & v & ? & ? & ?).
  exists f, v. done.
Qed.

(** ** Whole runs *)

Lemma Backtest_single_Ok prices_ entries_ exits_ dates_ a this :
  Backtest_single prices_ entries_ exits_ dates_ a = Ok this →
  this = init_members a false prices_ entries_ exits_ dates_ ∅ ∅ []
  ∧ well_sized (data this) entries_ exits_.
Proof.
  unfold Backtest_single. case_decide as H; [discriminate|].
  intros [= <-]. split; [done|].
  unfold well_sized, resize_from_empty. simpl.
  rewrite !length_replicate.
  repeat split; try done; apply dec_stable; intros ?; apply H; auto.
Qed.

(** With no bar, the read of [prices[dataSize - 1]] that follows the loop
    is at index [2^64 - 1]. *)
Lemma simulate_empty this entries_ exits_ :
  prices (data this) = [] → simulate this entries_ exits_ = Err OutOfBounds.
Proof.
  intros H. unfold simulate. rewrite H. simpl. rewrite H.
  by rewrite vec_get_out_of_range.
Qed.

Lemma Backtest_multi_well_sized prices_ entriesMap_ exitsMap_ dates_ a this
    param entries_ exits_ :
  Backtest_multi prices_ entriesMap_ exitsMap_ dates_ a = Ok this →
  entriesMap_ !! param = Some entries_ →
  exitsMap_ !! param = Some exits_ →
  well_sized (data this) entries_ exits_.
Proof.
  intros Hmk He Hx. apply Backtest_multi_Ok in Hmk as [-> Hall].
  specialize (Hall param ltac:(by rewrite He)).
  unfold pair_matches in Hall. rewrite He, Hx in Hall.
  unfold well_sized, resize_from_empty. simpl. rewrite !length_replicate.
  repeat split; try done; apply dec_stable; intros ?; apply Hall; auto.
Qed.

Lemma valid_input_well_sized this entries_ exits_ :
  valid_input this entries_ exits_ → well_sized (data this) entries_ exits_.
Proof.
  intros [(p & d & a & H)|(p & d & a & em & xm & k & H & He & Hx)].
  - by apply Backtest_single_Ok in H as [_ ?].
  - by eapply Backtest_multi_well_sized.
Qed.

(** C9.  For every input a constructor has accepted, a run on a non-empty
    series completes, and the series of every completed run satisfy
    [total_capital[i] = free_capital[i] + position_value[i]] at every bar,
    the last bar being read after the end-of-run overwrite. *)
Theorem equity_identity_every_bar this entries_ exits_ :
  valid_input this entries_ exits_ →
  Z.of_nat (length (prices (data this))) ≤ 2 ^ 64 →
  (prices (data this) ≠ [] → is_Ok (simulate this entries_ exits_))
  ∧ ∀ sd trades_,
      simulate this entries_ exits_ = Ok (sd, trades_) →
      length (availableCapital sd) = length (prices (data this))
      ∧ length (positionValue sd) = length (prices (data this))
      ∧ length (totalCapital sd) = length (prices (data this))
      ∧ ∀ j, (j < length (prices (data this)))%nat → equity_identity_at sd j.
Proof.
  intros Hvalid Hmax. apply valid_input_well_sized in Hvalid as Hwf.
  destruct (decide (prices (data this) = [])) as [Hnil|Hne].
  - split; [done|]. intros sd trades_.
    rewrite simulate_empty by done. discriminate.
  - destruct (simulate_runs this entries_ exits_ Hwf Hne Hmax)
      as (sd & tr & Hrun & Hlen & Hid).
    split.
    + intros _. by rewrite Hrun.
    + intros sd' tr'. rewrite Hrun. intros [= <- <-].
      destruct Hlen as (? & ? & ?). done.
Qed.

Lemma equity_identity_witness :
  let this := Scenario.long_object in
  is_Ok (simulate this [1; 0] [0; -1])
  ∧ ∀ sd trades_,
      simulate this [1; 0] [0; -1] = Ok (sd, trades_) →
      length (totalCapital sd) = 2%nat
      ∧ ∀ j, (j < 2)%nat → equity_identity_at sd j.
Proof.
  destruct (equity_identity_every_bar Scenario.long_object [1; 0] [0; -1])
    as [Hruns Hid].
  - left. by exists [100; 110]%float, [0; 1], Scenario.long_args.
  - vm_compute. discriminate.
  - split; [by apply Hruns; discriminate|].
    intros sd trades_ H. destruct (Hid sd trades_ H) as (_ & _ & ? & ?). done.
Defined.

(** C4 (evaluating the code).  The constructor accepts the empty series,
    but the run then reads [prices[dataSize - 1]] with [dataSize = 0], an
    access outside the empty vector, before it reaches the guard of
    [calculateMetrics] that returns the zero-initialised metrics. *)
Theorem empty_series_reads_out_of_range (pow : float → float → float) (a : Args) :
  ∃ this,
    Backtest_single [] [] [] [] a = Ok this
    ∧ Cpp.to_size_t (Z.of_nat (length (prices (data this))) - 1) = 2 ^ 64 - 1
    ∧ vec_get (prices (data this)) (2 ^ 64 - 1) = Err OutOfBounds
    ∧ simulate this [] [] = Err OutOfBounds
    ∧ run pow this = Err OutOfBounds
    ∧ calculateMetrics pow this (data this) [] 0%float = Ok BacktestMetrics_init.
Proof.
  eexists. split; [reflexivity|]. repeat split; reflexivity.
Qed.

(** ** The strings on the ledger *)

Section SurfaceFacts.

Variable this : Backtest.

#[local] Abbreviation has_direction := (λ t : Trade, direction t ∈ direction_strings).
#[local] Abbreviation surfaced := (on_surface reason_strings).

Lemma exitReasonToString_ordinary reason :
  reason ∈ ordinary_reasons → exitReasonToString reason ∈ reason_strings.
Proof.
  unfold ordinary_reasons, reason_strings. intros H.
  repeat (apply elem_of_cons in H as [->|H]; [simpl; repeat constructor|]).
  by apply elem_of_nil in H.
Qed.

Lemma processExitSignals_surface cur trades_ seriesData_ i price exitSignal capital
    hasExited kept trades' capital' :
  processExitSignals this cur trades_ seriesData_ i price exitSignal capital =
    Ok (hasExited, kept, trades', capital') →
  Forall has_direction cur → Forall surfaced trades_ →
  Forall has_direction kept ∧ Forall surfaced trades'.
Proof.
  unfold processExitSignals. intros H Hcur Htrades.
  apply bind_Ok in H as ([[[k tr] c] h] & H1 & H2).
  simpl in H2. injection H2 as <- <- <- <-.
  apply exitLoop_Ok_inv in H1 as (closed & -> & _ & _ & _ & Hkept & Hall).
  rewrite Forall_forall in Hcur. split.
  - eapply Forall_impl; [exact Hkept|]. intros t Ht. by apply Hcur.
  - apply Forall_app. split; [done|].
    eapply Forall_impl; [exact Hall|]. intros c' (t & d & reason & Hin & Hr & ->).
    split.
    + rewrite closeTrade_direction. by apply Hcur.
    + rewrite closeTrade_exitReason. apply exitReasonToString_ordinary.
      pose proof (checkExit_reason this i price exitSignal t) as Hreason.
      by rewrite Hr in Hreason.
Qed.

Lemma processEntrySignals_surface cur seriesData_ i price entrySignal capital
    hasEntered cur' capital' :
  processEntrySignals this cur seriesData_ i price entrySignal capital =
    Ok (hasEntered, cur', capital') →
  Forall has_direction cur → Forall has_direction cur'.
Proof.
  unfold processEntrySignals. intros H Hcur.
  repeat match type of H with
         | context [if ?b then _ else _] => destruct b eqn:?
         end;
    try (injection H as <- <- <-; done);
    (apply bind_Ok in H as (d & _ & H); injection H as <- <- <-;
     apply Forall_app; split; [done|]; repeat constructor).
Qed.

Lemma applySignals_surface cur trades_ seriesData_ i price entrySignal exitSignal
    capital hasEntered cur' trades' capital' :
  applySignals this cur trades_ seriesData_ i price entrySignal exitSignal capital =
    Ok (hasEntered, cur', trades', capital') →
  Forall has_direction cur → Forall surfaced trades_ →
  Forall has_direction cur' ∧ Forall surfaced trades'.
Proof.
  unfold applySignals. intros H Hcur Htrades.
  destruct (bool_decide (signalPriority this = EXIT_FIRST)
            || bool_decide (signalPriority this = SAME_BAR_TRADE)).
  - apply bind_Ok in H as ([[[h1 cur1] trades1] cap1] & H1 & H). simpl in H.
    apply bind_Ok in H as ([[h2 cur2] cap2] & H2 & H). simpl in H.
    destruct (processExitSignals_surface _ _ _ _ _ _ _ _ _ _ _ H1 Hcur Htrades)
      as [Hcur1 Htrades1].
    pose proof (processEntrySignals_surface _ _ _ _ _ _ _ _ _ H2 Hcur1) as Hcur2.
    destruct (bool_decide (signalPriority this = SAME_BAR_TRADE) && h2
              && negb (exitSignal =? 0)).
    + apply bind_Ok in H as ([[[h3 cur3] trades3] cap3] & H3 & H). simpl in H.
      injection H as <- <- <- <-.
      by apply (processExitSignals_surface _ _ _ _ _ _ _ _ _ _ _ H3).
    + by injection H as <- <- <- <-.
  - apply bind_Ok in H as ([[h1 cur1] cap1] & H1 & H). simpl in H.
    apply bind_Ok in H as ([[[h2 cur2] trades2] cap2] & H2 & H). simpl in H.
    injection H as <- <- <- <-.
    pose proof (processEntrySignals_surface _ _ _ _ _ _ _ _ _ H1 Hcur) as Hcur1.
    by apply (processExitSignals_surface _ _ _ _ _ _ _ _ _ _ _ H2).
Qed.

Lemma barStep_surface entries_ exits_ i s s' :
  barStep this entries_ exits_ i s = Ok s' →
  Forall has_direction (currentTrades s) ∧ Forall surfaced (trades s) →
  Forall has_direction (currentTrades s') ∧ Forall surfaced (trades s').
Proof.
  unfold barStep. intros H [Hcur Htrades].
  apply bind_Ok in H as (price & _ & H).
  apply bind_Ok in H as (entrySignal & _ & H).
  apply bind_Ok in H as (exitSignal & _ & H).
  simpl in H.
  apply bind_Ok in H as ([[[h cur] tr] cap] & Happly & H). simpl in H.
  apply bind_Ok in H as (av & _ & H).
  apply bind_Ok in H as (pv & _ & H).
  apply bind_Ok in H as (tc & _ & H).
  apply bind_Ok in H as (dr & _ & H).
  injection H as <-. simpl.
  apply (applySignals_surface _ _ _ _ _ _ _ _ _ _ _ _ Happly); [|done].
  apply Forall_fmap. eapply Forall_impl; [exact Hcur|]. by intros t Ht.
Qed.

Lemma flushLoop_surface seriesData_ lastIndex lastPrice cur trades_ capital
    cur' trades' capital' :
  flushLoop this seriesData_ lastIndex lastPrice cur trades_ capital =
    Ok (cur', trades', capital') →
  Forall has_direction cur → Forall surfaced trades_ → Forall surfaced trades'.
Proof.
  revert trades_ capital cur' trades' capital'.
  induction cur as [|t rest IH]; intros trades_ capital cur' trades' capital'; simpl.
  - by intros [= <- <- <-].
  - intros H Hcur Htrades.
    apply bind_Ok in H as (d & _ & H).
    apply bind_Ok in H as ([[r' tr'] c'] & H1 & H). simpl in H.
    injection H as <- <- <-.
    apply Forall_cons in Hcur as [Ht Hrest].
    apply (IH _ _ _ _ _ H1 Hrest).
    apply Forall_app. split; [done|]. constructor; [|done].
    split.
    + by rewrite closeTrade_direction.
    + rewrite closeTrade_exitReason. unfold reason_strings. repeat constructor.
Qed.

Lemma simulate_surface entries_ exits_ sd trades_ :
  simulate this entries_ exits_ = Ok (sd, trades_) → Forall surfaced trades_.
Proof.
  unfold simulate. intros H.
  apply bind_Ok in H as (s & Hloop & H).
  apply bind_Ok in H as (lastPrice & _ & H).
  apply bind_Ok in H as (s1 & Hflush & H).
  apply bind_Ok in H as (sd1 & _ & H).
  apply bind_Ok in H as (cum & _ & H).
  injection H as _ <-.
  apply (barLoop_invariant this entries_ exits_
           (λ s, Forall has_direction (currentTrades s) ∧ Forall surfaced (trades s)))
    in Hloop as [Hcur Htrades].
  - destruct (forceCloseAtEnd this); [|by injection Hflush as <-].
    apply bind_Ok in Hflush as ([[cur tr] cap] & Hflush & H). simpl in H.
    injection H as <-. simpl.
    by apply (flushLoop_surface _ _ _ _ _ _ _ _ _ Hflush).
  - intros i s0 s0' Hs0 Hstep. by apply (barStep_surface _ _ _ _ _ Hstep).
  - simpl. split; constructor.
Qed.

End SurfaceFacts.

(** C7 (as the code has it).  Every trade of the ledger a run returns
    carries the direction [long] or [short] and, as its exit reason, one of
    the strings [Take Profit], [Stop Loss], [Exit Signal],
    [Max Holding Period Reached], [End of Backtest] and
    [Force Exit due to Negative Capital]; no other string reaches the
    ledger. *)
Theorem ledger_strings_are_stable (pow : float → float → float) this entries_ exits_
    metrics trades_ :
  runSingleBacktest pow this entries_ exits_ = Ok (metrics, trades_) →
  Forall (on_surface reason_strings) trades_.
Proof.
  unfold runSingleBacktest. intros H.
  apply bind_Ok in H as ([sd tr] & Hsim & H). simpl in H.
  apply bind_Ok in H as (m & _ & H). injection H as _ <-.
  by apply (simulate_surface _ _ _ _ _ Hsim).
Qed.

Lemma ledger_strings_witness :
  ∃ metrics trades_,
    runSingleBacktest Scenario.any_pow Scenario.long_object [1; 0] [0; -1] =
      Ok (metrics, trades_)
    ∧ length trades_ = 1%nat
    ∧ Forall (on_surface reason_strings) trades_.
Proof.
  destruct (runSingleBacktest Scenario.any_pow Scenario.long_object [1; 0] [0; -1])
    as [[metrics trades_]|e] eqn:E; [|vm_compute in E; discriminate E].
  exists metrics, trades_. split; [done|]. split.
  - vm_compute in E. by injection E as _ <-.
  - exact (ledger_strings_are_stable _ _ _ _ _ _ E).
Defined.

(** C7 as stated fails: the one trade of scenario S1 carries the reason
    [Exit Signal], which is none of the identifiers of the specification. *)
Lemma ledger_strings_counterexample :
  ¬ (∀ metrics trades_,
       runSingleBacktest Scenario.any_pow Scenario.long_object [1; 0] [0; -1] =
         Ok (metrics, trades_) →
       Forall (on_surface reason_strings_as_specified) trades_).
Proof.
  intros H.
  assert (∃ metrics t,
            runSingleBacktest Scenario.any_pow Scenario.long_object [1; 0] [0; -1] =
              Ok (metrics, [t])
            ∧ exitReason t = "Exit Signal") as (metrics & t & E & Hreason).
  { eexists _, _. split; [vm_compute; reflexivity | reflexivity]. }
  apply H in E. apply Forall_cons in E as [[_ Hin] _].
  rewrite Hreason in Hin. unfold reason_strings_as_specified in Hin.
  repeat (apply elem_of_cons in Hin as [Hin|Hin]; [discriminate Hin|]).
  by apply elem_of_nil in Hin.
Qed.

(** ** Metrics of a completed run *)

Section MetricsFacts.

Variable pow : float → float → float.
Variable this : Backtest.

Lemma equityCurveLoop_total fuel data_ i stride acc :
  length (dates data_) = length (totalCapital data_) →
  0 ≤ i →
  is_Ok (equityCurveLoop fuel data_ i stride acc).
Proof.
  intros Hlen. revert i acc. induction fuel as [|fuel IH]; intros i acc Hi; simpl;
    [done|].
  destruct (i <? Z.of_nat (length (totalCapital data_))) eqn:Hlt; [|done].
  apply Z.ltb_lt in Hlt.
  destruct (vec_get_in_range (dates data_) i) as [d ->]; [lia|].
  destruct (vec_get_in_range (totalCapital data_) i) as [v ->]; [lia|].
  simpl. apply IH. apply Z.mod_pos_bound. lia.
Qed.

(** On a non-empty series the metrics are computed, and their end value
    is the last total capital of the series. *)
Lemma calculateMetrics_endValue data_ trades_ riskFreeRate :
  totalCapital data_ ≠ [] →
  length (dates data_) = length (totalCapital data_) →
  ∃ metrics,
    calculateMetrics pow this data_ trades_ riskFreeRate = Ok metrics
    ∧ startValue metrics = startFund this
    ∧ vec_get (totalCapital data_) (Z.of_nat (length (totalCapital data_)) - 1) =
      Ok (endValue metrics).
Proof.
  intros Hne Hlen. unfold calculateMetrics.
  rewrite bool_decide_false by done.
  assert (0 < length (totalCapital data_))%nat as Hpos
    by (destruct (totalCapital data_); [done | simpl; lia]).
  destruct (vec_get_in_range (totalCapital data_)
              (Z.of_nat (length (totalCapital data_)) - 1)) as [endValue_ Hend];
    [lia|].
  rewrite Hend. simpl.
  destruct (tallyTrades trades_) as [[winning totalProfit] totalLoss].
  unfold calculateMaxDrawdown.
  destruct (vec_get_in_range (totalCapital data_) 0) as [peak ->]; [lia|].
  simpl.
  destruct (is_Ok_exists _
              (equityCurveLoop_total (length (totalCapital data_)) data_ 0
                 (Z.max 1 (Z.of_nat (length (totalCapital data_)) / 1000)) []
                 Hlen ltac:(lia))) as [curve ->].
  simpl. eexists. split; [done|]. done.
Qed.

End MetricsFacts.

(** ** Scenarios *)

(** C8.  Scenario S4: on prices [100, 90] with a short entry on the first
    bar and its exit signal on the second, capital 1000 fully invested,
    commission 0.1% and no slippage, the run returns exactly one trade,
    with entry fee 1.0, quantity 9.99, buy-back [quantity × exit price]
    899.10, exit fee 0.89910 and profit 100.00090, and the end value
    1100.00090; each number is the binary64 value nearest to the decimal. *)
Theorem short_round_trip_scenario (pow : float → float → float) (d0 d1 : DateTime) :
  ∃ this metrics t,
    Backtest_single [100; 90]%float [-1; 0] [0; 1] [d0; d1] Scenario.short_args = Ok this
    ∧ runSingleBacktest pow this [-1; 0] [0; 1] = Ok (metrics, [t])
    ∧ direction t = "short"
    ∧ entryFee t = 1%float
    ∧ quantity t = 9.99%float
    ∧ (quantity t * exitPrice t)%float = 899.1%float
    ∧ exitFee t = 0.8991%float
    ∧ profit t = 100.0009%float
    ∧ endValue metrics = 1100.0009%float.
Proof.
  set (this := init_members Scenario.short_args false [100; 90]%float [-1; 0] [0; 1]
                 [d0; d1] ∅ ∅ []).
  assert (∃ sd t, simulate this [-1; 0] [0; 1] = Ok (sd, [t])
                  ∧ totalCapital sd = [999; 1100.0009]%float
                  ∧ length (dates sd) = 2%nat
                  ∧ direction t = "short"
                  ∧ entryFee t = 1%float
                  ∧ quantity t = 9.99%float
                  ∧ (quantity t * exitPrice t)%float = 899.1%float
                  ∧ exitFee t = 0.8991%float
                  ∧ profit t = 100.0009%float)
    as (sd & t & Hsim & Htotal & Hdates & Hfacts).
  { eexists _, _. split; [vm_compute; reflexivity|]. repeat split; reflexivity. }
  destruct (calculateMetrics_endValue pow this sd [t] 0%float)
    as (metrics & Hmetrics & _ & Hend).
  { by rewrite Htotal. }
  { by rewrite Htotal, Hdates. }
  exists this, metrics, t. split; [reflexivity|]. split.
  - unfold runSingleBacktest. rewrite Hsim. simpl. by rewrite Hmetrics.
  - rewrite Htotal in Hend. injection Hend as <-. tauto.
Qed.

(** C1 (evaluating the code).  The mark-to-market loop assigns
    [quantity × price] to every open position, whatever its direction.  On
    the short sold at 100 and still open at 90 the position is valued 900
    and the total capital recorded for the bar is 900, where the formula of
    the specification gives 1100. *)
Theorem short_marked_like_long :
  (∀ price t, currentValue (revalue price t) = (quantity t * price)%float)
  ∧ ∃ s t,
      barLoop Scenario.open_short_object [-1; 0] [0; 0] 2 0
        {| currentTrades := []; trades := [];
           seriesData := data Scenario.open_short_object;
           currentCapital := startFund Scenario.open_short_object;
           totalPositionValue := 0%float |} = Ok s
      ∧ currentTrades s = [t]
      ∧ direction t = "short"
      ∧ currentValue t = 900%float
      ∧ short_value_as_specified t 90%float = 1100%float
      ∧ availableCapital (seriesData s) = [0; 0]%float
      ∧ positionValue (seriesData s) = [1000; 900]%float
      ∧ totalCapital (seriesData s) = [1000; 900]%float.
Proof.
  split; [done|].
  eexists _, _. split; [vm_compute; reflexivity|].
  repeat split; reflexivity.
Qed.

(** ** The open set along a run

    The exit processor is only ever handed positions that the entry
    processor created: their direction is [long] or [short] and their
    entry index is a bar not after the current one. *)

Section OpenSetFacts.

Variable this : Backtest.

Lemma open_position_at_later i j t :
  i ≤ j → open_position_at i t → open_position_at j t.
Proof. intros Hij [Hdir Hidx]. split; [done | lia]. Qed.

Lemma revalue_open_position i price t :
  open_position_at i t → open_position_at i (revalue price t).
Proof. by intros [Hdir Hidx]. Qed.

Lemma processExitSignals_open cur trades_ seriesData_ i price exitSignal capital
    hasExited kept trades' capital' :
  processExitSignals this cur trades_ seriesData_ i price exitSignal capital =
    Ok (hasExited, kept, trades', capital') →
  Forall (open_position_at i) cur → Forall (open_position_at i) kept.
Proof.
  unfold processExitSignals. intros H Hcur.
  apply bind_Ok in H as ([[[k tr] c] h] & H1 & H2).
  simpl in H2. injection H2 as <- <- <- <-.
  apply exitLoop_Ok_inv in H1 as (closed & _ & _ & _ & _ & Hkept & _).
  rewrite Forall_forall in Hcur.
  eapply Forall_impl; [exact Hkept|]. intros t Ht. by apply Hcur.
Qed.

Lemma processEntrySignals_open cur seriesData_ i price entrySignal capital
    hasEntered cur' capital' :
  processEntrySignals this cur seriesData_ i price entrySignal capital =
    Ok (hasEntered, cur', capital') →
  0 ≤ i ≤ Cpp.INT_MAX →
  Forall (open_position_at i) cur → Forall (open_position_at i) cur'.
Proof.
  unfold processEntrySignals, Cpp.INT_MAX. intros H Hi Hcur.
  repeat match type of H with
         | context [if ?b then _ else _] => destruct b eqn:?
         end;
    try (injection H as <- <- <-; done);
    (apply bind_Ok in H as (d & _ & H); injection H as <- <- <-;
     apply Forall_app; split; [done|]; constructor; [|done];
     split; simpl; [auto | rewrite CppFacts.to_int_small; lia]).
Qed.

Lemma applySignals_open cur trades_ seriesData_ i price entrySignal exitSignal
    capital hasEntered cur' trades' capital' :
  applySignals this cur trades_ seriesData_ i price entrySignal exitSignal capital =
    Ok (hasEntered, cur', trades', capital') →
  0 ≤ i ≤ Cpp.INT_MAX →
  Forall (open_position_at i) cur → Forall (open_position_at i) cur'.
Proof.
  unfold applySignals. intros H Hi Hcur.
  destruct (bool_decide (signalPriority this = EXIT_FIRST)
            || bool_decide (signalPriority this = SAME_BAR_TRADE)).
  - apply bind_Ok in H as ([[[h1 cur1] trades1] cap1] & H1 & H). simpl in H.
    apply bind_Ok in H as ([[h2 cur2] cap2] & H2 & H). simpl in H.
    pose proof (processExitSignals_open _ _ _ _ _ _ _ _ _ _ _ H1 Hcur) as Hcur1.
    pose proof (processEntrySignals_open _ _ _ _ _ _ _ _ _ H2 Hi Hcur1) as Hcur2.
    destruct (bool_decide (signalPriority this = SAME_BAR_TRADE) && h2
              && negb (exitSignal =? 0)).
    + apply bind_Ok in H as ([[[h3 cur3] trades3] cap3] & H3 & H). simpl in H.
      injection H as <- <- <- <-.
      by apply (processExitSignals_open _ _ _ _ _ _ _ _ _ _ _ H3).
    + by injection H as <- <- <- <-.
  - apply bind_Ok in H as ([[h1 cur1] cap1] & H1 & H). simpl in H.
    apply bind_Ok in H as ([[[h2 cur2] trades2] cap2] & H2 & H). simpl in H.
    injection H as <- <- <- <-.
    pose proof (processEntrySignals_open _ _ _ _ _ _ _ _ _ H1 Hi Hcur) as Hcur1.
    by apply (processExitSignals_open _ _ _ _ _ _ _ _ _ _ _ H2).
Qed.

Lemma barStep_open entries_ exits_ i s s' :
  barStep this entries_ exits_ i s = Ok s' →
  0 ≤ i ≤ Cpp.INT_MAX →
  Forall (open_position_at i) (currentTrades s) →
  Forall (open_position_at (i + 1)) (currentTrades s').
Proof.
  unfold barStep. intros H Hi Hcur.
  apply bind_Ok in H as (price & _ & H).
  apply bind_Ok in H as (entrySignal & _ & H).
  apply bind_Ok in H as (exitSignal & _ & H).
  simpl in H.
  apply bind_Ok in H as ([[[h cur] tr] cap] & Happly & H). simpl in H.
  apply bind_Ok in H as (av & _ & H).
  apply bind_Ok in H as (pv & _ & H).
  apply bind_Ok in H as (tc & _ & H).
  apply bind_Ok in H as (dr & _ & H).
  injection H as <-. simpl.
  apply (Forall_impl (open_position_at i)).
  - apply (applySignals_open _ _ _ _ _ _ _ _ _ _ _ _ Happly Hi).
    apply Forall_fmap. eapply Forall_impl; [exact Hcur|].
    intros t Ht. by apply revalue_open_position.
  - intros t. apply open_position_at_later. lia.
Qed.

(** After [n] bars from bar [k], every open position is a well-formed
    position of bar [k + n]. *)
Lemma barLoop_open entries_ exits_ n k s s' :
  barLoop this entries_ exits_ n k s = Ok s' →
  0 ≤ k → k + Z.of_nat n ≤ Cpp.INT_MAX + 1 →
  Forall (open_position_at k) (currentTrades s) →
  Forall (open_position_at (k + Z.of_nat n)) (currentTrades s').
Proof.
  revert k s. induction n as [|n IH]; intros k s H Hk Hmax Hcur; simpl in H.
  - injection H as <-. by rewrite Z.add_0_r.
  - apply bind_Ok in H as (s1 & H1 & H2).
    replace (k + Z.of_nat (S n)) with (k + 1 + Z.of_nat n) by lia.
    apply (IH (k + 1) s1 H2); [lia | lia |].
    apply (barStep_open _ _ _ _ _ H1); [lia | done].
Qed.

End OpenSetFacts.

(** * Further properties of the engine *)

(** ** What the processors and the loop do to the state *)

Section MoreProcessorFacts.

Variable this : Backtest.

(** The two outcomes of the entry processor: nothing changes, or one
    position is appended and its investment leaves the capital. *)
Lemma processEntrySignals_Ok_inv cur seriesData_ i price entrySignal capital
    hasEntered cur' capital' :
  processEntrySignals this cur seriesData_ i price entrySignal capital =
    Ok (hasEntered, cur', capital') →
  (cur' = cur ∧ capital' = capital)
  ∨ ∃ t,
      cur' = cur ++ [t]
      ∧ hasEntered = true
      ∧ capital' = (capital - entryInvestment t)%float
      ∧ entryInvestment t = (capital * eachTrade this)%float
      ∧ (0 <? entryInvestment t)%float = true
      ∧ (maxPositions this = 0
         ∨ Z.of_nat (length cur) < Cpp.to_size_t (maxPositions this))
      ∧ (entrySignal = 1 ∧ direction t = "long" ∧ tradeType this ≠ SHORT
         ∨ entrySignal = -1 ∧ direction t = "short" ∧ tradeType this ≠ LONG)
      ∧ entryIndex t = Cpp.to_int i
      ∧ vec_get (dates seriesData_) i = Ok (entryTime t)
      ∧ entryPrice t = entryPriceFor this (isLongDirection t) price
      ∧ sized this t.
Proof.
  unfold processEntrySignals. intros H.
  destruct (_ && _) eqn:Hguard in H; [|injection H as _ <- <-; by left].
  apply andb_true_iff in Hguard as [Hcap Hsig].
  match type of H with
  | context [if ?b then _ else _] => destruct b eqn:Hdir
  end; [|injection H as _ <- <-; by left].
  destruct (0 <? capital * eachTrade this)%float eqn:Hamount;
    [|injection H as _ <- <-; by left].
  apply bind_Ok in H as (d & Hd & H). injection H as <- <- <-.
  right. eexists. split; [done|]. simpl.
  split; [done|]. split; [done|]. split; [done|]. split; [done|].
  split.
  { apply orb_true_iff in Hcap as [Hc|Hc].
    - left. by apply bool_decide_eq_true in Hc.
    - right. by apply Z.ltb_lt in Hc. }
  unfold sized, entryPriceFor, isLongDirection. simpl.
  destruct (decide (entrySignal = 1)) as [->|Hne].
  - rewrite (bool_decide_true (1 = 1)) in Hdir |- * by done.
    split; [|done]. left.
    split; [done|]. split; [done|].
    intros Htt. rewrite Htt in Hdir. done.
  - rewrite (bool_decide_false (entrySignal = 1)) in Hsig, Hdir |- * by done.
    simpl in Hsig. apply bool_decide_eq_true in Hsig.
    split; [|done]. right.
    split; [done|]. split; [done|].
    intros Htt. rewrite Htt in Hdir. done.
Qed.

(** The end-of-run loop closes every position it is given, in order. *)
Lemma flushLoop_run seriesData_ lastIndex lastPrice cur trades_ capital exitTime_ :
  vec_get (dates seriesData_) lastIndex = Ok exitTime_ →
  let closed :=
    (λ t, closeTrade this t lastPrice exitTime_ lastIndex "End of Backtest") <$> cur in
  flushLoop this seriesData_ lastIndex lastPrice cur trades_ capital =
  Ok (closed, trades_ ++ closed, addExitValues capital closed).
Proof.
  intros Hd. revert trades_ capital.
  induction cur as [|t rest IH]; intros trades_ capital; simpl.
  - by rewrite app_nil_r.
  - rewrite Hd. simpl. rewrite IH. simpl. by rewrite <- app_assoc.
Qed.

Lemma flushLoop_Ok_inv seriesData_ lastIndex lastPrice cur trades_ capital
    cur' trades' capital' :
  flushLoop this seriesData_ lastIndex lastPrice cur trades_ capital =
    Ok (cur', trades', capital') →
  ∃ exitTime_,
    cur' = (λ t, closeTrade this t lastPrice exitTime_ lastIndex "End of Backtest")
             <$> cur
    ∧ trades' = trades_ ++ cur'
    ∧ capital' = addExitValues capital cur'
    ∧ (cur ≠ [] → vec_get (dates seriesData_) lastIndex = Ok exitTime_).
Proof.
  destruct cur as [|t rest].
  - simpl. intros [= <- <- <-]. exists 0. by rewrite app_nil_r.
  - intros H. pose proof H as H'. simpl in H'.
    apply bind_Ok in H' as (d & Hd & _).
    rewrite (flushLoop_run _ _ _ _ _ _ d Hd) in H. injection H as <- <- <-.
    by exists d.
Qed.

End MoreProcessorFacts.

Section MoreBarFacts.

Variable this : Backtest.

Lemma processExitSignals_Ok_inv cur trades_ seriesData_ i price exitSignal capital
    hasExited kept trades' capital' :
  processExitSignals this cur trades_ seriesData_ i price exitSignal capital =
    Ok (hasExited, kept, trades', capital') →
  ∃ closed,
    trades' = trades_ ++ closed
    ∧ (length kept + length closed = length cur)%nat
    ∧ Forall (λ t, t ∈ cur) kept
    ∧ Forall (λ c, ∃ t, t ∈ cur ∧ closed_from this i price t c) closed.
Proof.
  unfold processExitSignals. intros H.
  apply bind_Ok in H as ([[[k tr] c] h] & H1 & H2).
  simpl in H2. injection H2 as <- <- <- <-.
  apply exitLoop_Ok_inv in H1 as (closed & -> & _ & _ & Hlen & Hkept & Hall).
  exists closed. split; [done|]. split; [done|]. split; [done|].
  eapply Forall_impl; [exact Hall|]. intros c' (t & d & reason & Hin & Hr & ->).
  exists t. split; [done|]. exists d, reason. split; [|done].
  pose proof (checkExit_reason this i price exitSignal t) as Hreason.
  by rewrite Hr in Hreason.
Qed.

(** One bar of signal processing, whatever the priority: the ledger grows
    by closed copies of positions that were open or have just been opened,
    the open set keeps or drops old positions and gains at most one. *)
Lemma applySignals_Ok_inv cur trades_ seriesData_ i price entrySignal exitSignal
    capital hasEntered cur' trades' capital' :
  applySignals this cur trades_ seriesData_ i price entrySignal exitSignal capital =
    Ok (hasEntered, cur', trades', capital') →
  ∃ closed,
    trades' = trades_ ++ closed
    ∧ Forall (λ t, t ∈ cur ∨ opened_by this i price entrySignal t) cur'
    ∧ Forall (λ c, ∃ t, (t ∈ cur ∨ opened_by this i price entrySignal t)
                        ∧ closed_from this i price t c) closed
    ∧ (length cur' ≤ length cur + 1)%nat
    ∧ (0 < maxPositions this ≤ Cpp.INT_MAX →
       Z.of_nat (length cur) ≤ maxPositions this →
       Z.of_nat (length cur') ≤ maxPositions this).
Proof.
  assert (∀ c0 sd j p sig cap h c1 cap1,
            processEntrySignals this c0 sd j p sig cap = Ok (h, c1, cap1) →
            j = i → p = price → sig = entrySignal →
            Forall (λ t, t ∈ c0 ∨ opened_by this i price entrySignal t) c1
            ∧ (length c1 ≤ length c0 + 1)%nat
            ∧ (0 < maxPositions this ≤ Cpp.INT_MAX →
               Z.of_nat (length c0) ≤ maxPositions this →
               Z.of_nat (length c1) ≤ maxPositions this)) as Hentry.
  { intros c0 sd j p sig cap h c1 cap1 H -> -> ->.
    apply processEntrySignals_Ok_inv in H
      as [[-> ->]|(t & -> & _ & _ & _ & Hpos & Hcap & Hsig & Hidx & _ & Hfill & Hsized)].
    - split; [|split; [lia | done]].
      apply Forall_forall. intros t Ht. by left.
    - split; [|split].
      + apply Forall_app. split.
        * apply Forall_forall. intros t' Ht'. by left.
        * constructor; [|done]. right. done.
      + rewrite length_app. simpl. lia.
      + unfold Cpp.INT_MAX. intros HM Hlen. rewrite length_app. simpl.
        rewrite CppFacts.to_size_t_small in Hcap by lia. lia. }
  assert (∀ (c0 c1 : list Trade) (P : Trade → Prop),
            Forall (λ t, t ∈ c0) c1 → (∀ t, t ∈ c0 → P t) → Forall P c1) as Hsub.
  { intros c0 c1 P H HP. eapply Forall_impl; [exact H | done]. }
  unfold applySignals. intros H.
  destruct (bool_decide (signalPriority this = EXIT_FIRST)
            || bool_decide (signalPriority this = SAME_BAR_TRADE)).
  - apply bind_Ok in H as ([[[h1 cur1] trades1] cap1] & H1 & H). simpl in H.
    apply bind_Ok in H as ([[h2 cur2] cap2] & H2 & H). simpl in H.
    apply processExitSignals_Ok_inv in H1 as (closed1 & -> & Hlen1 & Hkept1 & Hcl1).
    destruct (Hentry _ _ _ _ _ _ _ _ _ H2 eq_refl eq_refl eq_refl) as (Hcur2 & Hlen2 & Hcap2).
    assert (Forall (λ t, t ∈ cur ∨ opened_by this i price entrySignal t) cur2) as Hcur2'.
    { eapply Forall_impl; [exact Hcur2|]. intros t [Ht|Ht]; [left|by right].
      rewrite Forall_forall in Hkept1. by apply Hkept1. }
    destruct (bool_decide (signalPriority this = SAME_BAR_TRADE) && h2
              && negb (exitSignal =? 0)).
    + apply bind_Ok in H as ([[[h3 cur3] trades3] cap3] & H3 & H). simpl in H.
      injection H as <- <- <- <-.
      apply processExitSignals_Ok_inv in H3 as (closed3 & -> & Hlen3 & Hkept3 & Hcl3).
      rewrite Forall_forall in Hcur2'.
      exists (closed1 ++ closed3). rewrite app_assoc.
      split; [done|]. split; [|split; [|split]].
      * apply (Hsub _ _ _ Hkept3). done.
      * apply Forall_app. split.
        -- eapply Forall_impl; [exact Hcl1|]. intros c (t & Ht & Hc). eauto.
        -- eapply Forall_impl; [exact Hcl3|]. intros c (t & Ht & Hc). eauto.
      * lia.
      * intros HM Hlen. specialize (Hcap2 HM). lia.
    + injection H as <- <- <- <-.
      exists closed1. split; [done|]. split; [done|]. split; [|split].
      * eapply Forall_impl; [exact Hcl1|]. intros c (t & Ht & Hc). eauto.
      * lia.
      * intros HM Hlen. specialize (Hcap2 HM). lia.
  - apply bind_Ok in H as ([[h1 cur1] cap1] & H1 & H). simpl in H.
    apply bind_Ok in H as ([[[h2 cur2] trades2] cap2] & H2 & H). simpl in H.
    injection H as <- <- <- <-.
    destruct (Hentry _ _ _ _ _ _ _ _ _ H1 eq_refl eq_refl eq_refl) as (Hcur1 & Hlen1 & Hcap1).
    apply processExitSignals_Ok_inv in H2 as (closed2 & -> & Hlen2 & Hkept2 & Hcl2).
    rewrite Forall_forall in Hcur1.
    exists closed2. split; [done|]. split; [|split; [|split]].
    + apply (Hsub _ _ _ Hkept2). done.
    + eapply Forall_impl; [exact Hcl2|]. intros c (t & Ht & Hc). eauto.
    + lia.
    + intros HM Hlen. specialize (Hcap1 HM Hlen). lia.
Qed.

End MoreBarFacts.

Section MoreLoopFacts.

Variable this : Backtest.
Variables (entries_ exits_ : list Z).

Lemma barStep_Ok_inv_state i s s' :
  barStep this entries_ exits_ i s = Ok s' →
  ∃ price entrySignal exitSignal closed,
    vec_get (prices (seriesData s)) i = Ok price
    ∧ vec_get entries_ i = Ok entrySignal
    ∧ vec_get exits_ i = Ok exitSignal
    ∧ trades s' = trades s ++ closed
    ∧ Forall (λ t, t ∈ (revalue price <$> currentTrades s)
                   ∨ opened_by this i price entrySignal t) (currentTrades s')
    ∧ Forall (λ c, ∃ t, (t ∈ (revalue price <$> currentTrades s)
                         ∨ opened_by this i price entrySignal t)
                        ∧ closed_from this i price t c) closed
    ∧ (length (currentTrades s') ≤ length (currentTrades s) + 1)%nat
    ∧ (0 < maxPositions this ≤ Cpp.INT_MAX →
       Z.of_nat (length (currentTrades s)) ≤ maxPositions this →
       Z.of_nat (length (currentTrades s')) ≤ maxPositions this).
Proof.
  unfold barStep. intros H.
  apply bind_Ok in H as (price & Hp & H).
  apply bind_Ok in H as (entrySignal & He & H).
  apply bind_Ok in H as (exitSignal & Hx & H).
  simpl in H.
  apply bind_Ok in H as ([[[h cur] tr] cap] & Happly & H). simpl in H.
  apply bind_Ok in H as (av & _ & H).
  apply bind_Ok in H as (pv & _ & H).
  apply bind_Ok in H as (tc & _ & H).
  apply bind_Ok in H as (dr & _ & H).
  injection H as <-. simpl.
  apply applySignals_Ok_inv in Happly as (closed & -> & Hcur & Hcl & Hlen & Hcap).
  rewrite length_fmap in Hlen, Hcap.
  exists price, entrySignal, exitSignal, closed. done.
Qed.

Lemma barLoop_invariant_at (P : Z → Sim → Prop) n k s s' :
  (∀ i s s', k ≤ i < k + Z.of_nat n → P i s →
             barStep this entries_ exits_ i s = Ok s' → P (i + 1) s') →
  P k s → barLoop this entries_ exits_ n k s = Ok s' → P (k + Z.of_nat n) s'.
Proof.
  revert k s. induction n as [|n IH]; intros k s Hstep Hs; simpl.
  - intros [= <-]. by rewrite Z.add_0_r.
  - intros H. apply bind_Ok in H as (s1 & H1 & H2).
    replace (k + Z.of_nat (S n)) with (k + 1 + Z.of_nat n) by lia.
    apply (IH (k + 1) s1); [|by apply (Hstep k s); [lia|..]|done].
    intros i s0 s0' Hi. apply Hstep. lia.
Qed.

(** A completed run, taken apart: the state [s] the bar loop ends in, the
    ledger with the end-of-run closures, and the series with the last bar
    overwritten. *)
Lemma simulate_Ok_inv sd trades_ :
  simulate this entries_ exits_ = Ok (sd, trades_) →
  let n := length (prices (data this)) in
  let lastIndex := Cpp.to_size_t (Z.of_nat n - 1) in
  ∃ s lastPrice exitTime_ cumulativeReturn_,
    barLoop this entries_ exits_ n 0 (initialSim this) = Ok s
    ∧ vec_get (prices (seriesData s)) lastIndex = Ok lastPrice
    ∧ trades_ =
        (if forceCloseAtEnd this
         then trades s ++
              ((λ t, closeTrade this t lastPrice exitTime_ lastIndex "End of Backtest")
                 <$> currentTrades s)
         else trades s)
    ∧ (∃ s1, finalizeSeries this s1 lastIndex
               = Ok (withSeries sd (availableCapital sd) (positionValue sd)
                       (totalCapital sd) (dailyReturn sd)
                       (cumulativeReturn (seriesData s)))
             ∧ seriesData s1 = seriesData s
             ∧ length (currentTrades s1) = length (currentTrades s)
             ∧ (forceCloseAtEnd this = false → s1 = s))
    ∧ cumulativeLoop n 0 1%float (dailyReturn sd) (cumulativeReturn (seriesData s))
        = Ok cumulativeReturn_
    ∧ cumulativeReturn sd = cumulativeReturn_
    ∧ (forceCloseAtEnd this = true → currentTrades s ≠ [] →
       vec_get (dates (seriesData s)) lastIndex = Ok exitTime_).
Proof.
  intros H n lastIndex. unfold simulate in H. fold n in H. fold lastIndex in H.
  apply bind_Ok in H as (s & Hloop & H).
  apply bind_Ok in H as (lastPrice & Hlast & H).
  apply bind_Ok in H as (s1 & Hflush & H).
  apply bind_Ok in H as (sd1 & Hfin & H).
  apply bind_Ok in H as (cum & Hcum & H).
  injection H as <- <-.
  assert (∃ d, trades s1 =
                 (if forceCloseAtEnd this
                  then trades s ++
                       ((λ t, closeTrade this t lastPrice d lastIndex "End of Backtest")
                          <$> currentTrades s)
                  else trades s)
               ∧ seriesData s1 = seriesData s
               ∧ length (currentTrades s1) = length (currentTrades s)
               ∧ (forceCloseAtEnd this = false → s1 = s)
               ∧ (forceCloseAtEnd this = true → currentTrades s ≠ [] →
                  vec_get (dates (seriesData s)) lastIndex = Ok d))
    as (d & Htr & Hsd & Hlen & Hs1 & Hdate).
  { destruct (forceCloseAtEnd this).
    - apply bind_Ok in Hflush as ([[cur tr] cap] & Hflush & H). simpl in H.
      injection H as <-. simpl.
      apply flushLoop_Ok_inv in Hflush as (d & -> & -> & _ & Hd).
      exists d. rewrite length_fmap. done.
    - injection Hflush as <-. by exists 0. }
  assert (dailyReturn sd1 = dailyReturn (seriesData s1)
          ∧ cumulativeReturn sd1 = cumulativeReturn (seriesData s1)) as [Edr Ecr].
  { revert Hfin. unfold finalizeSeries.
    destruct (bool_decide (currentTrades s1 ≠ [])); [|by intros [= <-]].
    intros H. apply bind_Ok in H as (av & _ & H).
    apply bind_Ok in H as (pv & _ & H). apply bind_Ok in H as (tc & _ & H).
    by injection H as <-. }
  exists s, lastPrice, d, cum. split; [done|]. split; [done|]. split; [done|].
  split; [|split; [|done]].
  - exists s1. simpl. split; [|done].
    rewrite Hfin. f_equal. destruct sd1. simpl in *. by rewrite <- Hsd, Ecr.
  - simpl. by rewrite <- Hsd, <- Ecr.
Qed.

End MoreLoopFacts.

(** ** Invariants of the open set and of the ledger *)

(** X1.  From any state of the bar loop, [n] more bars add at most [n]
    positions to the open set (at most one per bar), and when
    [maxPositions] is positive an open set within the cap stays within
    it. *)
Theorem open_set_bounds this entries_ exits_ n k s s' :
  barLoop this entries_ exits_ n k s = Ok s' →
  (length (currentTrades s') ≤ length (currentTrades s) + n)%nat
  ∧ (0 < maxPositions this ≤ Cpp.INT_MAX →
     Z.of_nat (length (currentTrades s)) ≤ maxPositions this →
     Z.of_nat (length (currentTrades s')) ≤ maxPositions this).
Proof.
  revert k s. induction n as [|n IH]; intros k s; simpl.
  - intros [= <-]. split; [lia | done].
  - intros H. apply bind_Ok in H as (s1 & H1 & H2).
    apply barStep_Ok_inv_state in H1
      as (p & es & xs & cl & _ & _ & _ & _ & _ & _ & Hlen & Hcap).
    destruct (IH _ _ H2) as [IHlen IHcap]. split; [lia|].
    intros HM Hs. apply IHcap; [done|]. by apply Hcap.
Qed.

Lemma open_set_bounds_witness :
  ∃ s', barLoop Example.stack_object [1; 1; 1] [0; 0; 0] 3 0
          (initialSim Example.stack_object) = Ok s'
        ∧ length (currentTrades s') = 2%nat
        ∧ (length (currentTrades s') ≤ 0 + 3)%nat
        ∧ Z.of_nat (length (currentTrades s')) ≤ 2.
Proof.
  destruct (barLoop Example.stack_object [1; 1; 1] [0; 0; 0] 3 0
              (initialSim Example.stack_object)) as [s'|e] eqn:E;
    [|vm_compute in E; discriminate E].
  exists s'. split; [done|].
  destruct (open_set_bounds _ _ _ _ _ _ _ E) as [Hlen Hcap].
  split; [|split; [exact Hlen|]].
  - clear Hlen Hcap. vm_compute in E. by injection E as <-.
  - apply Hcap; [unfold Cpp.INT_MAX; simpl; lia | simpl; lia].
Defined.

Section LedgerFacts.

Variable this : Backtest.
Variables (entries_ exits_ : list Z).

Lemma barLoop_inputs n k s s' :
  barLoop this entries_ exits_ n k s = Ok s' →
  prices (seriesData s') = prices (seriesData s)
  ∧ dates (seriesData s') = dates (seriesData s).
Proof.
  intros H.
  apply (barLoop_invariant this entries_ exits_
           (λ s', prices (seriesData s') = prices (seriesData s)
                  ∧ dates (seriesData s') = dates (seriesData s)) _ _ _ _) in H;
    [done | | done].
  intros i s0 s0' [Hp Hd] Hstep.
  apply barStep_Ok_inv in Hstep as (_ & _ & _ & Ed & Ep & _).
  by rewrite Ed, Ep.
Qed.

(** A run that completes has at least one bar, and its last index is
    [N - 1]. *)
Lemma simulate_last_index sd trades_ :
  simulate this entries_ exits_ = Ok (sd, trades_) →
  Z.of_nat (length (prices (data this))) ≤ 2 ^ 64 →
  1 ≤ Z.of_nat (length (prices (data this)))
  ∧ Cpp.to_size_t (Z.of_nat (length (prices (data this))) - 1) =
    Z.of_nat (length (prices (data this))) - 1.
Proof.
  intros H Hmax.
  apply simulate_Ok_inv in H as (s & lastPrice & _ & _ & Hloop & Hlast & _).
  apply barLoop_inputs in Hloop as [Hp _]. simpl in Hp. rewrite Hp in Hlast.
  apply vec_get_Ok in Hlast as [_ Hlast]. apply lookup_lt_Some in Hlast.
  assert (0 ≤ Cpp.to_size_t (Z.of_nat (length (prices (data this))) - 1) < 2 ^ 64)
    as Hrange by (apply Z.mod_pos_bound; lia).
  destruct (decide (length (prices (data this)) = 0%nat)) as [Hz|Hnz].
  - rewrite Hz in Hlast. lia.
  - split; [lia|]. apply CppFacts.to_size_t_small. lia.
Qed.

(** A generic invariant: [P] on the open set, [Q] on the ledger. *)
Lemma barLoop_open_ledger (P Q : Trade → Prop) n k s s' :
  (∀ price t, P t → P (revalue price t)) →
  (∀ i price entrySignal t, opened_by this i price entrySignal t → P t) →
  (∀ i price t c, P t → closed_from this i price t c → Q c) →
  Forall P (currentTrades s) → Forall Q (trades s) →
  barLoop this entries_ exits_ n k s = Ok s' →
  Forall P (currentTrades s') ∧ Forall Q (trades s').
Proof.
  intros Hrev Hopen Hclose HP HQ H.
  apply (barLoop_invariant this entries_ exits_
           (λ s, Forall P (currentTrades s) ∧ Forall Q (trades s)) _ _ _ _) in H;
    [done | | done].
  intros i s0 s0' [HP0 HQ0] Hstep.
  apply barStep_Ok_inv_state in Hstep
    as (price & es & xs & closed & _ & _ & _ & -> & Hcur & Hcl & _).
  assert (∀ t, t ∈ (revalue price <$> currentTrades s0) ∨ opened_by this i price es t → P t)
    as HPt.
  { intros t [Hin|Ho]; [|by eapply Hopen].
    apply list_elem_of_fmap in Hin as (t0 & -> & Hin).
    rewrite Forall_forall in HP0. by apply Hrev, HP0. }
  split.
  - eapply Forall_impl; [exact Hcur | done].
  - apply Forall_app. split; [done|].
    eapply Forall_impl; [exact Hcl|]. intros c (t & Ht & Hc).
    eapply Hclose; [|exact Hc]. by apply HPt.
Qed.

End LedgerFacts.

Lemma runSingleBacktest_Ok_inv (pow : float → float → float) this entries_ exits_
    metrics trades_ :
  runSingleBacktest pow this entries_ exits_ = Ok (metrics, trades_) →
  ∃ sd, simulate this entries_ exits_ = Ok (sd, trades_)
        ∧ calculateMetrics pow this sd trades_ 0%float = Ok metrics.
Proof.
  unfold runSingleBacktest. intros H.
  apply bind_Ok in H as ([sd tr] & Hsim & H). simpl in H.
  apply bind_Ok in H as (m & Hm & H). injection H as <- <-. eauto.
Qed.

Lemma closeTrade_settled this t price exitTime_ index reason :
  settled this (closeTrade this t price exitTime_ index reason).
Proof.
  unfold settled, closeTrade, settle, isLongDirection.
  destruct (bool_decide (direction t = "long")) eqn:E; simpl; rewrite E; done.
Qed.

Lemma opened_by_direction_allowed this i price entrySignal t :
  opened_by this i price entrySignal t → direction_allowed (tradeType this) t.
Proof.
  intros [[(_ & Hd & Htt)|(_ & Hd & Htt)] _]; unfold direction_allowed;
    destruct (tradeType this); auto; done.
Qed.

(** X2.  The trade type filters the ledger: under [long] every trade of a
    run is a long, under [short] every trade is a short, and under
    [long_short] every trade is one or the other. *)
Theorem trade_type_filters_ledger (pow : float → float → float) this entries_ exits_
    metrics trades_ :
  runSingleBacktest pow this entries_ exits_ = Ok (metrics, trades_) →
  Forall (direction_allowed (tradeType this)) trades_.
Proof.
  intros H. apply runSingleBacktest_Ok_inv in H as (sd & H & _).
  apply simulate_Ok_inv in H as (s & lastPrice & d & _ & Hloop & _ & -> & _).
  apply (barLoop_open_ledger this entries_ exits_
           (direction_allowed (tradeType this))
           (direction_allowed (tradeType this))) in Hloop as [Hcur Htr].
  - destruct (forceCloseAtEnd this); [|done].
    apply Forall_app. split; [done|]. apply Forall_fmap.
    eapply Forall_impl; [exact Hcur|]. intros t Ht. simpl.
    unfold direction_allowed. by rewrite closeTrade_direction.
  - by intros price t Ht.
  - intros i price es t. apply opened_by_direction_allowed.
  - intros i price t c Ht (d' & reason & _ & ->).
    unfold direction_allowed. by rewrite closeTrade_direction.
  - constructor.
  - constructor.
Qed.

Lemma trade_type_filters_witness :
  ∃ metrics trades_,
    runSingleBacktest Scenario.any_pow Example.stack_object [1; 1; 1] [0; 0; 0] =
      Ok (metrics, trades_)
    ∧ length trades_ = 2%nat
    ∧ Forall (λ t, direction t = "long") trades_.
Proof.
  destruct (runSingleBacktest Scenario.any_pow Example.stack_object [1; 1; 1] [0; 0; 0])
    as [[metrics trades_]|e] eqn:E; [|vm_compute in E; discriminate E].
  exists metrics, trades_. split; [done|]. split.
  - vm_compute in E. by injection E as _ <-.
  - exact (trade_type_filters_ledger _ _ _ _ _ _ E).
Defined.

(** X3.  Every trade of the ledger of a run satisfies the settlement
    equations exactly: for a long, [exitValue = quantity × exitPrice ×
    (1 − fee)] and [profit = exitValue − entryInvestment]; for a short,
    [profit = entryInvestment − (buy-back + fee)] and [exitValue =
    entryInvestment + profit]; for both, [profitPct = profit /
    entryInvestment × 100] and [exitFee = quantity × exitPrice × fee]. *)
Theorem ledger_trades_settled (pow : float → float → float) this entries_ exits_
    metrics trades_ :
  runSingleBacktest pow this entries_ exits_ = Ok (metrics, trades_) →
  Forall (settled this) trades_.
Proof.
  intros H. apply runSingleBacktest_Ok_inv in H as (sd & H & _).
  apply simulate_Ok_inv in H as (s & lastPrice & d & _ & Hloop & _ & -> & _).
  apply (barLoop_open_ledger this entries_ exits_ (λ _, True) (settled this))
    in Hloop as [_ Htr].
  - destruct (forceCloseAtEnd this); [|done].
    apply Forall_app. split; [done|]. apply Forall_fmap, Forall_forall.
    intros t _. apply closeTrade_settled.
  - done.
  - done.
  - intros i price t c _ (d' & reason & _ & ->). apply closeTrade_settled.
  - by apply Forall_forall.
  - constructor.
Qed.

Lemma ledger_trades_settled_witness :
  ∃ metrics trades_,
    runSingleBacktest Scenario.any_pow Scenario.squeeze_object [-1; 0] [0; 1] =
      Ok (metrics, trades_)
    ∧ length trades_ = 1%nat
    ∧ Forall (settled Scenario.squeeze_object) trades_.
Proof.
  destruct (runSingleBacktest Scenario.any_pow Scenario.squeeze_object [-1; 0] [0; 1])
    as [[metrics trades_]|e] eqn:E; [|vm_compute in E; discriminate E].
  exists metrics, trades_. split; [done|]. split.
  - vm_compute in E. by injection E as _ <-.
  - exact (ledger_trades_settled _ _ _ _ _ _ E).
Defined.

Lemma closed_from_indices this i price t c :
  0 ≤ i ≤ Cpp.INT_MAX →
  closed_from this i price t c →
  entryIndex c = entryIndex t ∧ exitIndex c = i.
Proof.
  unfold Cpp.INT_MAX. intros Hi (d & reason & _ & ->).
  rewrite closeTrade_entryIndex, closeTrade_exitIndex.
  split; [done|]. apply CppFacts.to_int_small. lia.
Qed.

Lemma ledger_extend i (old new : list Trade) :
  Forall (indexed_within (i + 1)) old →
  StronglySorted by_exit_index old →
  Forall (λ c, 0 ≤ entryIndex c ≤ i ∧ exitIndex c = i) new →
  Forall (indexed_within (i + 1)) (old ++ new)
  ∧ StronglySorted by_exit_index (old ++ new).
Proof.
  intros Hold Hsorted Hnew. split.
  - apply Forall_app. split; [done|].
    eapply Forall_impl; [exact Hnew|]. intros c [? ?]. split; lia.
  - apply StronglySorted_app_2; [|done|].
    + intros x1 x2 H1 H2. rewrite Forall_forall in Hold, Hnew.
      destruct (Hold x1 H1) as [_ ?]. destruct (Hnew x2 H2) as [_ ?].
      unfold by_exit_index. lia.
    + induction Hnew as [|c l [_ Hc] Hl IH]; constructor; [done|].
      eapply Forall_impl; [exact Hl|]. intros c' [_ Hc']. unfold by_exit_index. lia.
Qed.

(** X4.  In a run over at most [2^31] bars, every trade of the ledger was
    entered at a bar of the run and closed at the same or a later bar
    ([0 ≤ entryIndex ≤ exitIndex < N]), and the ledger is ordered by
    non-decreasing [exitIndex]. *)
Theorem ledger_indices_ordered this entries_ exits_ sd trades_ :
  simulate this entries_ exits_ = Ok (sd, trades_) →
  Z.of_nat (length (prices (data this))) ≤ Cpp.INT_MAX + 1 →
  Forall (indexed_within (Z.of_nat (length (prices (data this))))) trades_
  ∧ StronglySorted by_exit_index trades_.
Proof.
  intros H Hmax. set (n := length (prices (data this))) in *.
  destruct (simulate_last_index this entries_ exits_ sd trades_ H) as [Hn Hlast].
  { fold n. unfold Cpp.INT_MAX in Hmax. lia. }
  fold n in Hn, Hlast.
  apply simulate_Ok_inv in H as (s & lastPrice & d & _ & Hloop & _ & -> & _).
  fold n in Hloop |- *. rewrite Hlast.
  apply (barLoop_invariant_at this entries_ exits_
           (λ i s, Forall (λ t, 0 ≤ entryIndex t < i) (currentTrades s)
                   ∧ Forall (indexed_within i) (trades s)
                   ∧ StronglySorted by_exit_index (trades s))) in Hloop.
  - simpl in Hloop. destruct Hloop as (Hcur & Htr & Hsorted).
    destruct (forceCloseAtEnd this); [|done].
    destruct (ledger_extend (Z.of_nat n - 1) (trades s)
                ((λ t, closeTrade this t lastPrice d (Z.of_nat n - 1) "End of Backtest")
                   <$> currentTrades s)) as [H1 H2].
    + eapply Forall_impl; [exact Htr|]. intros c [? ?]. split; lia.
    + done.
    + apply Forall_fmap. eapply Forall_impl; [exact Hcur|]. intros t Ht.
      simpl in Ht |- *.
      rewrite closeTrade_entryIndex, closeTrade_exitIndex.
      rewrite CppFacts.to_int_small by (unfold Cpp.INT_MAX in Hmax; lia). lia.
    + split; [|done].
      eapply Forall_impl; [exact H1|]. intros c [? ?]. split; lia.
  - intros i s0 s0' Hi (Hcur & Htr & Hsorted) Hstep.
    assert (0 ≤ i ≤ Cpp.INT_MAX) as Hi' by lia.
    apply barStep_Ok_inv_state in Hstep
      as (price & es & xs & closed & _ & _ & _ & -> & Hcur' & Hcl & _).
    assert (∀ t, t ∈ (revalue price <$> currentTrades s0) ∨ opened_by this i price es t →
                 0 ≤ entryIndex t ≤ i) as Hpos.
    { intros t [Hin|(_ & Hidx & _)].
      - apply list_elem_of_fmap in Hin as (t0 & -> & Hin).
        rewrite Forall_forall in Hcur. specialize (Hcur t0 Hin). simpl. lia.
      - rewrite Hidx, CppFacts.to_int_small by (unfold Cpp.INT_MAX in Hi'; lia). lia. }
    split.
    { eapply Forall_impl; [exact Hcur'|]. intros t Ht. specialize (Hpos t Ht). lia. }
    apply ledger_extend; [|done|].
    + eapply Forall_impl; [exact Htr|]. intros c [? ?]. split; lia.
    + eapply Forall_impl; [exact Hcl|]. intros c (t & Ht & Hc).
      destruct (closed_from_indices _ _ _ _ _ Hi' Hc) as [-> ->].
      split; [by apply Hpos | done].
  - simpl. repeat split; constructor.
Qed.

Lemma ledger_indices_ordered_witness :
  ∃ sd trades_,
    simulate Example.stack_object [1; 1; 1] [0; 0; 0] = Ok (sd, trades_)
    ∧ length trades_ = 2%nat
    ∧ Forall (indexed_within 3) trades_
    ∧ StronglySorted by_exit_index trades_.
Proof.
  destruct (simulate Example.stack_object [1; 1; 1] [0; 0; 0])
    as [[sd trades_]|e] eqn:E; [|vm_compute in E; discriminate E].
  exists sd, trades_. split; [done|]. split.
  - vm_compute in E. by injection E as _ <-.
  - apply (ledger_indices_ordered _ _ _ _ _ E). vm_compute. discriminate.
Defined.

(** ** The series of a completed run *)

Section SeriesFacts.

Variable this : Backtest.
Variables (entries_ exits_ : list Z).

Lemma finalizeSeries_Ok_inv s1 lastIndex sd1 :
  finalizeSeries this s1 lastIndex = Ok sd1 →
  (currentTrades s1 = [] ∧ sd1 = seriesData s1)
  ∨ (currentTrades s1 ≠ []
     ∧ 0 ≤ lastIndex < Z.of_nat (length (availableCapital (seriesData s1)))
     ∧ 0 ≤ lastIndex < Z.of_nat (length (positionValue (seriesData s1)))
     ∧ 0 ≤ lastIndex < Z.of_nat (length (totalCapital (seriesData s1)))
     ∧ let value := if negb (forceCloseAtEnd this)
                    then sumCurrentValue (currentTrades s1) else 0%float in
       availableCapital sd1 =
         <[Z.to_nat lastIndex := currentCapital s1]> (availableCapital (seriesData s1))
       ∧ positionValue sd1 =
           <[Z.to_nat lastIndex := value]> (positionValue (seriesData s1))
       ∧ totalCapital sd1 =
           <[Z.to_nat lastIndex := (currentCapital s1 + value)%float]>
             (totalCapital (seriesData s1))
       ∧ dailyReturn sd1 = dailyReturn (seriesData s1)).
Proof.
  unfold finalizeSeries. case_bool_decide as Hcur.
  - intros H. right.
    apply bind_Ok in H as (av & Hav & H). apply vec_set_Ok in Hav as [Hi1 ->].
    apply bind_Ok in H as (pv & Hpv & H). apply vec_set_Ok in Hpv as [Hi2 ->].
    apply bind_Ok in H as (tc & Htc & H). apply vec_set_Ok in Htc as [Hi3 ->].
    injection H as <-. done.
  - intros [= <-]. left. split; [|done].
    destruct (currentTrades s1); [done|]. by destruct Hcur.
Qed.

(** After at least one bar, the last entries written to the series are
    those of the state the loop is in. *)
Lemma barLoop_last_written n (k : nat) s s' :
  barLoop this entries_ exits_ (S n) (Z.of_nat k) s = Ok s' →
  let last := (k + n)%nat in
  availableCapital (seriesData s') !! last = Some (currentCapital s')
  ∧ positionValue (seriesData s') !! last = Some (sumCurrentValue (currentTrades s'))
  ∧ totalCapital (seriesData s') !! last =
      Some (currentCapital s' + sumCurrentValue (currentTrades s'))%float.
Proof.
  revert k s. induction n as [|n IH]; intros k s H.
  - simpl in H. apply bind_Ok in H as (s1 & H1 & H2). injection H2 as <-.
    apply barStep_Ok_inv in H1 as (Hi1 & Hi2 & Hi3 & _ & _ & E1 & E2 & E3 & _).
    simpl. rewrite E1, E2, E3, Nat.add_0_r, Nat2Z.id.
    rewrite !list_lookup_insert_eq by lia. done.
  - change (barLoop this entries_ exits_ (S (S n)) (Z.of_nat k) s)
      with (barStep this entries_ exits_ (Z.of_nat k) s
            ≫= λ s1, barLoop this entries_ exits_ (S n) (Z.of_nat k + 1) s1) in H.
    apply bind_Ok in H as (s1 & _ & H2).
    replace (Z.of_nat k + 1) with (Z.of_nat (S k)) in H2 by lia.
    apply IH in H2. simpl in H2 |- *.
    by replace (k + S n)%nat with (S (k + n)) by lia.
Qed.

(** X5.  With [forceCloseAtEnd], the position value recorded for the last
    bar of a completed run is [0.0], and the total capital of that bar is
    its free capital plus [0.0]: the last bar shows the portfolio after
    the end-of-run closures. *)
Theorem force_close_flattens_last_bar sd trades_ :
  simulate this entries_ exits_ = Ok (sd, trades_) →
  Z.of_nat (length (prices (data this))) ≤ 2 ^ 64 →
  forceCloseAtEnd this = true →
  let last := (length (prices (data this)) - 1)%nat in
  ∃ free,
    availableCapital sd !! last = Some free
    ∧ positionValue sd !! last = Some 0%float
    ∧ totalCapital sd !! last = Some (free + 0)%float.
Proof.
  intros H Hmax Hforce last.
  destruct (simulate_last_index this entries_ exits_ sd trades_ H Hmax) as [Hn Hlast].
  apply simulate_Ok_inv in H
    as (s & lastPrice & d & cum & Hloop & _ & _ & (s1 & Hfin & Hsd & Hlen & _) & _).
  rewrite Hlast in Hfin.
  destruct (length (prices (data this))) as [|n] eqn:En; [lia|].
  apply (barLoop_last_written n 0) in Hloop as (Hav & Hpv & Htc).
  simpl in Hav, Hpv, Htc.
  assert (last = n) as -> by (unfold last; lia).
  apply finalizeSeries_Ok_inv in Hfin as [[Hnil E]|(Hne & Hi1 & Hi2 & Hi3 & E)].
  - assert (currentTrades s = []) as Hs.
    { rewrite Hnil in Hlen. by destruct (currentTrades s). }
    rewrite Hs in Hpv, Htc. rewrite Hsd in E.
    assert (availableCapital sd = availableCapital (seriesData s)
            ∧ positionValue sd = positionValue (seriesData s)
            ∧ totalCapital sd = totalCapital (seriesData s)) as (-> & -> & ->).
    { by rewrite <- E. }
    exists (currentCapital s). done.
  - simpl in E. rewrite Hforce in E. simpl in E.
    destruct E as (Eav & Epv & Etc & _). simpl in Eav, Epv, Etc.
    replace (Z.to_nat (Z.of_nat (S n) - 1)) with n in Eav, Epv, Etc by lia.
    rewrite Eav, Epv, Etc.
    exists (currentCapital s1). rewrite !list_lookup_insert_eq by lia. done.
Qed.

End SeriesFacts.

Lemma force_close_flattens_witness :
  ∃ sd trades_ free,
    simulate Example.stack_object [1; 1; 1] [0; 0; 0] = Ok (sd, trades_)
    ∧ availableCapital sd !! 2%nat = Some free
    ∧ positionValue sd !! 2%nat = Some 0%float
    ∧ totalCapital sd !! 2%nat = Some (free + 0)%float.
Proof.
  destruct (simulate Example.stack_object [1; 1; 1] [0; 0; 0])
    as [[sd trades_]|e] eqn:E; [|vm_compute in E; discriminate E].
  destruct (force_close_flattens_last_bar _ _ _ sd trades_ E) as (free & H).
  - vm_compute. discriminate.
  - reflexivity.
  - exists sd, trades_, free. split; [reflexivity | exact H].
Defined.

(** ** End-of-run closures, bar returns and cumulative returns *)

Lemma closed_by_rule_not_at_end c :
  closed_by_rule c → exitReason c ≠ "End of Backtest".
Proof.
  intros (reason & Hin & ->). unfold ordinary_reasons in Hin.
  repeat (apply elem_of_cons in Hin as [->|Hin]; [discriminate|]).
  by apply elem_of_nil in Hin.
Qed.

Lemma valid_input_dailyReturn this entries_ exits_ :
  valid_input this entries_ exits_ →
  dailyReturn (data this) = replicate (length (prices (data this))) 0%float.
Proof.
  intros [(p & d & a & H)|(p & d & a & em & xm & k & H & _)].
  - by apply Backtest_single_Ok in H as [-> _].
  - by apply Backtest_multi_Ok in H as [-> _].
Qed.

Lemma bar_return_of_insert total (k j : nat) v :
  (j < k)%nat → bar_return_of (<[k := v]> total) j = bar_return_of total j.
Proof.
  intros Hj. destruct j as [|j]; [done|]. simpl.
  by rewrite !list_lookup_insert_ne by lia.
Qed.

Lemma recordDailyReturn_Ok_inv total dr (k : nat) dr' :
  recordDailyReturn total dr (Z.of_nat k) = Ok dr' →
  is_Some (total !! k) →
  (∀ j, j ≠ k → dr' !! j = dr !! j)
  ∧ (dr !! k = Some 0%float → dr' !! k = bar_return_of total k).
Proof.
  unfold recordDailyReturn. intros H [cur Hcur].
  destruct k as [|k].
  - simpl in H. injection H as <-. done.
  - replace (0 <? Z.of_nat (S k)) with true in H by (symmetry; apply Z.ltb_lt; lia).
    apply bind_Ok in H as (prev & Hprev & H).
    apply vec_get_Ok in Hprev as [_ Hprev].
    replace (Z.to_nat (Z.of_nat (S k) - 1)) with k in Hprev by lia.
    simpl bar_return_of. rewrite Hprev, Hcur.
    destruct (0 <? prev)%float.
    + apply bind_Ok in H as (cur' & Hcur' & H).
      apply vec_get_Ok in Hcur' as [_ Hcur']. rewrite Nat2Z.id in Hcur'.
      assert (cur' = cur) as -> by congruence.
      apply vec_set_Ok in H as [Hi ->]. rewrite Nat2Z.id. split.
      * intros j Hj. by rewrite list_lookup_insert_ne.
      * intros _. by rewrite list_lookup_insert_eq by lia.
    + injection H as <-. done.
Qed.

Lemma cumulativeLoop_Ok_inv n (k : nat) acc dr out out' :
  cumulativeLoop n (Z.of_nat k) acc dr out = Ok out' →
  acc = compound (take k dr) →
  (∀ j, (k ≤ j < k + n)%nat →
        out' !! j = Some ((compound (take (S j) dr) - 1) * 100)%float)
  ∧ (∀ j, (j < k)%nat → out' !! j = out !! j).
Proof.
  revert k acc out. induction n as [|n IH]; intros k acc out H Hacc.
  - simpl in H. injection H as <-. split; [lia | done].
  - simpl in H. apply bind_Ok in H as (r & Hr & H).
    apply vec_get_Ok in Hr as [_ Hr]. rewrite Nat2Z.id in Hr.
    apply bind_Ok in H as (out1 & Hout1 & H).
    apply vec_set_Ok in Hout1 as [Hi ->]. rewrite Nat2Z.id in H.
    replace (Z.of_nat k + 1) with (Z.of_nat (S k)) in H by lia.
    assert ((acc * (1 + r))%float = compound (take (S k) dr)) as Hacc'.
    { rewrite (take_S_r _ _ _ Hr). unfold compound.
      by rewrite fold_left_app, Hacc. }
    apply IH in H as [Hnew Hold]; [|done]. split.
    + intros j Hj. destruct (decide (j = k)) as [->|Hne].
      * rewrite Hold by lia. rewrite list_lookup_insert_eq by lia.
        by rewrite Hacc'.
      * apply Hnew. lia.
    + intros j Hj. rewrite Hold by lia. by rewrite list_lookup_insert_ne by lia.
Qed.

Section RunSeries.

Variable this : Backtest.
Variables (entries_ exits_ : list Z).

Lemma barStep_dailyReturn i s s' :
  barStep this entries_ exits_ i s = Ok s' →
  recordDailyReturn (totalCapital (seriesData s')) (dailyReturn (seriesData s)) i
  = Ok (dailyReturn (seriesData s')).
Proof.
  unfold barStep. intros H.
  apply bind_Ok in H as (price & _ & H).
  apply bind_Ok in H as (entrySignal & _ & H).
  apply bind_Ok in H as (exitSignal & _ & H).
  simpl in H.
  apply bind_Ok in H as ([[[h cur] tr] cap] & _ & H). simpl in H.
  apply bind_Ok in H as (av & _ & H).
  apply bind_Ok in H as (pv & _ & H).
  apply bind_Ok in H as (tc & _ & H).
  apply bind_Ok in H as (dr & Hdr & H).
  injection H as <-. done.
Qed.

(** While the loop runs, the returns of the bars behind it follow from the
    totals, and those of the bars ahead are as the constructor left them. *)
Lemma barLoop_dailyReturn (n : nat) s s' :
  (∀ j, (j < n)%nat → dailyReturn (seriesData s) !! j = Some 0%float) →
  barLoop this entries_ exits_ n 0 s = Ok s' →
  ∀ j, (j < n)%nat →
       dailyReturn (seriesData s') !! j = bar_return_of (totalCapital (seriesData s')) j.
Proof.
  intros Hzero H.
  apply (barLoop_invariant_at this entries_ exits_
           (λ i s, (∀ j, Z.of_nat j < i →
                         dailyReturn (seriesData s) !! j
                         = bar_return_of (totalCapital (seriesData s)) j)
                   ∧ (∀ j, i ≤ Z.of_nat j → (j < n)%nat →
                           dailyReturn (seriesData s) !! j = Some 0%float))) in H.
  - destruct H as [H _]. intros j Hj. apply H. lia.
  - intros i s0 s0' Hi [Hdone Htodo] Hstep.
    pose proof (barStep_dailyReturn _ _ _ Hstep) as Hdr.
    apply barStep_Ok_inv in Hstep as (_ & _ & Hi3 & _ & _ & _ & _ & Etc & _).
    simpl in Hi3, Etc.
    replace i with (Z.of_nat (Z.to_nat i)) in Hdr by lia.
    apply recordDailyReturn_Ok_inv in Hdr as [Hother Hthis].
    2: { rewrite Etc. apply lookup_lt_is_Some. rewrite length_insert. lia. }
    split.
    + intros j Hj. destruct (decide (j = Z.to_nat i)) as [->|Hne].
      * apply Hthis, Htodo; lia.
      * rewrite Hother by done. rewrite Etc, bar_return_of_insert by lia.
        apply Hdone. lia.
    + intros j Hj Hn. rewrite Hother by lia. apply Htodo; [lia | done].
  - split; [lia|]. intros j _ Hj. by apply Hzero.
Qed.

(** X6.  The ledger of a completed run is the closures of the bar loop
    followed by the end-of-run closures: the former carry the reason of an
    exit rule, never ["End of Backtest"]; the latter carry
    ["End of Backtest"], all close at the last bar [N - 1], and there is
    none when [forceCloseAtEnd] is off. *)
Theorem end_of_run_closures_come_last sd trades_ :
  simulate this entries_ exits_ = Ok (sd, trades_) →
  Z.of_nat (length (prices (data this))) ≤ Cpp.INT_MAX + 1 →
  ∃ during atEnd,
    trades_ = during ++ atEnd
    ∧ Forall (λ c, closed_by_rule c ∧ exitReason c ≠ "End of Backtest") during
    ∧ Forall (closed_at_end (Z.of_nat (length (prices (data this))))) atEnd
    ∧ (forceCloseAtEnd this = false → atEnd = []).
Proof.
  intros H Hmax.
  destruct (simulate_last_index this entries_ exits_ sd trades_ H) as [Hn Hlast].
  { unfold Cpp.INT_MAX in Hmax. lia. }
  apply simulate_Ok_inv in H as (s & lastPrice & d & _ & Hloop & _ & -> & _).
  rewrite Hlast.
  assert (Forall closed_by_rule (trades s)) as Hledger.
  { refine (proj2 (barLoop_open_ledger this entries_ exits_ (λ _, True) closed_by_rule
                     _ _ _ _ _ _ _ _ _ Hloop)).
    - done.
    - done.
    - intros i price t c _ (d' & reason & Hin & ->).
      exists reason. by rewrite closeTrade_exitReason.
    - by apply Forall_true.
    - constructor. }
  assert (Forall (λ c, closed_by_rule c ∧ exitReason c ≠ "End of Backtest") (trades s))
    as Hduring.
  { eapply Forall_impl; [exact Hledger|]. intros c Hc.
    split; [done | by apply closed_by_rule_not_at_end]. }
  destruct (forceCloseAtEnd this).
  - eexists _, _. split; [done|]. split; [done|]. split; [|done].
    apply Forall_fmap, Forall_true. intros t. unfold closed_at_end. simpl.
    rewrite closeTrade_exitReason, closeTrade_exitIndex.
    split; [done|]. apply CppFacts.to_int_small. unfold Cpp.INT_MAX in Hmax. lia.
  - exists (trades s), []. rewrite app_nil_r. done.
Qed.

(** X7.  In a completed run on an object a constructor accepted, the
    return recorded for a bar follows from the recorded totals: [0.0] for
    the first bar and after a total that is not positive, and
    [total[j] / total[j-1] - 1] otherwise.  This holds for every bar but
    the last, and for the last bar too when [forceCloseAtEnd] is off (with
    it on, the total of the last bar is overwritten after its return has
    been taken). *)
Theorem bar_returns_follow_totals sd trades_ :
  valid_input this entries_ exits_ →
  simulate this entries_ exits_ = Ok (sd, trades_) →
  Z.of_nat (length (prices (data this))) ≤ 2 ^ 64 →
  ∀ j, (j < length (prices (data this)))%nat →
       j = 0%nat ∨ (j + 1 < length (prices (data this)))%nat
       ∨ forceCloseAtEnd this = false →
       dailyReturn sd !! j = bar_return_of (totalCapital sd) j.
Proof.
  intros Hvalid H Hmax j Hj Hwhich.
  destruct (simulate_last_index this entries_ exits_ sd trades_ H Hmax) as [Hn Hlast].
  apply simulate_Ok_inv in H
    as (s & lastPrice & d & cum & Hloop & _ & _ & (s1 & Hfin & Hsd & _ & Hsame) & _).
  rewrite Hlast in Hfin.
  assert (dailyReturn (seriesData s) !! j
          = bar_return_of (totalCapital (seriesData s)) j) as Hreturns.
  { refine (barLoop_dailyReturn _ _ _ _ Hloop j Hj).
    intros k Hk. unfold initialSim. simpl.
    rewrite (valid_input_dailyReturn _ _ _ Hvalid).
    by apply lookup_replicate_2. }
  apply finalizeSeries_Ok_inv in Hfin as [[_ E]|(_ & _ & _ & Hi3 & E)].
  - rewrite Hsd in E.
    assert (dailyReturn sd = dailyReturn (seriesData s)
            ∧ totalCapital sd = totalCapital (seriesData s)) as [-> ->].
    { by rewrite <- E. }
    done.
  - simpl in E. destruct E as (_ & _ & Etc & Edr). simpl in Etc, Edr.
    rewrite Hsd in Etc, Edr, Hi3. rewrite Edr, Etc, Hreturns.
    destruct Hwhich as [->|[Hbefore|Hoff]].
    + done.
    + symmetry. apply bar_return_of_insert. lia.
    + rewrite (Hsame Hoff), Hoff. simpl.
      destruct (length (prices (data this))) as [|n] eqn:En; [lia|].
      apply (barLoop_last_written this entries_ exits_ n 0) in Hloop as (_ & _ & Htc).
      simpl in Htc.
      replace (Z.to_nat (Z.of_nat (S n) - 1)) with n by lia.
      by rewrite list_insert_id.
Qed.

(** X8.  In a completed run the cumulative return recorded for bar [j] is
    the compounded growth of the bar returns up to and including [j], as
    a percentage: [(compound (dailyReturn[0..j]) - 1) * 100]. *)
Theorem cumulative_return_compounds sd trades_ :
  simulate this entries_ exits_ = Ok (sd, trades_) →
  ∀ j, (j < length (prices (data this)))%nat →
       cumulativeReturn sd !! j
       = Some ((compound (take (S j) (dailyReturn sd)) - 1) * 100)%float.
Proof.
  intros H j Hj.
  apply simulate_Ok_inv in H as (s & lastPrice & d & cum & _ & _ & _ & _ & Hcum & -> & _).
  apply (cumulativeLoop_Ok_inv _ 0) in Hcum as [Hcum _]; [|done].
  apply Hcum. lia.
Qed.

End RunSeries.

Lemma end_of_run_closures_witness :
  ∃ sd trades_ during atEnd,
    simulate Example.stack_object [1; 1; 1] [0; 0; 0] = Ok (sd, trades_)
    ∧ trades_ = during ++ atEnd
    ∧ Forall (λ c, closed_by_rule c ∧ exitReason c ≠ "End of Backtest") during
    ∧ Forall (closed_at_end 3) atEnd.
Proof.
  destruct (simulate Example.stack_object [1; 1; 1] [0; 0; 0])
    as [[sd trades_]|e] eqn:E; [|vm_compute in E; discriminate E].
  destruct (end_of_run_closures_come_last _ _ _ sd trades_ E)
    as (during & atEnd & H1 & H2 & H3 & _).
  - vm_compute. discriminate.
  - exists sd, trades_, during, atEnd.
    split; [reflexivity|]. split; [exact H1|]. split; [exact H2 | exact H3].
Defined.

Lemma bar_returns_witness :
  ∃ sd trades_,
    simulate Example.stack_object [1; 1; 1] [0; 0; 0] = Ok (sd, trades_)
    ∧ dailyReturn sd !! 1%nat = bar_return_of (totalCapital sd) 1.
Proof.
  destruct (simulate Example.stack_object [1; 1; 1] [0; 0; 0])
    as [[sd trades_]|e] eqn:E; [|vm_compute in E; discriminate E].
  exists sd, trades_. split; [reflexivity|].
  apply (bar_returns_follow_totals Example.stack_object [1; 1; 1] [0; 0; 0]
           sd trades_).
  - left. exists [100; 100; 100]%float, [0; 1; 2], Example.stack_args. reflexivity.
  - exact E.
  - vm_compute. discriminate.
  - simpl. lia.
  - right. left. simpl. lia.
Defined.

Lemma cumulative_return_witness :
  ∃ sd trades_,
    simulate Example.stack_object [1; 1; 1] [0; 0; 0] = Ok (sd, trades_)
    ∧ cumulativeReturn sd !! 2%nat
      = Some ((compound (take 3 (dailyReturn sd)) - 1) * 100)%float.
Proof.
  destruct (simulate Example.stack_object [1; 1; 1] [0; 0; 0])
    as [[sd trades_]|e] eqn:E; [|vm_compute in E; discriminate E].
  exists sd, trades_. split; [reflexivity|].
  apply (cumulative_return_compounds Example.stack_object [1; 1; 1] [0; 0; 0]
           sd trades_ E).
  simpl. lia.
Defined.

(** ** How many trades a run can make *)

Section CountFacts.

Variable this : Backtest.

Lemma processEntrySignals_count cur seriesData_ i price entrySignal capital
    hasEntered cur' capital' :
  processEntrySignals this cur seriesData_ i price entrySignal capital =
    Ok (hasEntered, cur', capital') →
  (length cur' ≤ length cur + (if decide (is_entry_signal entrySignal) then 1 else 0))%nat.
Proof.
  intros H. apply processEntrySignals_Ok_inv in H
    as [[-> _]|(t & -> & _ & _ & _ & _ & _ & Hsig & _)]; [lia|].
  rewrite decide_True; [rewrite length_app; simpl; lia|].
  unfold is_entry_signal. destruct Hsig as [[-> _]|[-> _]]; auto.
Qed.

Lemma processEntrySignals_idle cur seriesData_ i price entrySignal capital :
  ¬ is_entry_signal entrySignal →
  processEntrySignals this cur seriesData_ i price entrySignal capital =
  Ok (false, cur, capital).
Proof.
  unfold is_entry_signal, processEntrySignals. intros Hno.
  rewrite (bool_decide_false (entrySignal = 1)) by tauto.
  rewrite (bool_decide_false (entrySignal = -1)) by tauto.
  by rewrite andb_false_r.
Qed.

Lemma applySignals_count cur trades_ seriesData_ i price entrySignal exitSignal
    capital hasEntered cur' trades' capital' :
  applySignals this cur trades_ seriesData_ i price entrySignal exitSignal capital =
    Ok (hasEntered, cur', trades', capital') →
  (length trades' + length cur'
   ≤ length trades_ + length cur
     + (if decide (is_entry_signal entrySignal) then 1 else 0))%nat.
Proof.
  unfold applySignals. intros H.
  destruct (bool_decide (signalPriority this = EXIT_FIRST)
            || bool_decide (signalPriority this = SAME_BAR_TRADE)).
  - apply bind_Ok in H as ([[[h1 cur1] trades1] cap1] & H1 & H). simpl in H.
    apply bind_Ok in H as ([[h2 cur2] cap2] & H2 & H). simpl in H.
    apply processExitSignals_Ok_inv in H1 as (closed1 & -> & Hlen1 & _).
    apply processEntrySignals_count in H2.
    destruct (bool_decide (signalPriority this = SAME_BAR_TRADE) && h2
              && negb (exitSignal =? 0)).
    + apply bind_Ok in H as ([[[h3 cur3] trades3] cap3] & H3 & H). simpl in H.
      injection H as <- <- <- <-.
      apply processExitSignals_Ok_inv in H3 as (closed3 & -> & Hlen3 & _).
      rewrite !length_app. lia.
    + injection H as <- <- <- <-. rewrite length_app. lia.
  - apply bind_Ok in H as ([[h1 cur1] cap1] & H1 & H). simpl in H.
    apply bind_Ok in H as ([[[h2 cur2] trades2] cap2] & H2 & H). simpl in H.
    injection H as <- <- <- <-.
    apply processEntrySignals_count in H1.
    apply processExitSignals_Ok_inv in H2 as (closed2 & -> & Hlen2 & _).
    rewrite length_app. lia.
Qed.

(** With no position open and no entry signal, a bar changes nothing. *)
Lemma applySignals_idle trades_ seriesData_ i price entrySignal exitSignal capital :
  ¬ is_entry_signal entrySignal →
  applySignals this [] trades_ seriesData_ i price entrySignal exitSignal capital =
  Ok (false, [], trades_, capital).
Proof.
  intros Hno. unfold applySignals, processExitSignals. simpl.
  rewrite !processEntrySignals_idle by done. simpl.
  rewrite andb_false_r. simpl.
  by destruct (bool_decide (signalPriority this = EXIT_FIRST)
               || bool_decide (signalPriority this = SAME_BAR_TRADE)).
Qed.

Variables (entries_ exits_ : list Z).

(** The call of the signal processors inside a bar. *)
Lemma barStep_applySignals i s s' :
  barStep this entries_ exits_ i s = Ok s' →
  ∃ price entrySignal exitSignal hasEntered,
    vec_get (prices (seriesData s)) i = Ok price
    ∧ vec_get entries_ i = Ok entrySignal
    ∧ vec_get exits_ i = Ok exitSignal
    ∧ applySignals this (revalue price <$> currentTrades s) (trades s) (seriesData s)
        i price entrySignal exitSignal (currentCapital s)
      = Ok (hasEntered, currentTrades s', trades s', currentCapital s').
Proof.
  unfold barStep. intros H.
  apply bind_Ok in H as (price & Hp & H).
  apply bind_Ok in H as (entrySignal & He & H).
  apply bind_Ok in H as (exitSignal & Hx & H).
  simpl in H.
  apply bind_Ok in H as ([[[h cur] tr] cap] & Happly & H). simpl in H.
  apply bind_Ok in H as (av & _ & H).
  apply bind_Ok in H as (pv & _ & H).
  apply bind_Ok in H as (tc & _ & H).
  apply bind_Ok in H as (dr & _ & H).
  injection H as <-. simpl.
  exists price, entrySignal, exitSignal, h. done.
Qed.

Lemma entry_signals_step (k : nat) e :
  entries_ !! k = Some e →
  entry_signals (S k) entries_
  = (entry_signals k entries_ + (if decide (is_entry_signal e) then 1 else 0))%nat.
Proof.
  intros He. unfold entry_signals.
  rewrite (take_S_r _ _ _ He), filter_app, length_app. f_equal.
  rewrite filter_cons, filter_nil. by destruct (decide (is_entry_signal e)).
Qed.

Lemma entry_signals_le (n : nat) : (entry_signals n entries_ ≤ n)%nat.
Proof.
  unfold entry_signals.
  etransitivity; [apply length_filter|]. rewrite length_take. lia.
Qed.

Lemma barLoop_count (n : nat) s s' :
  barLoop this entries_ exits_ n 0 s = Ok s' →
  (length (trades s) + length (currentTrades s) = 0)%nat →
  (length (trades s') + length (currentTrades s') ≤ entry_signals n entries_)%nat.
Proof.
  intros H Hzero.
  apply (barLoop_invariant_at this entries_ exits_
           (λ i s, (length (trades s) + length (currentTrades s)
                    ≤ entry_signals (Z.to_nat i) entries_)%nat)) in H.
  - by replace (Z.to_nat (0 + Z.of_nat n)) with n in H by lia.
  - intros i s0 s0' Hi Hcount Hstep.
    apply barStep_applySignals in Hstep as (price & es & xs & h & _ & Hes & _ & Happly).
    apply applySignals_count in Happly. rewrite length_fmap in Happly.
    apply vec_get_Ok in Hes as [_ Hes].
    replace (Z.to_nat (i + 1)) with (S (Z.to_nat i)) by lia.
    rewrite (entry_signals_step _ _ Hes). lia.
  - lia.
Qed.

Lemma simulate_ledger_length sd trades_ :
  simulate this entries_ exits_ = Ok (sd, trades_) →
  (length trades_ ≤ entry_signals (length (prices (data this))) entries_)%nat.
Proof.
  intros H.
  apply simulate_Ok_inv in H as (s & lastPrice & d & _ & Hloop & _ & -> & _).
  apply barLoop_count in Hloop; [|done].
  destruct (forceCloseAtEnd this).
  - rewrite length_app, length_fmap. lia.
  - lia.
Qed.

(** X9.  A completed run makes at most one trade for each bar that carries
    an entry signal ([1] or [-1]): the ledger is never longer than the
    number of such bars, hence never longer than the series. *)
Theorem one_trade_per_entry_signal sd trades_ :
  simulate this entries_ exits_ = Ok (sd, trades_) →
  let n := length (prices (data this)) in
  (length trades_ ≤ entry_signals n entries_ ≤ n)%nat.
Proof.
  intros H n. split; [|apply entry_signals_le].
  apply simulate_Ok_inv in H as (s & lastPrice & d & _ & Hloop & _ & -> & _).
  apply barLoop_count in Hloop; [|done]. fold n in Hloop.
  destruct (forceCloseAtEnd this).
  - rewrite length_app, length_fmap. lia.
  - lia.
Qed.

(** X10.  A run without any entry signal trades nothing and leaves the
    capital alone: the ledger is empty, and at every bar the free capital
    is the initial capital, the position value is [0.0] and the total is
    their sum. *)
Theorem no_entry_signal_no_trade sd trades_ :
  simulate this entries_ exits_ = Ok (sd, trades_) →
  Forall (λ e, ¬ is_entry_signal e) entries_ →
  trades_ = []
  ∧ ∀ j, (j < length (prices (data this)))%nat →
         availableCapital sd !! j = Some (startFund this)
         ∧ positionValue sd !! j = Some 0%float
         ∧ totalCapital sd !! j = Some (startFund this + 0)%float.
Proof.
  intros H Hquiet.
  apply simulate_Ok_inv in H
    as (s & lastPrice & d & cum & Hloop & _ & -> & (s1 & Hfin & Hsd & Hlen & _) & _).
  apply (barLoop_invariant_at this entries_ exits_
           (λ i s, currentTrades s = [] ∧ trades s = []
                   ∧ currentCapital s = startFund this
                   ∧ ∀ j, Z.of_nat j < i →
                          availableCapital (seriesData s) !! j = Some (startFund this)
                          ∧ positionValue (seriesData s) !! j = Some 0%float
                          ∧ totalCapital (seriesData s) !! j
                            = Some (startFund this + 0)%float)) in Hloop.
  - destruct Hloop as (Hcur & Htr & _ & Hflat).
    rewrite Hcur, Htr. split; [by destruct (forceCloseAtEnd this)|].
    rewrite Hcur in Hlen.
    apply finalizeSeries_Ok_inv in Hfin as [[_ E]|(Hne & _)].
    + rewrite Hsd in E.
      assert (availableCapital sd = availableCapital (seriesData s)
              ∧ positionValue sd = positionValue (seriesData s)
              ∧ totalCapital sd = totalCapital (seriesData s)) as (-> & -> & ->).
      { by rewrite <- E. }
      intros j Hj. apply Hflat. lia.
    + by destruct (currentTrades s1).
  - intros i s0 s0' Hi (Hcur & Htr & Hcap & Hflat) Hstep.
    pose proof (barStep_Ok_inv _ _ _ _ _ _ Hstep)
      as (Hi1 & Hi2 & Hi3 & _ & _ & Eav & Epv & Etc & _).
    apply barStep_applySignals in Hstep as (price & es & xs & h & _ & Hes & _ & Happly).
    apply vec_get_Ok in Hes as [_ Hes].
    rewrite Hcur in Happly. simpl in Happly.
    rewrite applySignals_idle in Happly.
    2: { rewrite Forall_forall in Hquiet. eapply Hquiet, list_elem_of_lookup_2, Hes. }
    injection Happly as _ Hcur' Htr' Hcap'.
    rewrite <- Hcur', <- Hcap' in *. rewrite <- Htr'.
    split; [done|]. split; [done|]. split; [done|].
    intros j Hj. simpl in Eav, Epv, Etc. rewrite Eav, Epv, Etc.
    destruct (decide (j = Z.to_nat i)) as [->|Hne].
    + rewrite !list_lookup_insert_eq by lia. by rewrite Hcap.
    + rewrite !list_lookup_insert_ne by done. apply Hflat. lia.
  - unfold initialSim. simpl. repeat split; lia.
Qed.

End CountFacts.

Lemma one_trade_per_entry_signal_witness :
  ∃ sd trades_,
    simulate Example.stack_object [1; 1; 1] [0; 0; 0] = Ok (sd, trades_)
    ∧ (length trades_ ≤ entry_signals 3 [1; 1; 1]%Z)%nat
    ∧ (entry_signals 3 [1; 1; 1]%Z ≤ 3)%nat.
Proof.
  destruct (simulate Example.stack_object [1; 1; 1] [0; 0; 0])
    as [[sd trades_]|e] eqn:E; [|vm_compute in E; discriminate E].
  exists sd, trades_. split; [reflexivity|].
  exact (one_trade_per_entry_signal Example.stack_object [1; 1; 1] [0; 0; 0]
           sd trades_ E).
Defined.

Lemma no_entry_signal_witness :
  ∃ sd,
    simulate Example.stack_object [0; 2; 0] [0; 1; -1] = Ok (sd, [])
    ∧ availableCapital sd !! 1%nat = Some 1000%float
    ∧ positionValue sd !! 1%nat = Some 0%float.
Proof.
  destruct (simulate Example.stack_object [0; 2; 0] [0; 1; -1])
    as [[sd trades_]|e] eqn:E; [|vm_compute in E; discriminate E].
  destruct (no_entry_signal_no_trade Example.stack_object [0; 2; 0] [0; 1; -1]
              sd trades_ E) as [-> Hflat].
  - repeat constructor; unfold is_entry_signal; lia.
  - exists sd. split; [reflexivity|].
    destruct (Hflat 1%nat) as (Hav & Hpv & _); [simpl; lia|].
    split; [exact Hav | exact Hpv].
Defined.

(** ** The metrics of a run *)

Lemma tallyTrades_counts trades_ (w0 : Z) (p0 l0 : float) w p l :
  fold_left (λ '(winningTrades_, totalProfit, totalLoss) trade,
               if (0 <? profit trade)%float
               then (Cpp.to_int (winningTrades_ + 1),
                     (totalProfit + profit trade)%float, totalLoss)
               else (winningTrades_, totalProfit, (totalLoss - profit trade)%float))
    trades_ (w0, p0, l0) = (w, p, l) →
  0 ≤ w0 → w0 + Z.of_nat (length trades_) ≤ Cpp.INT_MAX →
  w = w0 + Z.of_nat (length (winners trades_))
  ∧ (winners trades_ = trades_ → l = l0).
Proof.
  unfold Cpp.INT_MAX, winners.
  revert w0 p0 l0. induction trades_ as [|t rest IH]; intros w0 p0 l0 H Hw Hmax.
  - simpl in H. injection H as <- _ <-. simpl. split; [lia | done].
  - simpl in H, Hmax. rewrite filter_cons.
    destruct (0 <? profit t)%float eqn:Hwin.
    + rewrite decide_True by done.
      rewrite CppFacts.to_int_small in H by lia.
      apply IH in H as [-> Hl]; [|lia|lia].
      split; [simpl; lia|]. intros Hall. apply Hl. by injection Hall.
    + rewrite decide_False by done.
      apply IH in H as [-> _]; [|lia|lia].
      split; [done|]. intros Hall.
      assert (length (filter (λ t0, (0 <? profit t0)%float = true) rest)
              ≤ length rest)%nat as Hle by apply length_filter.
      rewrite Hall in Hle. simpl in Hle. lia.
Qed.

Lemma equity_point_outside data_ j :
  Z.of_nat (length (totalCapital data_)) ≤ j → equity_point data_ j = None.
Proof.
  intros Hj. unfold equity_point.
  rewrite (lookup_ge_None_2 (totalCapital data_)) by lia.
  by destruct (dates data_ !! Z.to_nat j).
Qed.

Lemma equityCurveLoop_Ok_inv fuel data_ i stride acc out :
  1 ≤ stride → 0 ≤ i →
  Z.of_nat (length (totalCapital data_)) + stride ≤ 2 ^ 64 →
  Z.of_nat (length (totalCapital data_)) ≤ i + Z.of_nat fuel * stride →
  equityCurveLoop fuel data_ i stride acc = Ok out →
  ∃ points, out = acc ++ points
            ∧ ∀ k : nat, points !! k = equity_point data_ (i + Z.of_nat k * stride).
Proof.
  intros Hstride. revert i acc.
  induction fuel as [|fuel IH]; intros i acc Hi Hmax Hfuel H.
  - simpl in H. injection H as <-. exists []. rewrite app_nil_r. split; [done|].
    intros k. rewrite equity_point_outside; [done | nia].
  - simpl in H. destruct (i <? Z.of_nat (length (totalCapital data_))) eqn:Hlt.
    + apply Z.ltb_lt in Hlt.
      apply bind_Ok in H as (d & Hd & H). apply bind_Ok in H as (v & Hv & H).
      apply vec_get_Ok in Hd as [_ Hd]. apply vec_get_Ok in Hv as [_ Hv].
      rewrite CppFacts.to_size_t_small in H by lia.
      apply IH in H as (points & -> & Hpoints); [|lia|lia|nia].
      exists ((d, v) :: points). rewrite <- app_assoc. split; [done|].
      intros [|k].
      * simpl. rewrite Z.add_0_r. unfold equity_point. by rewrite Hd, Hv.
      * simpl. rewrite Hpoints. f_equal. lia.
    + apply Z.ltb_ge in Hlt. injection H as <-.
      exists []. rewrite app_nil_r. split; [done|].
      intros k. rewrite equity_point_outside; [done | nia].
Qed.

Section RunMetrics.

Variable pow : float → float → float.
Variable this : Backtest.

(** The fields of the metrics of a non-empty series. *)
Lemma calculateMetrics_Ok_inv data_ trades_ riskFreeRate m :
  calculateMetrics pow this data_ trades_ riskFreeRate = Ok m →
  totalCapital data_ ≠ [] →
  startValue m = startFund this
  ∧ vec_get (totalCapital data_) (Z.of_nat (length (totalCapital data_)) - 1)
    = Ok (endValue m)
  ∧ totalReturn m = ((endValue m / startValue m - 1) * 100)%float
  ∧ totalTrades m = Cpp.to_int (Z.of_nat (length trades_))
  ∧ winningTrades m = (tallyTrades trades_).1.1
  ∧ winRate m =
      (if 0 <? totalTrades m
       then (double_of_Z (winningTrades m) / double_of_Z (totalTrades m) * 100)%float
       else 0%float)
  ∧ profitFactor m =
      (if (0 <? (tallyTrades trades_).2)%float
       then ((tallyTrades trades_).1.2 / (tallyTrades trades_).2)%float
       else 0%float)
  ∧ calculateMaxDrawdown (totalCapital data_) = Ok (maxDrawdown m)
  ∧ equityCurveLoop (length (totalCapital data_)) data_ 0 (equity_stride data_) []
    = Ok (equityCurve m).
Proof.
  unfold calculateMetrics. intros H Hne.
  rewrite bool_decide_false in H by done.
  apply bind_Ok in H as (endValue_ & Hend & H).
  destruct (tallyTrades trades_) as [[w p] l].
  apply bind_Ok in H as (dd & Hdd & H).
  apply bind_Ok in H as (curve & Hcurve & H).
  injection H as <-. simpl. done.
Qed.

(** X13.  The equity curve of the metrics samples the series at the bars
    [0, stride, 2·stride, …] below its size, with
    [stride = max(1, size / 1000)]: its [k]-th point is the date and the
    total capital of bar [k·stride].  It never has more than 2000 points. *)
Theorem equity_curve_samples data_ trades_ riskFreeRate m :
  calculateMetrics pow this data_ trades_ riskFreeRate = Ok m →
  Z.of_nat (length (totalCapital data_)) ≤ 2 ^ 63 →
  (∀ k : nat, equityCurve m !! k = equity_point data_ (Z.of_nat k * equity_stride data_))
  ∧ (length (equityCurve m) ≤ 2000)%nat.
Proof.
  intros H Hmax.
  assert (∀ k : nat,
            equityCurve m !! k = equity_point data_ (Z.of_nat k * equity_stride data_))
    as Hpoints.
  { destruct (decide (totalCapital data_ = [])) as [Hnil|Hne].
    - unfold calculateMetrics in H. rewrite bool_decide_true in H by done.
      injection H as <-. intros k. simpl.
      rewrite equity_point_outside; [done|]. rewrite Hnil. simpl.
      unfold equity_stride. lia.
    - apply calculateMetrics_Ok_inv in H
        as (_ & _ & _ & _ & _ & _ & _ & _ & Hcurve); [|done].
      apply equityCurveLoop_Ok_inv in Hcurve as (points & -> & Hpoints).
      + intros k. simpl. by rewrite Hpoints.
      + unfold equity_stride. lia.
      + done.
      + unfold equity_stride.
        assert (Z.of_nat (length (totalCapital data_)) / 1000
                ≤ Z.of_nat (length (totalCapital data_)))
          by (apply Z.div_le_upper_bound; lia).
        lia.
      + unfold equity_stride. nia. }
  split; [done|].
  destruct (decide (length (equityCurve m) ≤ 2000)%nat) as [|Hlong]; [done|].
  exfalso.
  destruct (lookup_lt_is_Some_2 (equityCurve m) 2000) as [pt Hpt]; [lia|].
  rewrite Hpoints in Hpt.
  destruct (decide (Z.of_nat (length (totalCapital data_))
                    ≤ Z.of_nat 2000 * equity_stride data_)) as [Hout|Hin].
  - by rewrite equity_point_outside in Hpt.
  - unfold equity_stride in Hin.
    pose proof (Z.mul_succ_div_gt (Z.of_nat (length (totalCapital data_))) 1000
                  ltac:(lia)).
    lia.
Qed.

Variables (entries_ exits_ : list Z).

Lemma simulate_dates sd trades_ :
  simulate this entries_ exits_ = Ok (sd, trades_) →
  dates sd = dates (data this).
Proof.
  intros H.
  apply simulate_Ok_inv in H
    as (s & lastPrice & d & cum & Hloop & _ & _ & (s1 & Hfin & Hsd & _) & _).
  apply barLoop_inputs in Hloop as [_ Hdates]. simpl in Hdates.
  rewrite <- Hdates, <- Hsd.
  unfold finalizeSeries in Hfin. destruct (bool_decide _) in Hfin.
  - apply bind_Ok in Hfin as (av & _ & Hfin).
    apply bind_Ok in Hfin as (pv & _ & Hfin).
    apply bind_Ok in Hfin as (tc & _ & Hfin).
    injection Hfin as Hfin _. done.
  - injection Hfin as Hfin. by apply (f_equal dates) in Hfin.
Qed.

(** On well-sized, non-empty inputs the whole of [runSingleBacktest]
    completes. *)
Lemma runSingleBacktest_runs :
  well_sized (data this) entries_ exits_ →
  prices (data this) ≠ [] →
  Z.of_nat (length (prices (data this))) ≤ 2 ^ 64 →
  ∃ m trades_, runSingleBacktest pow this entries_ exits_ = Ok (m, trades_).
Proof.
  intros Hwf Hne Hmax.
  destruct (simulate_runs this entries_ exits_ Hwf Hne Hmax)
    as (sd & trades_ & Hsim & (_ & _ & Htc) & _).
  destruct (calculateMetrics_endValue pow this sd trades_ 0%float) as (m & Hm & _).
  - intros Hnil. rewrite Hnil in Htc. simpl in Htc.
    destruct (prices (data this)); [done | discriminate].
  - rewrite (simulate_dates _ _ Hsim), Htc. by destruct Hwf as (-> & _).
  - exists m, trades_. unfold runSingleBacktest. by rewrite Hsim; simpl; rewrite Hm.
Qed.

(** X11.  For every input a constructor has accepted, on a non-empty
    series, [runSingleBacktest] completes whatever [std::pow] computes: no
    read or write leaves a vector, in the simulation or in the metrics.
    The metrics start from the initial capital, end with the total capital
    of the last bar, and the total return relates the two. *)
Theorem run_completes_with_metrics :
  valid_input this entries_ exits_ →
  prices (data this) ≠ [] →
  Z.of_nat (length (prices (data this))) ≤ 2 ^ 64 →
  ∃ sd m trades_,
    simulate this entries_ exits_ = Ok (sd, trades_)
    ∧ runSingleBacktest pow this entries_ exits_ = Ok (m, trades_)
    ∧ startValue m = startFund this
    ∧ totalCapital sd !! (length (prices (data this)) - 1)%nat = Some (endValue m)
    ∧ totalReturn m = ((endValue m / startValue m - 1) * 100)%float.
Proof.
  intros Hvalid Hne Hmax.
  pose proof (valid_input_well_sized _ _ _ Hvalid) as Hwf.
  destruct (simulate_runs this entries_ exits_ Hwf Hne Hmax)
    as (sd & trades_ & Hsim & (_ & _ & Htc) & _).
  assert (totalCapital sd ≠ []) as Hne'.
  { intros Hnil. rewrite Hnil in Htc. simpl in Htc.
    destruct (prices (data this)); [done | discriminate]. }
  destruct (calculateMetrics_endValue pow this sd trades_ 0%float Hne')
    as (m & Hm & _).
  { rewrite (simulate_dates _ _ Hsim), Htc. by destruct Hwf as (-> & _). }
  exists sd, m, trades_. split; [done|].
  split; [unfold runSingleBacktest; by rewrite Hsim; simpl; rewrite Hm|].
  apply calculateMetrics_Ok_inv in Hm as (Hstart & Hend & Hret & _); [|done].
  split; [done|]. split; [|done].
  apply vec_get_Ok in Hend as [_ Hend]. rewrite <- Hend, Htc. f_equal. lia.
Qed.

(** X12.  The trade counts of the metrics are those of the ledger: for a
    run on fewer than [2^31] bars, [totalTrades] is the length of the
    ledger and [winningTrades] the number of its trades with a profit
    above [0.0].  With an empty ledger the win rate is [0.0]; with a
    ledger of winners only, the profit factor is [0.0] (there is no loss
    to divide by). *)
Theorem metrics_count_the_ledger m trades_ :
  runSingleBacktest pow this entries_ exits_ = Ok (m, trades_) →
  Z.of_nat (length (prices (data this))) ≤ Cpp.INT_MAX →
  totalTrades m = Z.of_nat (length trades_)
  ∧ winningTrades m = Z.of_nat (length (winners trades_))
  ∧ (trades_ = [] → winRate m = 0%float)
  ∧ (winners trades_ = trades_ → profitFactor m = 0%float).
Proof.
  intros H Hmax.
  apply runSingleBacktest_Ok_inv in H as (sd & Hsim & Hm).
  pose proof (simulate_ledger_length _ _ _ _ _ Hsim) as Hlen.
  pose proof (entry_signals_le entries_ (length (prices (data this)))) as Hle.
  assert (totalCapital sd ≠ []) as Hne.
  { destruct (simulate_last_index this entries_ exits_ sd trades_ Hsim) as [Hn _].
    { unfold Cpp.INT_MAX in Hmax. lia. }
    apply simulate_Ok_inv in Hsim
      as (s & lastPrice & d & cum & Hloop & _ & _ & (s1 & Hfin & Hsd & _) & _).
    destruct (length (prices (data this))) as [|n] eqn:En; [lia|].
    apply (barLoop_last_written this entries_ exits_ n 0) in Hloop as (_ & _ & Htc).
    apply finalizeSeries_Ok_inv in Hfin as [[_ E]|(_ & _ & _ & _ & E)].
    - rewrite Hsd in E.
      assert (totalCapital sd = totalCapital (seriesData s)) as -> by (by rewrite <- E).
      intros Hnil. by rewrite Hnil in Htc.
    - simpl in E. destruct E as (_ & _ & Etc & _). simpl in Etc.
      intros Hnil. rewrite Hnil in Etc. symmetry in Etc.
      apply (f_equal length) in Etc. rewrite length_insert, Hsd in Etc.
      destruct (totalCapital (seriesData s)); [done | discriminate]. }
  apply calculateMetrics_Ok_inv in Hm
    as (_ & _ & _ & Htotal & Hwin & Hrate & Hpf & _); [|done].
  rewrite CppFacts.to_int_small in Htotal by (unfold Cpp.INT_MAX in Hmax; lia).
  destruct (tallyTrades trades_) as [[w p] l] eqn:Htally.
  unfold tallyTrades in Htally.
  apply tallyTrades_counts in Htally as [Hw Hl]; [|lia|lia].
  simpl in Hwin, Hpf.
  split; [done|]. split; [by rewrite Hwin, Hw|]. split.
  - intros ->. rewrite Hrate, Htotal. done.
  - intros Hall. rewrite Hpf, (Hl Hall). done.
Qed.

End RunMetrics.

Lemma equity_curve_samples_witness :
  ∃ sd m trades_,
    simulate Example.stack_object [1; 1; 1] [0; 0; 0] = Ok (sd, trades_)
    ∧ calculateMetrics Scenario.any_pow Example.stack_object sd trades_ 0 = Ok m
    ∧ equityCurve m !! 2%nat = equity_point sd 2
    ∧ (length (equityCurve m) ≤ 2000)%nat.
Proof.
  destruct (simulate Example.stack_object [1; 1; 1] [0; 0; 0])
    as [[sd trades_]|e] eqn:E; [|vm_compute in E; discriminate E].
  destruct (calculateMetrics Scenario.any_pow Example.stack_object sd trades_ 0)
    as [m|e] eqn:Em.
  2: { vm_compute in E. injection E as <- <-. vm_compute in Em. discriminate Em. }
  exists sd, m, trades_. split; [reflexivity|]. split; [exact Em|].
  destruct (equity_curve_samples Scenario.any_pow Example.stack_object sd trades_
              0%float m Em) as [Hpoints Hlen].
  - vm_compute in E. injection E as <- <-. vm_compute. discriminate.
  - split; [|exact Hlen].
    rewrite (Hpoints 2%nat). f_equal.
    vm_compute in E. injection E as <- <-. reflexivity.
Defined.

Lemma run_completes_witness :
  ∃ sd m trades_,
    simulate Example.stack_object [1; 1; 1] [0; 0; 0] = Ok (sd, trades_)
    ∧ runSingleBacktest Scenario.any_pow Example.stack_object [1; 1; 1] [0; 0; 0]
      = Ok (m, trades_)
    ∧ startValue m = 1000%float
    ∧ totalCapital sd !! 2%nat = Some (endValue m).
Proof.
  destruct (run_completes_with_metrics Scenario.any_pow Example.stack_object
              [1; 1; 1] [0; 0; 0]) as (sd & m & trades_ & H1 & H2 & H3 & H4 & _).
  - left. exists [100; 100; 100]%float, [0; 1; 2], Example.stack_args. reflexivity.
  - discriminate.
  - vm_compute. discriminate.
  - exists sd, m, trades_.
    split; [exact H1|]. split; [exact H2|]. split; [exact H3 | exact H4].
Defined.

Lemma metrics_count_witness :
  ∃ m trades_,
    runSingleBacktest Scenario.any_pow Example.stack_object [1; 1; 1] [0; 0; 0]
    = Ok (m, trades_)
    ∧ totalTrades m = Z.of_nat (length trades_)
    ∧ winningTrades m = Z.of_nat (length (winners trades_)).
Proof.
  destruct (runSingleBacktest Scenario.any_pow Example.stack_object [1; 1; 1] [0; 0; 0])
    as [[m trades_]|e] eqn:E; [|vm_compute in E; discriminate E].
  destruct (metrics_count_the_ledger Scenario.any_pow Example.stack_object
              [1; 1; 1] [0; 0; 0] m trades_ E) as (H1 & H2 & _).
  - vm_compute. discriminate.
  - exists m, trades_. split; [reflexivity|]. split; [exact H1 | exact H2].
Defined.

(** ** Runs over several named signal pairs *)

Section SharedSettings.

Variable pow : float → float → float.
Variables (b : Backtest) (param : string) (r : BacktestMetrics) (ledger : list Trade).

(** Storing a result leaves every setting a run reads as it was. *)
Lemma checkExit_with_results i price exitSignal t :
  checkExit (with_results b param r ledger) i price exitSignal t
  = checkExit b i price exitSignal t.
Proof. reflexivity. Qed.

Lemma closeTrade_with_results t price d i reason :
  closeTrade (with_results b param r ledger) t price d i reason
  = closeTrade b t price d i reason.
Proof. reflexivity. Qed.

Lemma exitLoop_with_results sd i price exitSignal cur trades_ capital h :
  exitLoop (with_results b param r ledger) sd i price exitSignal cur trades_ capital h
  = exitLoop b sd i price exitSignal cur trades_ capital h.
Proof.
  revert trades_ capital h. induction cur as [|t rest IH]; intros trades_ capital h;
    simpl; [done|].
  rewrite checkExit_with_results.
  destruct (checkExit b i price exitSignal t) as [[] reason].
  - destruct (vec_get (dates sd) i); simpl; [|done].
    by rewrite closeTrade_with_results, IH.
  - by rewrite IH.
Qed.

Lemma processExitSignals_with_results cur trades_ sd i price exitSignal capital :
  processExitSignals (with_results b param r ledger) cur trades_ sd i price exitSignal
    capital
  = processExitSignals b cur trades_ sd i price exitSignal capital.
Proof. unfold processExitSignals. by rewrite exitLoop_with_results. Qed.

Lemma processEntrySignals_with_results cur sd i price entrySignal capital :
  processEntrySignals (with_results b param r ledger) cur sd i price entrySignal capital
  = processEntrySignals b cur sd i price entrySignal capital.
Proof. reflexivity. Qed.

Lemma applySignals_with_results cur trades_ sd i price entrySignal exitSignal capital :
  applySignals (with_results b param r ledger) cur trades_ sd i price entrySignal
    exitSignal capital
  = applySignals b cur trades_ sd i price entrySignal exitSignal capital.
Proof.
  unfold applySignals.
  change (signalPriority (with_results b param r ledger)) with (signalPriority b).
  destruct (bool_decide (signalPriority b = EXIT_FIRST)
            || bool_decide (signalPriority b = SAME_BAR_TRADE)).
  - rewrite processExitSignals_with_results.
    destruct (processExitSignals b cur trades_ sd i price exitSignal capital)
      as [[[[h1 cur1] trades1] cap1]|]; simpl; [|done].
    rewrite processEntrySignals_with_results.
    destruct (processEntrySignals b cur1 sd i price entrySignal cap1)
      as [[[h2 cur2] cap2]|]; simpl; [|done].
    by rewrite processExitSignals_with_results.
  - rewrite processEntrySignals_with_results.
    destruct (processEntrySignals b cur sd i price entrySignal capital)
      as [[[h1 cur1] cap1]|]; simpl; [|done].
    by rewrite processExitSignals_with_results.
Qed.

Lemma barStep_with_results entries_ exits_ i s :
  barStep (with_results b param r ledger) entries_ exits_ i s
  = barStep b entries_ exits_ i s.
Proof.
  unfold barStep.
  destruct (vec_get (prices (seriesData s)) i) as [price|]; simpl; [|done].
  destruct (vec_get entries_ i) as [es|]; simpl; [|done].
  destruct (vec_get exits_ i) as [xs|]; simpl; [|done].
  by rewrite applySignals_with_results.
Qed.

Lemma barLoop_with_results entries_ exits_ n i s :
  barLoop (with_results b param r ledger) entries_ exits_ n i s
  = barLoop b entries_ exits_ n i s.
Proof.
  revert i s. induction n as [|n IH]; intros i s; simpl; [done|].
  rewrite barStep_with_results.
  destruct (barStep b entries_ exits_ i s); simpl; [|done]. apply IH.
Qed.

Lemma flushLoop_with_results sd lastIndex lastPrice cur trades_ capital :
  flushLoop (with_results b param r ledger) sd lastIndex lastPrice cur trades_ capital
  = flushLoop b sd lastIndex lastPrice cur trades_ capital.
Proof.
  revert trades_ capital. induction cur as [|t rest IH]; intros trades_ capital;
    simpl; [done|].
  destruct (vec_get (dates sd) lastIndex); simpl; [|done].
  by rewrite closeTrade_with_results, IH.
Qed.

Lemma simulate_with_results entries_ exits_ :
  simulate (with_results b param r ledger) entries_ exits_ = simulate b entries_ exits_.
Proof.
  unfold simulate.
  change (data (with_results b param r ledger)) with (data b).
  change (startFund (with_results b param r ledger)) with (startFund b).
  change (forceCloseAtEnd (with_results b param r ledger)) with (forceCloseAtEnd b).
  rewrite barLoop_with_results.
  destruct (barLoop b entries_ exits_ _ 0 _) as [s|]; simpl; [|done].
  destruct (vec_get (prices (seriesData s)) _) as [lastPrice|]; simpl; [|done].
  rewrite flushLoop_with_results. done.
Qed.

Lemma runSingleBacktest_with_results entries_ exits_ :
  runSingleBacktest pow (with_results b param r ledger) entries_ exits_
  = runSingleBacktest pow b entries_ exits_.
Proof.
  unfold runSingleBacktest. rewrite simulate_with_results.
  destruct (simulate b entries_ exits_) as [[sd trades_]|]; simpl; [|done].
  done.
Qed.

End SharedSettings.

Section MultiRun.

Variable pow : float → float → float.

(** The loop over the parameter names: every name visited gets the
    metrics of a run of its own on the object as it was before the loop;
    the other entries of [results] and the member [result] are untouched. *)
Lemma runParams_Ok_inv todo b b' :
  runParams pow todo b = Ok b' →
  (∀ param, param ∈ todo →
     ∃ m trades_,
       runSingleBacktest pow b (default [] (entriesMap b !! param))
         (default [] (exitsMap b !! param)) = Ok (m, trades_)
       ∧ results b' !! param = Some m)
  ∧ (∀ param, param ∉ todo → results b' !! param = results b !! param)
  ∧ result b' = result b.
Proof.
  revert b. induction todo as [|param rest IH]; intros b H.
  - simpl in H. injection H as <-. split; [|done].
    intros param Hin. by apply elem_of_nil in Hin.
  - simpl in H. apply bind_Ok in H as ([m trades_] & Hrun & H). simpl in H.
    apply IH in H as (Hin & Hout & Hres). clear IH.
    simpl in Hres.
    assert (∀ p, p ∈ rest →
              ∃ m0 trades0,
                runSingleBacktest pow b (default [] (entriesMap b !! p))
                  (default [] (exitsMap b !! p)) = Ok (m0, trades0)
                ∧ results b' !! p = Some m0) as Hin'.
    { intros p Hp. destruct (Hin p Hp) as (m0 & trades0 & Hrun0 & Hp0).
      rewrite runSingleBacktest_with_results in Hrun0. eauto. }
    split; [|split; [|done]].
    + intros p Hp. apply elem_of_cons in Hp as [->|Hp]; [|by apply Hin'].
      destruct (decide (param ∈ rest)) as [Hrest|Hrest]; [by apply Hin'|].
      exists m, trades_. split; [done|].
      rewrite (Hout param Hrest). simpl. by rewrite lookup_insert_eq.
    + intros p Hp. apply not_elem_of_cons in Hp as [Hne Hp].
      rewrite (Hout p Hp). simpl. by rewrite lookup_insert_ne.
Qed.

(** After the loop [m_trades] holds the ledger of the name visited last. *)
Lemma runParams_last_ledger todo b b' param :
  runParams pow todo b = Ok b' →
  last todo = Some param →
  ∃ m, runSingleBacktest pow b (default [] (entriesMap b !! param))
         (default [] (exitsMap b !! param)) = Ok (m, m_trades b').
Proof.
  revert b. induction todo as [|p rest IH]; intros b H Hlast; [done|].
  simpl in H. apply bind_Ok in H as ([m trades_] & Hrun & H). simpl in H.
  destruct rest as [|p' rest'].
  - simpl in H, Hlast. injection H as <-. injection Hlast as <-. by exists m.
  - apply IH in H as (m0 & Hrun0); [|done].
    rewrite runSingleBacktest_with_results in Hrun0. eauto.
Qed.

(** Every run of the loop completes when every name has a well-sized
    pair of signal vectors. *)
Lemma runParams_runs todo b :
  prices (data b) ≠ [] →
  Z.of_nat (length (prices (data b))) ≤ 2 ^ 64 →
  (∀ param, param ∈ todo →
     well_sized (data b) (default [] (entriesMap b !! param))
       (default [] (exitsMap b !! param))) →
  is_Ok (runParams pow todo b).
Proof.
  revert b. induction todo as [|param rest IH]; intros b Hne Hmax Hwf; [done|].
  simpl.
  destruct (runSingleBacktest_runs pow b _ _
              (Hwf param ltac:(apply list_elem_of_here)) Hne Hmax)
    as (m & trades_ & ->).
  simpl. apply IH; [done | done|].
  intros p Hp. simpl. apply Hwf. by apply list_elem_of_further.
Qed.

(** X14.  A multi-strategy object with at least one bar runs to the end,
    and its runs do not affect each other: after [run], [getResults] maps
    every name of the entry map to the metrics that a run of that name's
    signal pair alone gives on the object as constructed, and holds no
    other name; [getResult] still returns the default metrics. *)
Theorem multi_runs_are_independent prices_ entriesMap_ exitsMap_ dates_ a this :
  Backtest_multi prices_ entriesMap_ exitsMap_ dates_ a = Ok this →
  prices_ ≠ [] →
  Z.of_nat (length prices_) ≤ 2 ^ 64 →
  ∃ b',
    run pow this = Ok b'
    ∧ (∀ param entries_ exits_,
         entriesMap_ !! param = Some entries_ →
         exitsMap_ !! param = Some exits_ →
         ∃ m trades_,
           runSingleBacktest pow this entries_ exits_ = Ok (m, trades_)
           ∧ getResults b' !! param = Some m)
    ∧ (∀ param, entriesMap_ !! param = None → getResults b' !! param = None)
    ∧ getResult b' = BacktestMetrics_init.
Proof.
  intros Hmk Hne Hmax.
  pose proof (λ param entries_ exits_,
                Backtest_multi_well_sized _ _ _ _ _ _ param entries_ exits_ Hmk) as Hwf.
  apply Backtest_multi_Ok in Hmk as [Hthis Hall].
  assert (run pow this = runParams pow (map_keys_in_order entriesMap_) this) as Hrun
    by (by rewrite Hthis).
  assert (entriesMap this = entriesMap_ ∧ exitsMap this = exitsMap_
          ∧ prices (data this) = prices_ ∧ results this = ∅
          ∧ result this = BacktestMetrics_init) as (He & Hx & Hp & Hrs & Hr)
    by (by rewrite Hthis).
  assert (is_Ok (runParams pow (map_keys_in_order entriesMap_) this)) as Hok.
  { apply runParams_runs; [by rewrite Hp | by rewrite Hp|].
    intros param Hin. apply map_keys_in_order_elem in Hin.
    specialize (Hall param Hin). unfold pair_matches in Hall.
    rewrite He, Hx.
    destruct (entriesMap_ !! param) as [entries_|] eqn:Ee; [|done].
    destruct (exitsMap_ !! param) as [exits_|] eqn:Ex; [|done].
    simpl. by apply (Hwf param). }
  apply is_Ok_exists in Hok as [b' Hb'].
  exists b'. rewrite Hrun. split; [done|].
  apply runParams_Ok_inv in Hb' as (Hin & Hout & Hres).
  split; [|split].
  - intros param entries_ exits_ Ee Ex.
    destruct (Hin param) as (m & trades_ & Hm & Hlookup).
    { apply map_keys_in_order_elem. by rewrite Ee. }
    rewrite He, Hx, Ee, Ex in Hm. simpl in Hm. eauto.
  - intros param Ee. unfold getResults. rewrite Hout, Hrs; [done|].
    intros Hin'. apply map_keys_in_order_elem in Hin'. rewrite Ee in Hin'.
    by destruct Hin'.
  - unfold getResult. by rewrite Hres.
Qed.

(** X15.  After the run of a multi-strategy object, [getTrades] returns
    the ledger of one run only: that of the name that comes last in the
    order of the map's keys. *)
Theorem multi_run_keeps_last_ledger prices_ entriesMap_ exitsMap_ dates_ a this b'
    param entries_ exits_ :
  Backtest_multi prices_ entriesMap_ exitsMap_ dates_ a = Ok this →
  run pow this = Ok b' →
  last (map_keys_in_order entriesMap_) = Some param →
  entriesMap_ !! param = Some entries_ →
  exitsMap_ !! param = Some exits_ →
  ∃ m, runSingleBacktest pow this entries_ exits_ = Ok (m, getTrades b').
Proof.
  intros Hmk Hrun Hlast Ee Ex.
  apply Backtest_multi_Ok in Hmk as [Hthis _].
  assert (run pow this = runParams pow (map_keys_in_order entriesMap_) this) as Hrun'
    by (by rewrite Hthis).
  assert (entriesMap this = entriesMap_ ∧ exitsMap this = exitsMap_) as (He & Hx)
    by (by rewrite Hthis).
  rewrite Hrun' in Hrun.
  destruct (runParams_last_ledger _ _ _ _ Hrun Hlast) as (m & Hm).
  rewrite He, Hx, Ee, Ex in Hm. simpl in Hm. by exists m.
Qed.

End MultiRun.

Lemma multi_runs_witness :
  ∃ b' m trades_,
    Backtest_multi [100; 100; 100]%float Example.pair_entries Example.pair_exits
      [0; 1; 2] Example.stack_args = Ok Example.pair_object
    ∧ run Scenario.any_pow Example.pair_object = Ok b'
    ∧ runSingleBacktest Scenario.any_pow Example.pair_object [1; 0; 0] [0; -1; 0]
      = Ok (m, trades_)
    ∧ getResults b' !! "a" = Some m
    ∧ getResults b' !! "c" = None.
Proof.
  assert (Backtest_multi [100; 100; 100]%float Example.pair_entries Example.pair_exits
            [0; 1; 2] Example.stack_args = Ok Example.pair_object) as E
    by (vm_compute; reflexivity).
  destruct (multi_runs_are_independent Scenario.any_pow _ _ _ _ _ _ E)
    as (b' & Hrun & Hin & Hout & _).
  - discriminate.
  - vm_compute. discriminate.
  - destruct (Hin "a" [1; 0; 0] [0; -1; 0]) as (m & trades_ & Hm & Hlookup);
      [reflexivity | reflexivity|].
    exists b', m, trades_.
    split; [exact E|]. split; [exact Hrun|]. split; [exact Hm|].
    split; [exact Hlookup|]. apply Hout. reflexivity.
Defined.

Lemma multi_run_last_ledger_witness :
  ∃ b' m,
    run Scenario.any_pow Example.pair_object = Ok b'
    ∧ runSingleBacktest Scenario.any_pow Example.pair_object [0; 1; 0] [0; 0; -1]
      = Ok (m, getTrades b').
Proof.
  destruct (run Scenario.any_pow Example.pair_object) as [b'|e] eqn:Erun;
    [|vm_compute in Erun; discriminate Erun].
  destruct (multi_run_keeps_last_ledger Scenario.any_pow
              [100; 100; 100]%float Example.pair_entries Example.pair_exits
              [0; 1; 2] Example.stack_args Example.pair_object b' "b"
              [0; 1; 0] [0; 0; -1]) as (m & Hm).
  - vm_compute. reflexivity.
  - exact Erun.
  - vm_compute. reflexivity.
  - reflexivity.
  - reflexivity.
  - exists b', m. split; [reflexivity | exact Hm].
Defined.

(** ** The prices trades are filled at *)

Section FillFacts.

Variable this : Backtest.

Lemma closeTrade_filled prices_ t price d idx reason :
  entered_at_bar_price this prices_ t →
  0 ≤ idx ≤ Cpp.INT_MAX →
  prices_ !! Z.to_nat idx = Some price →
  filled_at_bar_prices this prices_ (closeTrade this t price d idx reason).
Proof.
  unfold Cpp.INT_MAX. intros [(p & Hp & Hfill) Hsized] Hidx Hprice.
  unfold filled_at_bar_prices, entered_at_bar_price, sized, isLongDirection.
  rewrite closeTrade_entryIndex, closeTrade_exitIndex, closeTrade_direction.
  rewrite CppFacts.to_int_small by lia.
  unfold closeTrade. destruct (settle _ _ _ _) as [profit_ exitValue_]. simpl.
  split; [split; [by exists p | done]|]. by exists price.
Qed.

Lemma revalue_entered prices_ price t :
  entered_at_bar_price this prices_ t →
  entered_at_bar_price this prices_ (revalue price t).
Proof. done. Qed.

Lemma opened_by_entered prices_ i price entrySignal t :
  0 ≤ i ≤ Cpp.INT_MAX →
  prices_ !! Z.to_nat i = Some price →
  opened_by this i price entrySignal t →
  entered_at_bar_price this prices_ t.
Proof.
  unfold Cpp.INT_MAX. intros Hi Hprice (_ & Hidx & Hfill & Hsized).
  split; [|done]. exists price.
  rewrite Hidx, CppFacts.to_int_small by lia. done.
Qed.

Variables (entries_ exits_ : list Z).

(** X16.  Every trade of the ledger of a completed run (on at most [2^31]
    bars) was filled at the prices of its own bars: its entry price is
    the price of bar [entryIndex] and its exit price that of bar
    [exitIndex], each moved against the trade by the slippage; its entry
    fee is the commission on the amount invested, and its quantity is
    what the rest buys at the entry price. *)
Theorem ledger_fills_at_bar_prices sd trades_ :
  simulate this entries_ exits_ = Ok (sd, trades_) →
  Z.of_nat (length (prices (data this))) ≤ Cpp.INT_MAX + 1 →
  Forall (filled_at_bar_prices this (prices (data this))) trades_.
Proof.
  intros H Hmax. set (n := length (prices (data this))) in *.
  destruct (simulate_last_index this entries_ exits_ sd trades_ H) as [Hn Hlast].
  { fold n. unfold Cpp.INT_MAX in Hmax. lia. }
  fold n in Hn, Hlast.
  apply simulate_Ok_inv in H as (s & lastPrice & d & _ & Hloop & Hprice & -> & _).
  fold n in Hloop, Hprice |- *. rewrite Hlast in Hprice |- *.
  apply (barLoop_invariant_at this entries_ exits_
           (λ i s, prices (seriesData s) = prices (data this)
                   ∧ Forall (entered_at_bar_price this (prices (data this)))
                       (currentTrades s)
                   ∧ Forall (filled_at_bar_prices this (prices (data this)))
                       (trades s))) in Hloop.
  - destruct Hloop as (Hprices & Hcur & Htr).
    destruct (forceCloseAtEnd this); [|done].
    apply Forall_app. split; [done|]. apply Forall_fmap.
    eapply Forall_impl; [exact Hcur|]. intros t Ht. simpl.
    apply closeTrade_filled; [done | lia|].
    apply vec_get_Ok in Hprice as [_ Hprice]. by rewrite <- Hprices.
  - intros i s0 s0' Hi (Hprices & Hcur & Htr) Hstep.
    assert (0 ≤ i ≤ Cpp.INT_MAX) as Hi' by lia.
    pose proof (barStep_Ok_inv _ _ _ _ _ _ Hstep) as (_ & _ & _ & _ & Ep & _).
    simpl in Ep.
    apply barStep_Ok_inv_state in Hstep
      as (price & es & xs & closed & Hp & _ & _ & -> & Hcur' & Hcl & _).
    apply vec_get_Ok in Hp as [_ Hp]. rewrite Hprices in Hp.
    assert (∀ t, t ∈ (revalue price <$> currentTrades s0)
                 ∨ opened_by this i price es t →
                 entered_at_bar_price this (prices (data this)) t) as Hentered.
    { intros t [Hin|Ho]; [|by eapply opened_by_entered].
      apply list_elem_of_fmap in Hin as (t0 & -> & Hin).
      rewrite Forall_forall in Hcur. by apply revalue_entered, Hcur. }
    split; [by rewrite Ep|]. split.
    + eapply Forall_impl; [exact Hcur' | done].
    + apply Forall_app. split; [done|].
      eapply Forall_impl; [exact Hcl|]. intros c (t & Ht & d' & reason & _ & ->).
      apply closeTrade_filled; [by apply Hentered | done | done].
  - unfold initialSim. simpl. repeat split; constructor.
Qed.

End FillFacts.

Lemma ledger_fills_witness :
  ∃ sd trades_,
    simulate Example.stack_object [1; 1; 1] [0; 0; 0] = Ok (sd, trades_)
    ∧ length trades_ = 2%nat
    ∧ Forall (filled_at_bar_prices Example.stack_object [100; 100; 100]%float) trades_.
Proof.
  destruct (simulate Example.stack_object [1; 1; 1] [0; 0; 0])
    as [[sd trades_]|e] eqn:E; [|vm_compute in E; discriminate E].
  exists sd, trades_. split; [reflexivity|]. split.
  - vm_compute in E. by injection E as _ <-.
  - apply (ledger_fills_at_bar_prices _ _ _ _ _ E). vm_compute. discriminate.
Defined.

(** ** Holding periods *)

Section HoldingFacts.

Variable this : Backtest.

Lemma checkExit_kept_below_max i price exitSignal t :
  exits_now this i price exitSignal t = false →
  0 < maxHolding this →
  holdingPeriodAt i t < maxHolding this.
Proof.
  unfold exits_now, checkExit. intros H Hmax.
  destruct (_ && _) in H; [done|].
  destruct (_ && _) in H; [done|].
  destruct ((0 <? maxHolding this) && (maxHolding this <=? holdingPeriodAt i t))
    eqn:E in H; [done|].
  apply andb_false_iff in E as [E|E].
  - apply Z.ltb_ge in E. lia.
  - by apply Z.leb_gt in E.
Qed.

Lemma checkExit_signal_after_min i price exitSignal t :
  checkExit this i price exitSignal t = (true, EXIT_SIGNAL) →
  minHolding this ≤ holdingPeriodAt i t.
Proof.
  unfold checkExit. intros H.
  destruct (_ && _) in H; [done|].
  destruct (_ && _) in H; [done|].
  destruct (_ && _) in H; [done|].
  destruct (_ && (minHolding this <=? holdingPeriodAt i t)) eqn:E in H; [|done].
  apply andb_true_iff in E as [_ E]. by apply Z.leb_le in E.
Qed.

(** The closures of a pass: each is the closed copy of a position the
    cascade sent out, dated with the date of the bar. *)
Lemma exitLoop_closures seriesData_ i price exitSignal cur trades_ capital hasExited
    kept trades' capital' hasExited' :
  exitLoop this seriesData_ i price exitSignal cur trades_ capital hasExited =
    Ok (kept, trades', capital', hasExited') →
  ∃ closed,
    trades' = trades_ ++ closed
    ∧ Forall (λ c, ∃ t exitTime_ reason,
                t ∈ cur
                ∧ vec_get (dates seriesData_) i = Ok exitTime_
                ∧ checkExit this i price exitSignal t = (true, reason)
                ∧ c = closeTrade this t price exitTime_ i (getExitReasonString reason))
        closed.
Proof.
  revert trades_ capital hasExited kept trades' capital' hasExited'.
  induction cur as [|t rest IH]; intros trades_ capital hasExited kept trades'
    capital' hasExited'; simpl.
  - intros [= <- <- <- <-]. exists []. by rewrite app_nil_r.
  - destruct (checkExit this i price exitSignal t) as [shouldExit reason] eqn:E.
    destruct shouldExit.
    + intros H. apply bind_Ok in H as (d & Hd & H).
      apply IH in H as (closed & -> & Hall).
      exists (closeTrade this t price d i (getExitReasonString reason) :: closed).
      rewrite <- app_assoc. split; [done|]. constructor.
      * exists t, d, reason. split; [apply list_elem_of_here | done].
      * eapply Forall_impl; [exact Hall|]. intros c (t' & d' & r' & ? & ? & ? & ?).
        exists t', d', r'. split; [by apply list_elem_of_further | done].
    + intros H. apply bind_Ok in H as ([[[k tr] c] h] & H1 & H2).
      simpl in H2. injection H2 as <- <- <- <-.
      apply IH in H1 as (closed & -> & Hall).
      exists closed. split; [done|].
      eapply Forall_impl; [exact Hall|]. intros c0 (t' & d' & r' & ? & ? & ? & ?).
      exists t', d', r'. split; [by apply list_elem_of_further | done].
Qed.

(** A pass of the exit processor, with what the cascade said about each
    position. *)
Lemma processExitSignals_cascade cur trades_ seriesData_ i price exitSignal capital
    hasExited kept trades' capital' :
  processExitSignals this cur trades_ seriesData_ i price exitSignal capital =
    Ok (hasExited, kept, trades', capital') →
  ∃ closed,
    trades' = trades_ ++ closed
    ∧ Forall (λ t, t ∈ cur ∧ exits_now this i price exitSignal t = false) kept
    ∧ Forall (λ c, ∃ t exitTime_ reason,
                t ∈ cur
                ∧ vec_get (dates seriesData_) i = Ok exitTime_
                ∧ checkExit this i price exitSignal t = (true, reason)
                ∧ c = closeTrade this t price exitTime_ i (getExitReasonString reason))
        closed.
Proof.
  unfold processExitSignals. intros H.
  apply bind_Ok in H as ([[[k tr] c] h] & H1 & H2).
  simpl in H2. injection H2 as <- <- <- <-.
  pose proof (exitLoop_kept _ _ _ _ _ _ _ _ _ _ _ _ _ H1) as Hkept'.
  pose proof (exitLoop_closures _ _ _ _ _ _ _ _ _ _ _ _ H1) as (closed & -> & Hall).
  apply exitLoop_Ok_inv in H1 as (closed' & Heq & _ & _ & _ & Hkept & _).
  exists closed. split; [done|]. split; [|done].
  apply Forall_forall. intros t Ht. rewrite Forall_forall in Hkept, Hkept'. auto.
Qed.

Lemma processEntrySignals_opened cur seriesData_ i price entrySignal capital
    hasEntered cur' capital' :
  processEntrySignals this cur seriesData_ i price entrySignal capital =
    Ok (hasEntered, cur', capital') →
  cur' = cur
  ∨ ∃ t, cur' = cur ++ [t]
         ∧ opened_by this i price entrySignal t
         ∧ vec_get (dates seriesData_) i = Ok (entryTime t).
Proof.
  intros H. apply processEntrySignals_Ok_inv in H
    as [[-> _]|(t & -> & _ & _ & _ & _ & _ & Hsig & Hidx & Hdate & Hfill & Hsized)];
    [by left|].
  right. by exists t.
Qed.

(** One bar of signal processing, for a property [P] of open positions
    and a property [Q] of ledger entries. *)
Lemma applySignals_cascade (P Q : Trade → Prop) cur trades_ seriesData_ i price
    entrySignal exitSignal capital hasEntered cur' trades' capital' :
  (∀ t, opened_by this i price entrySignal t →
        vec_get (dates seriesData_) i = Ok (entryTime t) → P t) →
  (∀ t exitTime_ reason,
     P t → checkExit this i price exitSignal t = (true, reason) →
     vec_get (dates seriesData_) i = Ok exitTime_ →
     Q (closeTrade this t price exitTime_ i (getExitReasonString reason))) →
  Forall P cur → Forall Q trades_ →
  applySignals this cur trades_ seriesData_ i price entrySignal exitSignal capital =
    Ok (hasEntered, cur', trades', capital') →
  Forall (λ t, P t ∧ (exits_now this i price exitSignal t = false
                      ∨ opened_by this i price entrySignal t)) cur'
  ∧ Forall Q trades'.
Proof.
  intros Hopen Hclose HP HQ.
  assert (∀ c0 tr0 cap0 h k tr1 cap1,
            Forall P c0 → Forall Q tr0 →
            processExitSignals this c0 tr0 seriesData_ i price exitSignal cap0 =
              Ok (h, k, tr1, cap1) →
            Forall (λ t, t ∈ c0 ∧ P t ∧ exits_now this i price exitSignal t = false) k
            ∧ Forall Q tr1) as Hexit.
  { intros c0 tr0 cap0 h k tr1 cap1 HP0 HQ0 H.
    apply processExitSignals_cascade in H as (closed & -> & Hkept & Hcl).
    rewrite Forall_forall in HP0. split.
    - eapply Forall_impl; [exact Hkept|]. intros t [Hin Hno]. auto.
    - apply Forall_app. split; [done|].
      eapply Forall_impl; [exact Hcl|].
      intros c (t & d & reason & Hin & Hd & Hr & ->).
      by apply Hclose; [apply HP0| |]. }
  assert (∀ c0 cap0 h c1 cap1,
            Forall P c0 →
            processEntrySignals this c0 seriesData_ i price entrySignal cap0 =
              Ok (h, c1, cap1) →
            Forall P c1
            ∧ Forall (λ t, t ∈ c0 ∨ opened_by this i price entrySignal t) c1) as Hentry.
  { intros c0 cap0 h c1 cap1 HP0 H.
    apply processEntrySignals_opened in H as [->|(t & -> & Ht & Hd)].
    - split; [done|]. apply Forall_forall. auto.
    - split.
      + apply Forall_app. split; [done|]. constructor; [by apply Hopen | done].
      + apply Forall_app. split; [apply Forall_forall; auto|].
        constructor; [by right | done]. }
  unfold applySignals. intros H.
  destruct (bool_decide (signalPriority this = EXIT_FIRST)
            || bool_decide (signalPriority this = SAME_BAR_TRADE)).
  - apply bind_Ok in H as ([[[h1 cur1] trades1] cap1] & H1 & H). simpl in H.
    apply bind_Ok in H as ([[h2 cur2] cap2] & H2 & H). simpl in H.
    apply Hexit in H1 as [Hkept1 HQ1]; [|done|done].
    assert (Forall P cur1) as HP1.
    { eapply Forall_impl; [exact Hkept1|]. by intros t (_ & ? & _). }
    apply Hentry in H2 as [HP2 Hcur2]; [|done].
    destruct (bool_decide (signalPriority this = SAME_BAR_TRADE) && h2
              && negb (exitSignal =? 0)).
    + apply bind_Ok in H as ([[[h3 cur3] trades3] cap3] & H3 & H). simpl in H.
      injection H as <- <- <- <-.
      apply Hexit in H3 as [Hkept3 HQ3]; [|done|done].
      split; [|done].
      eapply Forall_impl; [exact Hkept3|]. intros t (_ & ? & ?). auto.
    + injection H as <- <- <- <-. split; [|done].
      apply Forall_forall. intros t Ht.
      rewrite Forall_forall in HP2, Hcur2, Hkept1.
      split; [by apply HP2|].
      destruct (Hcur2 t Ht) as [Hin|Ho]; [left|by right].
      by destruct (Hkept1 t Hin) as (_ & _ & ?).
  - apply bind_Ok in H as ([[h1 cur1] cap1] & H1 & H). simpl in H.
    apply bind_Ok in H as ([[[h2 cur2] trades2] cap2] & H2 & H). simpl in H.
    injection H as <- <- <- <-.
    apply Hentry in H1 as [HP1 _]; [|done].
    apply Hexit in H2 as [Hkept2 HQ2]; [|done|done].
    split; [|done].
    eapply Forall_impl; [exact Hkept2|]. intros t (_ & ? & ?). auto.
Qed.

Lemma closeTrade_hold_bars t price d idx reason :
  0 ≤ entryIndex t ≤ idx → idx ≤ Cpp.INT_MAX →
  hold_bars (closeTrade this t price d idx reason) = idx - entryIndex t.
Proof.
  unfold Cpp.INT_MAX, hold_bars. intros H1 H2.
  rewrite closeTrade_entryIndex, closeTrade_exitIndex.
  rewrite (CppFacts.to_int_small idx) by lia. apply CppFacts.to_int_small. lia.
Qed.

Variables (entries_ exits_ : list Z).

(** X17.  The holding limits are kept by every trade of a completed run
    (on at most [2^31] bars), with the holding time counted as the Python
    wrapper reports it ([hold_bars = exitIndex - entryIndex]): it is never
    negative; with a positive [maxHolding] no trade is held for more than
    [maxHolding] bars; and a trade closed on an exit signal was held for
    at least [minHolding] bars. *)
Theorem holding_limits_respected sd trades_ :
  simulate this entries_ exits_ = Ok (sd, trades_) →
  Z.of_nat (length (prices (data this))) ≤ Cpp.INT_MAX + 1 →
  Forall (holding_respected this) trades_.
Proof.
  intros H Hmax. set (n := length (prices (data this))) in *.
  destruct (simulate_last_index this entries_ exits_ sd trades_ H) as [Hn Hlast].
  { fold n. unfold Cpp.INT_MAX in Hmax. lia. }
  fold n in Hn, Hlast.
  apply simulate_Ok_inv in H as (s & lastPrice & d & _ & Hloop & _ & -> & _).
  fold n in Hloop |- *. rewrite Hlast.
  apply (barLoop_invariant_at this entries_ exits_
           (λ i s, Forall (λ t, 0 ≤ entryIndex t < i
                                ∧ (0 < maxHolding this →
                                   i - 1 - entryIndex t < maxHolding this))
                     (currentTrades s)
                   ∧ Forall (holding_respected this) (trades s))) in Hloop.
  - simpl in Hloop. destruct Hloop as [Hcur Htr].
    destruct (forceCloseAtEnd this); [|done].
    apply Forall_app. split; [done|]. apply Forall_fmap.
    eapply Forall_impl; [exact Hcur|]. intros t [Hidx Hlimit]. simpl.
    unfold holding_respected.
    rewrite closeTrade_exitReason, closeTrade_hold_bars by lia.
    split; [lia|]. split; [|discriminate]. intros Hpos. specialize (Hlimit Hpos). lia.
  - intros i s0 s0' Hi [Hcur Htr] Hstep.
    assert (0 ≤ i ≤ Cpp.INT_MAX) as Hi' by lia.
    apply barStep_applySignals in Hstep as (price & es & xs & h & _ & _ & _ & Happly).
    apply (applySignals_cascade
             (λ t, 0 ≤ entryIndex t ≤ i
                   ∧ (0 < maxHolding this → i - entryIndex t ≤ maxHolding this))
             (holding_respected this)) in Happly.
    + destruct Happly as [Hcur' Htr']. split; [|done].
      eapply Forall_impl; [exact Hcur'|]. intros t [[Hidx Hlimit] Hwhy].
      simpl. split; [lia|]. intros Hpos.
      destruct Hwhy as [Hkept|(_ & He & _)].
      * apply checkExit_kept_below_max in Hkept; [|done].
        rewrite holdingPeriodAt_holding_period in Hkept by lia.
        unfold holding_period in Hkept. lia.
      * rewrite He, CppFacts.to_int_small by (unfold Cpp.INT_MAX in Hi'; lia). lia.
    + intros t (_ & He & _) _.
      rewrite He, CppFacts.to_int_small by (unfold Cpp.INT_MAX in Hi'; lia). lia.
    + intros t d' reason [Hidx Hlimit] Hr _. unfold holding_respected.
      rewrite closeTrade_exitReason, closeTrade_hold_bars by lia.
      split; [lia|]. split; [done|]. intros Hreason.
      assert (reason = EXIT_SIGNAL) as -> by (by destruct reason).
      apply checkExit_signal_after_min in Hr.
      rewrite holdingPeriodAt_holding_period in Hr by lia. done.
    + apply Forall_fmap. eapply Forall_impl; [exact Hcur|].
      intros t [Hidx Hlimit]. simpl. split; [lia|].
      intros Hpos. specialize (Hlimit Hpos). lia.
    + done.
  - simpl. split; constructor.
Qed.

End HoldingFacts.

Lemma holding_limits_witness :
  ∃ sd c,
    simulate Example.hold_object [1; 0; 0] [0; 0; 0] = Ok (sd, [c])
    ∧ exitReason c = "Max Holding Period Reached"
    ∧ hold_bars c = 1
    ∧ holding_respected Example.hold_object c.
Proof.
  destruct (simulate Example.hold_object [1; 0; 0] [0; 0; 0])
    as [[sd trades_]|e] eqn:E; [|vm_compute in E; discriminate E].
  assert (Forall (holding_respected Example.hold_object) trades_) as Hall.
  { apply (holding_limits_respected _ _ _ _ _ E). vm_compute. discriminate. }
  vm_compute in E. injection E as <- <-.
  eexists _, _. split; [reflexivity|]. split; [reflexivity|]. split; [reflexivity|].
  by apply Forall_cons in Hall as [Hc _].
Defined.

(** ** Ledger properties that follow from what happens at each bar *)

Section LedgerFromBars.

Variable this : Backtest.
Variables (entries_ exits_ : list Z).

(** A property [Q] holds of every ledger entry of a completed run if every
    closure establishes it, at a bar of the loop or at the end of the
    run, for positions that have a property [P] since they were opened. *)
Lemma simulate_ledger_from_bars (P Q : Trade → Prop) sd trades_ :
  let n := length (prices (data this)) in
  (∀ price t, P t → P (revalue price t)) →
  (∀ (i : nat) price entrySignal t,
     (i < n)%nat →
     prices (data this) !! i = Some price →
     entries_ !! i = Some entrySignal →
     dates (data this) !! i = Some (entryTime t) →
     opened_by this (Z.of_nat i) price entrySignal t → P t) →
  (∀ (i : nat) price exitSignal exitTime_ reason t,
     (i < n)%nat → P t →
     prices (data this) !! i = Some price →
     exits_ !! i = Some exitSignal →
     dates (data this) !! i = Some exitTime_ →
     checkExit this (Z.of_nat i) price exitSignal t = (true, reason) →
     Q (closeTrade this t price exitTime_ (Z.of_nat i) (getExitReasonString reason))) →
  (∀ price exitTime_ t,
     forceCloseAtEnd this = true → P t →
     prices (data this) !! (n - 1)%nat = Some price →
     dates (data this) !! (n - 1)%nat = Some exitTime_ →
     Q (closeTrade this t price exitTime_ (Z.of_nat n - 1) "End of Backtest")) →
  simulate this entries_ exits_ = Ok (sd, trades_) →
  Z.of_nat n ≤ 2 ^ 64 →
  Forall Q trades_.
Proof.
  intros n Hrev Hopen Hclose Hflush H Hmax.
  destruct (simulate_last_index this entries_ exits_ sd trades_ H Hmax) as [Hn Hlast].
  fold n in Hn, Hlast.
  apply simulate_Ok_inv in H
    as (s & lastPrice & d & _ & Hloop & Hprice & -> & _ & _ & _ & Hdate).
  fold n in Hloop, Hprice, Hdate |- *. rewrite Hlast in Hprice, Hdate |- *.
  pose proof (barLoop_inputs _ _ _ _ _ _ _ Hloop) as [Eprices Edates].
  simpl in Eprices, Edates.
  apply (barLoop_invariant_at this entries_ exits_
           (λ i s, prices (seriesData s) = prices (data this)
                   ∧ dates (seriesData s) = dates (data this)
                   ∧ Forall P (currentTrades s) ∧ Forall Q (trades s))) in Hloop.
  - destruct Hloop as (_ & _ & Hcur & Htr).
    destruct (forceCloseAtEnd this) eqn:Hforce; [|done].
    apply Forall_app. split; [done|].
    destruct (currentTrades s) as [|t0 rest] eqn:Ecur; [constructor|].
    specialize (Hdate eq_refl ltac:(done)).
    apply vec_get_Ok in Hprice as [_ Hprice]. apply vec_get_Ok in Hdate as [_ Hdate].
    rewrite Eprices in Hprice. rewrite Edates in Hdate.
    replace (Z.to_nat (Z.of_nat n - 1)) with (n - 1)%nat in Hprice, Hdate by lia.
    apply Forall_fmap. eapply Forall_impl; [exact Hcur|]. intros t Ht. simpl.
    by apply Hflush.
  - intros i s0 s0' Hi (Hp & Hd & Hcur & Htr) Hstep.
    pose proof (barStep_Ok_inv _ _ _ _ _ _ Hstep) as (_ & _ & _ & Ed & Ep & _).
    simpl in Ed, Ep.
    apply barStep_applySignals in Hstep
      as (price & es & xs & h & Hprice' & Hes & Hxs & Happly).
    apply vec_get_Ok in Hprice' as [_ Hprice'].
    apply vec_get_Ok in Hes as [_ Hes]. apply vec_get_Ok in Hxs as [_ Hxs].
    rewrite Hp in Hprice'.
    split; [by rewrite Ep|]. split; [by rewrite Ed|].
    replace i with (Z.of_nat (Z.to_nat i)) in Happly by lia.
    apply (applySignals_cascade this P Q) in Happly.
    + destruct Happly as [Hcur' Htr']. split; [|done].
      eapply Forall_impl; [exact Hcur'|]. by intros t [? _].
    + intros t Ho Hdt. apply vec_get_Ok in Hdt as [_ Hdt].
      rewrite Nat2Z.id, Hd in Hdt.
      eapply (Hopen (Z.to_nat i)); [lia | done | done | done | done].
    + intros t d' reason Ht Hr Hdt. apply vec_get_Ok in Hdt as [_ Hdt].
      rewrite Nat2Z.id, Hd in Hdt.
      eapply (Hclose (Z.to_nat i)); [lia | done | done | done | done | done].
    + apply Forall_fmap. eapply Forall_impl; [exact Hcur|]. intros t Ht. simpl.
      by apply Hrev.
    + done.
  - unfold initialSim. simpl. repeat split; constructor.
Qed.

Lemma checkExit_enabled i price exitSignal t reason :
  checkExit this i price exitSignal t = (true, reason) →
  (reason = TAKE_PROFIT → (0 <? tpStop this)%float = true)
  ∧ (reason = STOP_LOSS → (0 <? slStop this)%float = true)
  ∧ (reason = MAX_HOLDING_PERIOD → 0 < maxHolding this)
  ∧ reason ∈ ordinary_reasons.
Proof.
  unfold checkExit, ordinary_reasons. intros H.
  destruct ((0 <? tpStop this)%float && _) eqn:Etp in H.
  { injection H as <-. apply andb_true_iff in Etp as [Etp _].
    repeat split; try done. apply list_elem_of_here. }
  destruct ((0 <? slStop this)%float && _) eqn:Esl in H.
  { injection H as <-. apply andb_true_iff in Esl as [Esl _].
    repeat split; try done. apply list_elem_of_further, list_elem_of_here. }
  destruct ((0 <? maxHolding this) && _) eqn:Emax in H.
  { injection H as <-. apply andb_true_iff in Emax as [Emax _].
    apply Z.ltb_lt in Emax. repeat split; try done.
    do 2 apply list_elem_of_further. apply list_elem_of_here. }
  destruct (_ && _) in H; [|done].
  injection H as <-. repeat split; try done.
  do 3 apply list_elem_of_further. apply list_elem_of_here.
Qed.

Lemma closeTrade_entryTime t price d idx reason :
  entryTime (closeTrade this t price d idx reason) = entryTime t.
Proof. unfold closeTrade. by destruct (settle _ _ _ _). Qed.

Lemma closeTrade_exitTime t price d idx reason :
  exitTime (closeTrade this t price d idx reason) = d.
Proof. unfold closeTrade. by destruct (settle _ _ _ _). Qed.

(** X18.  A rule that is switched off never closes a trade: in the ledger
    of a completed run no trade carries the reason ["Take Profit"] when
    [tpStop] is not above [0.0], none ["Stop Loss"] when [slStop] is not
    above [0.0], and none ["Max Holding Period Reached"] when [maxHolding]
    is not above [0]. *)
Theorem disabled_rules_never_fire sd trades_ :
  simulate this entries_ exits_ = Ok (sd, trades_) →
  Z.of_nat (length (prices (data this))) ≤ 2 ^ 64 →
  Forall (disabled_rules_silent this) trades_.
Proof.
  intros H Hmax.
  refine (simulate_ledger_from_bars (λ _, True) _ sd trades_ _ _ _ _ H Hmax);
    [done | done | |].
  - intros i price xs d reason t _ _ _ _ _ Hr.
    apply checkExit_enabled in Hr as (Htp & Hsl & Hmh & _).
    unfold disabled_rules_silent. rewrite closeTrade_exitReason.
    split; [|split].
    + intros Hoff Hreason. assert (reason = TAKE_PROFIT) as Heq by (by destruct reason).
      apply Htp in Heq. congruence.
    + intros Hoff Hreason. assert (reason = STOP_LOSS) as Heq by (by destruct reason).
      apply Hsl in Heq. congruence.
    + intros Hoff Hreason.
      assert (reason = MAX_HOLDING_PERIOD) as Heq by (by destruct reason).
      apply Hmh in Heq. lia.
  - intros price d t _ _ _ _. unfold disabled_rules_silent.
    rewrite closeTrade_exitReason. by repeat split.
Qed.

(** X19.  Every trade of the ledger of a completed run (on at most [2^31]
    bars) has the direction its entry bar asked for: a long was entered
    at a bar whose entry signal is [1], a short at a bar whose entry
    signal is [-1]. *)
Theorem direction_follows_entry_signal sd trades_ :
  simulate this entries_ exits_ = Ok (sd, trades_) →
  Z.of_nat (length (prices (data this))) ≤ Cpp.INT_MAX + 1 →
  Forall (follows_entry_signal entries_) trades_.
Proof.
  unfold Cpp.INT_MAX. intros H Hmax.
  refine (simulate_ledger_from_bars (follows_entry_signal entries_) _ sd trades_
            _ _ _ _ H ltac:(lia)).
  - done.
  - intros i price es t Hi _ Hes _ (Hsig & Hidx & _).
    unfold follows_entry_signal.
    rewrite Hidx, CppFacts.to_int_small, Nat2Z.id, Hes by lia.
    destruct Hsig as [(-> & ? & _)|(-> & ? & _)]; auto.
  - intros i price xs d reason t _ Ht _ _ _ _. unfold follows_entry_signal.
    by rewrite closeTrade_entryIndex, closeTrade_direction.
  - intros price d t _ Ht _ _. unfold follows_entry_signal.
    by rewrite closeTrade_entryIndex, closeTrade_direction.
Qed.

(** X20.  Every trade of the ledger of a completed run (on at most [2^31]
    bars) is stamped with the dates of its own bars: [entryTime] is the
    date of bar [entryIndex] and [exitTime] the date of bar [exitIndex]. *)
Theorem ledger_times_are_bar_dates sd trades_ :
  simulate this entries_ exits_ = Ok (sd, trades_) →
  Z.of_nat (length (prices (data this))) ≤ Cpp.INT_MAX + 1 →
  Forall (dated_by_bars (dates (data this))) trades_.
Proof.
  unfold Cpp.INT_MAX. intros H Hmax.
  pose proof (simulate_last_index this entries_ exits_ sd trades_ H ltac:(lia))
    as [Hn _].
  refine (simulate_ledger_from_bars (entry_dated (dates (data this))) _ sd trades_
            _ _ _ _ H ltac:(lia)).
  - done.
  - intros i price es t Hi _ _ Hd (_ & Hidx & _). unfold entry_dated.
    by rewrite Hidx, CppFacts.to_int_small, Nat2Z.id by lia.
  - intros i price xs d reason t Hi Ht _ _ Hd _.
    unfold dated_by_bars, entry_dated.
    rewrite closeTrade_entryIndex, closeTrade_entryTime, closeTrade_exitIndex,
      closeTrade_exitTime.
    by rewrite CppFacts.to_int_small, Nat2Z.id by lia.
  - intros price d t _ Ht _ Hd. unfold dated_by_bars, entry_dated.
    rewrite closeTrade_entryIndex, closeTrade_entryTime, closeTrade_exitIndex,
      closeTrade_exitTime.
    rewrite CppFacts.to_int_small by lia.
    by replace (Z.to_nat (Z.of_nat (length (prices (data this))) - 1))
      with (length (prices (data this)) - 1)%nat by lia.
Qed.

End LedgerFromBars.

Lemma disabled_rules_witness :
  ∃ sd trades_,
    simulate Example.stack_object [1; 1; 1] [0; 0; 0] = Ok (sd, trades_)
    ∧ length trades_ = 2%nat
    ∧ Forall (disabled_rules_silent Example.stack_object) trades_.
Proof.
  destruct (simulate Example.stack_object [1; 1; 1] [0; 0; 0])
    as [[sd trades_]|e] eqn:E; [|vm_compute in E; discriminate E].
  exists sd, trades_. split; [reflexivity|]. split.
  - vm_compute in E. by injection E as _ <-.
  - apply (disabled_rules_never_fire _ _ _ _ _ E). vm_compute. discriminate.
Defined.

Lemma direction_follows_witness :
  ∃ sd trades_,
    simulate Example.stack_object [1; 1; 1] [0; 0; 0] = Ok (sd, trades_)
    ∧ length trades_ = 2%nat
    ∧ Forall (follows_entry_signal [1; 1; 1]) trades_.
Proof.
  destruct (simulate Example.stack_object [1; 1; 1] [0; 0; 0])
    as [[sd trades_]|e] eqn:E; [|vm_compute in E; discriminate E].
  exists sd, trades_. split; [reflexivity|]. split.
  - vm_compute in E. by injection E as _ <-.
  - apply (direction_follows_entry_signal _ _ _ _ _ E). vm_compute. discriminate.
Defined.

Lemma ledger_times_witness :
  ∃ sd trades_,
    simulate Example.stack_object [1; 1; 1] [0; 0; 0] = Ok (sd, trades_)
    ∧ length trades_ = 2%nat
    ∧ Forall (dated_by_bars [0; 1; 2]) trades_.
Proof.
  destruct (simulate Example.stack_object [1; 1; 1] [0; 0; 0])
    as [[sd trades_]|e] eqn:E; [|vm_compute in E; discriminate E].
  exists sd, trades_. split; [reflexivity|]. split.
  - vm_compute in E. by injection E as _ <-.
  - apply (ledger_times_are_bar_dates _ _ _ _ _ E). vm_compute. discriminate.
Defined.

(** ** Drawdown and the ratios *)

Section RatioFacts.

Variable pow : float → float → float.
Variable this : Backtest.

Lemma drawdownLoop_rising rest peak maxDrawdown_ :
  rising_from peak rest → drawdownLoop rest peak maxDrawdown_ = maxDrawdown_.
Proof.
  revert peak. induction rest as [|v rest IH]; intros peak H; simpl; [done|].
  destruct H as [-> H]. by apply IH.
Qed.

(** X21.  On a series whose total capital rises at every bar there is no
    drawdown: the metrics report [maxDrawdown = 0.0], and the Calmar ratio
    takes its capped value, [100.0] for a positive annualised return and
    [0.0] otherwise. *)
Theorem rising_equity_has_no_drawdown data_ trades_ riskFreeRate m :
  calculateMetrics pow this data_ trades_ riskFreeRate = Ok m →
  totalCapital data_ ≠ [] →
  rising (totalCapital data_) →
  maxDrawdown m = 0%float
  ∧ calmarRatio m = (if (0 <? annualizedReturn m)%float then 100 else 0)%float.
Proof.
  intros H Hne Hrising.
  assert (calculateMaxDrawdown (totalCapital data_) = Ok 0%float) as Hdd.
  { unfold calculateMaxDrawdown. destruct (totalCapital data_) as [|v rest]; [done|].
    simpl. by rewrite drawdownLoop_rising. }
  unfold calculateMetrics in H. rewrite bool_decide_false in H by done.
  apply bind_Ok in H as (endValue_ & _ & H).
  destruct (tallyTrades trades_) as [[w p] l].
  rewrite Hdd in H. simpl in H.
  apply bind_Ok in H as (curve & _ & H).
  injection H as <-. simpl. split; [done|].
  unfold calculateCalmarRatio.
  by replace (0 <? 0.01)%float with true by (by vm_compute).
Qed.

Lemma without_nan_idempotent returns :
  without_nan (without_nan returns) = without_nan returns.
Proof.
  unfold without_nan. induction returns as [|r rest IH]; [done|].
  rewrite (filter_cons _ r rest). destruct (decide (is_nan r = false)) as [Hr|Hr].
  - rewrite filter_cons, decide_True by done. by rewrite IH.
  - done.
Qed.

Lemma excessReturnsOf_without_nan returns rate :
  excessReturnsOf (without_nan returns) rate = excessReturnsOf returns rate.
Proof.
  unfold excessReturnsOf. fold (without_nan (without_nan returns)).
  fold (without_nan returns). by rewrite without_nan_idempotent.
Qed.

Lemma excessReturnsOf_nil returns rate :
  without_nan returns = [] → excessReturnsOf returns rate = [].
Proof. unfold excessReturnsOf, without_nan. by intros ->. Qed.

(** X22.  NaN entries of the return series do not count: the Sharpe and
    the Sortino ratio of a series are those of the series with its NaN
    entries removed. *)
Theorem ratios_ignore_nan_returns returns riskFreeRate periodsPerYear :
  calculateAnnualizedSharpeRatio pow returns riskFreeRate periodsPerYear
  = calculateAnnualizedSharpeRatio pow (without_nan returns) riskFreeRate periodsPerYear
  ∧ calculateSortinoRatio pow returns riskFreeRate periodsPerYear
    = calculateSortinoRatio pow (without_nan returns) riskFreeRate periodsPerYear.
Proof.
  unfold calculateAnnualizedSharpeRatio, calculateSortinoRatio.
  rewrite !excessReturnsOf_without_nan.
  destruct (decide (without_nan returns = [])) as [Hnil|Hne].
  - rewrite (bool_decide_true (without_nan returns = [])) by done.
    rewrite !(excessReturnsOf_nil returns) by done.
    rewrite (bool_decide_true ([] = [])) by done.
    by destruct (bool_decide (returns = [])).
  - rewrite (bool_decide_false (without_nan returns = [])) by done.
    rewrite (bool_decide_false (returns = [])); [done|].
    intros ->. by apply Hne.
Qed.

(** X23.  A single-strategy object with at least one bar runs to the end:
    after [run], [getResult] and [getTrades] return the metrics and the
    ledger of the run on the signal vectors given to the constructor, and
    [getResults] is empty. *)
Theorem single_run_stores_its_result prices_ entries_ exits_ dates_ a this0 :
  Backtest_single prices_ entries_ exits_ dates_ a = Ok this0 →
  prices_ ≠ [] →
  Z.of_nat (length prices_) ≤ 2 ^ 64 →
  ∃ b' m trades_,
    run pow this0 = Ok b'
    ∧ runSingleBacktest pow this0 entries_ exits_ = Ok (m, trades_)
    ∧ getResult b' = m
    ∧ getTrades b' = trades_
    ∧ getResults b' = ∅.
Proof.
  intros Hmk Hne Hmax.
  apply Backtest_single_Ok in Hmk as [Hthis Hwf].
  assert (prices (data this0) = prices_ ∧ entries (data this0) = entries_
          ∧ exits (data this0) = exits_ ∧ isMulti this0 = false
          ∧ results this0 = ∅) as (Hp & He & Hx & Hsingle & Hrs)
    by (by rewrite Hthis).
  destruct (runSingleBacktest_runs pow this0 entries_ exits_ Hwf)
    as (m & trades_ & Hrun); [by rewrite Hp | by rewrite Hp|].
  exists (with_result this0 m trades_), m, trades_.
  split; [|done].
  unfold run, runBacktest. rewrite Hsingle, He, Hx, Hrun. done.
Qed.

End RatioFacts.

Lemma rising_equity_witness :
  ∃ m,
    calculateMetrics Scenario.any_pow Example.stack_object
      (withSeries (data Example.stack_object) [] [] [1000; 1010; 1020]%float
         [0; 0; 0]%float [])
      [] 0 = Ok m
    ∧ maxDrawdown m = 0%float
    ∧ calmarRatio m = 100%float.
Proof.
  destruct (calculateMetrics Scenario.any_pow Example.stack_object
              (withSeries (data Example.stack_object) [] [] [1000; 1010; 1020]%float
                 [0; 0; 0]%float [])
              [] 0) as [m|e] eqn:E; [|vm_compute in E; discriminate E].
  destruct (rising_equity_has_no_drawdown _ _ _ _ _ _ E) as [Hdd Hcalmar].
  - discriminate.
  - simpl. split; [reflexivity|]. split; [reflexivity | exact I].
  - exists m. split; [reflexivity|]. split; [exact Hdd|].
    rewrite Hcalmar. vm_compute in E. injection E as <-. reflexivity.
Defined.

Lemma single_run_witness :
  ∃ b' m trades_,
    run Scenario.any_pow Example.stack_object = Ok b'
    ∧ runSingleBacktest Scenario.any_pow Example.stack_object [1; 1; 1] [0; 0; 0]
      = Ok (m, trades_)
    ∧ getResult b' = m
    ∧ getTrades b' = trades_.
Proof.
  destruct (single_run_stores_its_result Scenario.any_pow
              [100; 100; 100]%float [1; 1; 1] [0; 0; 0] [0; 1; 2]
              Example.stack_args Example.stack_object)
    as (b' & m & trades_ & H1 & H2 & H3 & H4 & _).
  - reflexivity.
  - discriminate.
  - vm_compute. discriminate.
  - exists b', m, trades_.
    split; [exact H1|]. split; [exact H2|]. split; [exact H3 | exact H4].
Defined.
